(** * OpenModelica simulation runtime: the hybrd and LAPACK solver wrappers

    A shallow embedding of
    [SimulationRuntime/c/simulation/solver/nonlinearSolverHybrd.c] and
    [SimulationRuntime/c/simulation/solver/linearSolverLapack.c].

    C [double]s are modelled as the real numbers [R] (no rounding, no NaN),
    C [int]s that count or classify as [Z], array sizes and loop indices as
    [nat], C arrays as [list R] read with [nth _ _ 0] and written in place
    with [upd].  The external numerical routines ([_omc_hybrd_], [dgesv_])
    and the model callbacks ([residualFunc], [setA], [setb],
    [storeRelations]) are parameters of the embedding.  Diagnostic output
    that the properties talk about is recorded in a ghost [trace]. *)

From Stdlib Require Import Reals Lra Lia ZArith List Bool.
Import ListNotations.

Local Open Scope R_scope.

(** ** Arrays and counted loops *)

(** [a[i] = v]: in-place store; a store outside the array is left out of the
    model (it is undefined behaviour in C). *)
Fixpoint upd {A : Type} (i : nat) (v : A) (a : list A) : list A :=
  match a, i with
  | [], _ => []
  | _ :: t, O => v :: t
  | h :: t, S j => h :: upd j v t
  end.

(** [for (i = start; i < start + count; i++) s = body i s]. *)
Fixpoint for_loop {St : Type} (count start : nat) (body : nat -> St -> St) (s : St) : St :=
  match count with
  | O => s
  | S c => for_loop c (S start) body (body start s)
  end.

(** [for (i = 0; i < k; i++) s = body i s]. *)
Definition for_n {St : Type} (k : nat) (body : nat -> St -> St) (s : St) : St :=
  for_loop k 0 body s.

(** [for (i = 0; i < k; i++) a[i] = g(i, a[i])]. *)
Definition vec_for (k : nat) (g : nat -> R -> R) (a : list R) : list R :=
  for_n k (fun i v => upd i (g i (nth i v 0)) v) a.

(** [memcpy(dst, src, k * sizeof(double))]. *)
Definition memcpy (dst src : list R) (k : nat) : list R :=
  vec_for k (fun i _ => nth i src 0) dst.

(** [memset(a, 0, k * sizeof(double))]. *)
Definition memset0 (a : list R) (k : nat) : list R :=
  vec_for k (fun _ _ => 0) a.

(** Comparisons of doubles as booleans. *)
Definition Rleb (a b : R) : bool := if Rle_dec a b then true else false.
Definition Rgtb (a b : R) : bool := if Rgt_dec a b then true else false.

(** [fabs(...) > acc ? fabs(...) : acc] and friends. *)
Definition fabs (a : R) : R := Rabs a.

(** Modelled from the spec: [enorm_] (the Euclidean norm routine of the
    root-finder library) is not part of the two source files; the spec gives
    [xerror = ||residual||_2], the 2-norm of the first [k] entries. *)
Definition enorm_ (k : nat) (v : list R) : R :=
  sqrt (for_n k (fun i acc => acc + nth i v 0 * nth i v 0) 0).

(** ** linearSolverLapack.c *)

Module Lapack.

(** What [warningStreamPrint] is given in the two failure branches: the
    integers substituted for the [%d]s after the equation number. *)
Inductive Warning : Type :=
| ArgumentIllegal (arg : Z)
| SingularU (row col : Z).

Record LINEAR_SYSTEM_DATA := {
  size : nat;
  A : list R;        (* size * size, column-major *)
  b : list R;        (* right-hand side, overwritten with the solution *)
  x : list R         (* solution slot *)
}.

Record DATA_LAPACK := {
  ipiv : list Z;
  nrhs : Z;
  info : Z
}.

Record DATA := {
  systemData : LINEAR_SYSTEM_DATA;
  solverData : DATA_LAPACK;
  warnings : list Warning
}.

(** Result of the external [dgesv_]: [a], [ipiv], [b] overwritten, [info] set. *)
Record DgesvOut := {
  out_A : list R;
  out_ipiv : list Z;
  out_b : list R;
  out_info : Z
}.

Section Solve.

(** [dgesv_(n, nrhs, a, lda, ipiv, b, ldb, info)]. *)
Variable dgesv_ : nat -> Z -> list R -> nat -> list Z -> list R -> nat -> DgesvOut.
(** The assembly callbacks write the matrix and the right-hand side. *)
Variable setA : LINEAR_SYSTEM_DATA -> list R.
Variable setb : LINEAR_SYSTEM_DATA -> list R.

Definition solveLapack (data : DATA) : DATA * bool :=
  let sys := systemData data in
  let sol := solverData data in
  let n := size sys in
  let success := true in
  (* reset matrix A *)
  let sys := {| size := n; A := memset0 (A sys) (size sys * size sys);
                b := b sys; x := x sys |} in
  (* update matrix A, update vector b *)
  let sys := {| size := n; A := setA sys; b := b sys; x := x sys |} in
  let sys := {| size := n; A := A sys; b := setb sys; x := x sys |} in
  (* Solve system *)
  let r := dgesv_ (size sys) (nrhs sol) (A sys) (size sys) (ipiv sol) (b sys) (size sys) in
  let sys := {| size := n; A := out_A r; b := out_b r; x := x sys |} in
  let sol := {| ipiv := out_ipiv r; nrhs := nrhs sol; info := out_info r |} in
  let '(w, success) :=
    if (info sol <? 0)%Z then
      (warnings data ++ [ArgumentIllegal (info sol)], false)
    else if (info sol >? 0)%Z then
      (warnings data ++ [SingularU (info sol + 1) (info sol + 1)], false)
    else (warnings data, success) in
  (* take the solution *)
  let sys := {| size := n; A := A sys; b := b sys;
                x := memcpy (x sys) (b sys) (size sys) |} in
  ({| systemData := sys; solverData := sol; warnings := w |}, success).

(** The system handed to [dgesv_]: matrix cleared and reassembled. *)
Definition assembled (data : DATA) : LINEAR_SYSTEM_DATA :=
  let sys := systemData data in
  let sys := {| size := size sys;
                A := memset0 (A sys) (size sys * size sys);
                b := b sys; x := x sys |} in
  let sys := {| size := size sys; A := setA sys;
                b := b sys; x := x sys |} in
  {| size := size sys; A := A sys;
     b := setb sys; x := x sys |}.

Definition dgesv_result (data : DATA) : DgesvOut :=
  let sys := assembled data in
  dgesv_ (size sys) (nrhs (solverData data)) (A sys)
    (size sys) (ipiv (solverData data)) (b sys)
    (size sys).

End Solve.

(** Entry [i] of the product of the [k] x [k] matrix [a] with [v]; the
    matrix is column-major, [a[i + j*k]] being row [i], column [j], as in
    the logging loops of [solveLapack]. *)
Definition row_times (k : nat) (a v : list R) (i : nat) : R :=
  for_n k (fun j acc => acc + nth (i + j * k) a 0 * nth j v 0) 0.

(** [v] solves the system with matrix [a] and right-hand side [rhs]. *)
Definition solves (k : nat) (a rhs v : list R) : Prop :=
  forall i, (i < k)%nat -> row_times k a v i = nth i rhs 0.

(** Modelled from the spec: [dgesv_] is an external routine (LU
    factorisation with partial pivoting; a positive status [k] means the
    matrix is singular at pivot [k], 1-based).  This stand-in covers
    diagonal systems, where no row is exchanged: the status is the 1-based
    index of the first zero diagonal entry, 0 when there is none, and then
    [b[i]] becomes [b[i] / a[i,i]]. *)
Definition first_zero_pivot (n : nat) (a : list R) : Z :=
  for_n n (fun i st =>
             if (st =? 0)%Z
             then if Req_dec_T (nth (i + i * n) a 0) 0 then Z.of_nat (S i) else 0%Z
             else st) 0%Z.

Definition dgesv_diag (n : nat) (nrhs : Z) (a : list R) (lda : nat)
           (ipiv : list Z) (rhs : list R) (ldb : nat) : DgesvOut :=
  let st := first_zero_pivot n a in
  {| out_A := a;
     out_ipiv := for_n n (fun i p => upd i (Z.of_nat (S i)) p) ipiv;
     out_b := if (st =? 0)%Z
              then vec_for n (fun i bi => bi / nth (i + i * n) a 0) rhs
              else rhs;
     out_info := st |}.

End Lapack.

(** ** nonlinearSolverHybrd.c *)

Module Hybrd.

(** First argument of [printErrorEqSyst]. *)
Inductive equationSystemError : Type :=
| IMPROPER_INPUT
| ERROR_AT_TIME.

(** Ghost trace of the calls that leave [solveHybrd]. *)
Inductive Event : Type :=
| EvResidual (useXScaling : bool) (xs : list R)   (* residualFunc(data, xs, f, iflag) *)
| EvHybrd                                         (* _omc_hybrd_(...) *)
| EvStoreRelations                                (* storeRelations(data) *)
| EvPrintError (e : equationSystemError).          (* printErrorEqSyst(e, ...) *)

(** The fields of [data->simulationInfo] that [solveHybrd] reads or writes. *)
Record SIMULATION_INFO := {
  discreteCall : bool;
  solveContinuous : bool;
  found_solution : Z;
  initial : bool
}.

Record NONLINEAR_SYSTEM_DATA := {
  nlsx : list R;
  nlsxOld : list R;
  nlsxExtrapolation : list R;
  nlsxScaling : list R
}.

(** The fields of [DATA_HYBRD] that [solveHybrd] reads or writes; the
    remaining ones ([xtol], [maxfev], [ml], [mu], [epsfcn], [nprint], the
    work arrays) are set once at allocation and only handed to the
    root-finder. *)
Record DATA_HYBRD := {
  n : nat;
  x : list R;
  fvec : list R;
  diag : list R;
  mode : Z;
  factor : R;
  info : Z;
  nfev : Z;
  fjacobian : list R;
  resScaling : list R;
  useXScaling : bool
}.

Section Data.

(** The rest of the simulation state, seen only by the callbacks. *)
Context {World : Type}.

Record DATA := {
  simulationInfo : SIMULATION_INFO;
  systemData : NONLINEAR_SYSTEM_DATA;
  solverData : DATA_HYBRD;
  env : World;
  trace : list Event
}.

(** Field stores. *)
Definition set_solverData (s : DATA_HYBRD) (d : DATA) : DATA :=
  {| simulationInfo := simulationInfo d; systemData := systemData d;
     solverData := s; env := env d; trace := trace d |}.
Definition set_env (w : World) (d : DATA) : DATA :=
  {| simulationInfo := simulationInfo d; systemData := systemData d;
     solverData := solverData d; env := w; trace := trace d |}.
Definition emit (e : Event) (d : DATA) : DATA :=
  {| simulationInfo := simulationInfo d; systemData := systemData d;
     solverData := solverData d; env := env d; trace := trace d ++ [e] |}.
Definition set_solveContinuous (v : bool) (d : DATA) : DATA :=
  {| simulationInfo :=
       {| discreteCall := discreteCall (simulationInfo d); solveContinuous := v;
          found_solution := found_solution (simulationInfo d);
          initial := initial (simulationInfo d) |};
     systemData := systemData d; solverData := solverData d;
     env := env d; trace := trace d |}.
Definition set_found_solution (v : Z) (d : DATA) : DATA :=
  {| simulationInfo :=
       {| discreteCall := discreteCall (simulationInfo d);
          solveContinuous := solveContinuous (simulationInfo d);
          found_solution := v;
          initial := initial (simulationInfo d) |};
     systemData := systemData d; solverData := solverData d;
     env := env d; trace := trace d |}.
Definition set_nlsx (v : list R) (d : DATA) : DATA :=
  {| simulationInfo := simulationInfo d;
     systemData :=
       {| nlsx := v; nlsxOld := nlsxOld (systemData d);
          nlsxExtrapolation := nlsxExtrapolation (systemData d);
          nlsxScaling := nlsxScaling (systemData d) |};
     solverData := solverData d; env := env d; trace := trace d |}.

Definition set_x (v : list R) (d : DATA) : DATA :=
  let s := solverData d in
  set_solverData
    {| n := n s; x := v; fvec := fvec s; diag := diag s; mode := mode s;
       factor := factor s; info := info s; nfev := nfev s;
       fjacobian := fjacobian s; resScaling := resScaling s;
       useXScaling := useXScaling s |} d.
Definition set_fvec (v : list R) (d : DATA) : DATA :=
  let s := solverData d in
  set_solverData
    {| n := n s; x := x s; fvec := v; diag := diag s; mode := mode s;
       factor := factor s; info := info s; nfev := nfev s;
       fjacobian := fjacobian s; resScaling := resScaling s;
       useXScaling := useXScaling s |} d.
Definition set_diag (v : list R) (d : DATA) : DATA :=
  let s := solverData d in
  set_solverData
    {| n := n s; x := x s; fvec := fvec s; diag := v; mode := mode s;
       factor := factor s; info := info s; nfev := nfev s;
       fjacobian := fjacobian s; resScaling := resScaling s;
       useXScaling := useXScaling s |} d.
Definition set_mode (v : Z) (d : DATA) : DATA :=
  let s := solverData d in
  set_solverData
    {| n := n s; x := x s; fvec := fvec s; diag := diag s; mode := v;
       factor := factor s; info := info s; nfev := nfev s;
       fjacobian := fjacobian s; resScaling := resScaling s;
       useXScaling := useXScaling s |} d.
Definition set_factor (v : R) (d : DATA) : DATA :=
  let s := solverData d in
  set_solverData
    {| n := n s; x := x s; fvec := fvec s; diag := diag s; mode := mode s;
       factor := v; info := info s; nfev := nfev s;
       fjacobian := fjacobian s; resScaling := resScaling s;
       useXScaling := useXScaling s |} d.
Definition set_info (v : Z) (d : DATA) : DATA :=
  let s := solverData d in
  set_solverData
    {| n := n s; x := x s; fvec := fvec s; diag := diag s; mode := mode s;
       factor := factor s; info := v; nfev := nfev s;
       fjacobian := fjacobian s; resScaling := resScaling s;
       useXScaling := useXScaling s |} d.
Definition set_resScaling (v : list R) (d : DATA) : DATA :=
  let s := solverData d in
  set_solverData
    {| n := n s; x := x s; fvec := fvec s; diag := diag s; mode := mode s;
       factor := factor s; info := info s; nfev := nfev s;
       fjacobian := fjacobian s; resScaling := v;
       useXScaling := useXScaling s |} d.
Definition set_useXScaling (v : bool) (d : DATA) : DATA :=
  let s := solverData d in
  set_solverData
    {| n := n s; x := x s; fvec := fvec s; diag := diag s; mode := mode s;
       factor := factor s; info := info s; nfev := nfev s;
       fjacobian := fjacobian s; resScaling := resScaling s;
       useXScaling := v |} d.

(** What one call of the external root-finder leaves behind: [x], [fvec]
    and [diag] overwritten, [info] and [nfev] set, the Jacobian estimate
    stored in [fjacobian], and whatever its residual evaluations did to
    the rest of the simulation state. *)
Record HybrdOut := {
  out_x : list R;
  out_fvec : list R;
  out_diag : list R;
  out_info : Z;
  out_nfev : Z;
  out_fjacobian : list R;
  out_env : World
}.

(** The local variables of [solveHybrd]. *)
Record Locals := {
  success : bool;
  giveUp : bool;
  retries : Z;
  retries2 : Z;
  retries3 : Z;
  local_tol : R;
  initial_factor : R;
  nfunc_evals : Z;
  xerror : R;
  xerror_scaled : R
}.

End Data.

Arguments DATA : clear implicits.
Arguments HybrdOut : clear implicits.

(** The [if / else if] chain at the end of the loop body, conditions in
    source order.  [found] is the first condition,
    [info == 1 || xerror <= local_tol || xerror_scaled <= local_tol]. *)
Inductive Branch : Type :=
| Solved                (* solution found *)
| DecreaseFactor        (* first try to decrease factor *)
| VaryPoint             (* try to vary the initial values *)
| DeactivateXScaling    (* try to deactivate x-Scaling *)
| RestartPlus           (* restart, extrapolation * 1.01 *)
| RestartMinus          (* restart, extrapolation * 0.99 *)
| RestartOld            (* then try with old values *)
| OwnScaling            (* own calculated scaling variables, mode 2 *)
| StartFromScaling      (* x = nlsxScaling *)
| StartFromOnes         (* x = 1.0 *)
| StartFromZeros        (* x = 0.0 *)
| NoScaling             (* x = extrapolation, diag = 1.0 *)
| ReduceTolerance       (* try reduce the tolerance a bit *)
| NoSolution            (* info >= 2 && info <= 5 *)
| NoBranch.             (* no condition holds *)

(** [solverData->info == 4 || solverData->info == 5]. *)
Definition no_progress (info : Z) : bool := ((info =? 4) || (info =? 5))%Z.

Definition select_branch (found : bool) (info retries retries2 retries3 : Z) : Branch :=
  if found then Solved
  else if no_progress info && (retries <? 3)%Z then DecreaseFactor
  else if no_progress info && (retries <? 5)%Z then VaryPoint
  else if no_progress info && (retries <? 4)%Z then DeactivateXScaling
  else if no_progress info && (retries2 <? 1)%Z then RestartPlus
  else if no_progress info && (retries2 <? 2)%Z then RestartMinus
  else if no_progress info && (retries2 <? 3)%Z then RestartOld
  else if no_progress info && (retries3 <? 1)%Z then OwnScaling
  else if no_progress info && (retries3 <? 2)%Z then StartFromScaling
  else if no_progress info && (retries3 <? 3)%Z then StartFromOnes
  else if no_progress info && (retries3 <? 4)%Z then StartFromZeros
  else if no_progress info && (retries3 <? 5)%Z then NoScaling
  else if no_progress info && (retries3 <? 7)%Z then ReduceTolerance
  else if ((info >=? 2) && (info <=? 5))%Z then NoSolution
  else NoBranch.

(** The recovery tiers in the order of the spec's table, for comparison
    with [select_branch]: T1a, T1b, T1c, R1..R3, T3a..T3f, give up. *)
Definition spec_tier (found : bool) (info retries retries2 retries3 : Z) : Branch :=
  if found then Solved
  else if no_progress info && (retries <? 3)%Z then DecreaseFactor
  else if no_progress info && (retries <? 4)%Z then DeactivateXScaling
  else if no_progress info && (retries <? 5)%Z then VaryPoint
  else if no_progress info && (retries2 <? 1)%Z then RestartPlus
  else if no_progress info && (retries2 <? 2)%Z then RestartMinus
  else if no_progress info && (retries2 <? 3)%Z then RestartOld
  else if no_progress info && (retries3 <? 1)%Z then OwnScaling
  else if no_progress info && (retries3 <? 2)%Z then StartFromScaling
  else if no_progress info && (retries3 <? 3)%Z then StartFromOnes
  else if no_progress info && (retries3 <? 4)%Z then StartFromZeros
  else if no_progress info && (retries3 <? 5)%Z then NoScaling
  else if no_progress info && (retries3 <? 7)%Z then ReduceTolerance
  else if ((info >=? 2) && (info <=? 5))%Z then NoSolution
  else NoBranch.

(** The inner loop of "Scaling residual vector": starting from [1e-16],
    the running maximum of [fabs(fjacobian[l])] over [n] consecutive
    entries; [l] is advanced once per entry. *)
Definition row_scale_step (jac : list R) (j : nat) (st : R * nat) : R * nat :=
  let '(acc, l) := st in
  ((if Rgt_dec (fabs (nth l jac 0)) acc then fabs (nth l jac 0) else acc), S l).

(** The outer loop: [resScaling[i] = fvec[i] * (1 / resScaling[i])]. *)
Definition scale_residual (k : nat) (jac fv rs : list R) : list R :=
  fst (for_n k (fun i (st : list R * nat) =>
                  let '(rs, l) := st in
                  let '(m, l) := for_n k (row_scale_step jac) (1e-16, l) in
                  (upd i (nth i fv 0 * (1 / m)) rs, l))
             (rs, O)).

(** Modelled from the spec: the layout of the Jacobian estimate in the
    [fjacobian] buffer is fixed by the root-finder [_omc_hybrd_], which is
    not part of the two source files.  The spec's data model has
    [residualScale] "recomputed each outer iteration from the Jacobian
    estimate's column maxima", and the loop takes its maxima over blocks
    of [n] consecutive entries; so block [c] holds column [c], and entry
    (row [r], column [c]) of the [k] x [k] estimate is
    [fjacobian[r + c * k]].  This is the column-major layout that the
    leading dimension [ldfjac], passed along with the buffer, stands
    for. *)
Definition jacobian_entry (k : nat) (jac : list R) (r c : nat) : R :=
  nth (r + c * k) jac 0.

(** The largest absolute value in column [c], [max_r |J[r,c]|]. *)
Definition column_abs_max (k : nat) (jac : list R) (c : nat) : R :=
  fold_right Rmax 0 (map (fun r => Rabs (jacobian_entry k jac r c)) (seq 0 k)).


(** The formula of the spec's data model for [residualScale[i]]: the
    residual over the column maximum, floored at [1e-16]. *)
Definition spec_residualScale (k : nat) (jac fv : list R) (i : nat) : R :=
  nth i fv 0 / Rmax 1e-16 (column_abs_max k jac i).

(** The largest absolute value among [c] entries from position [l] on. *)
Definition abs_max_from (jac : list R) (l c : nat) : R :=
  fold_right Rmax 0 (map (fun t => Rabs (nth (l + t) jac 0)) (seq 0 c)).

(** The branches that ask for another pass ([giveUp = 0]). *)
Definition is_retry (br : Branch) : bool :=
  match br with
  | Solved | NoSolution | NoBranch => false
  | _ => true
  end.

(** What a branch does to [retries], [retries2] and [retries3]. *)
Definition branch_counters (br : Branch) (c : Z * Z * Z) : Z * Z * Z :=
  let '(r, r2, r3) := c in
  match br with
  | Solved | NoSolution | NoBranch => (r, r2, r3)
  | DecreaseFactor | VaryPoint | DeactivateXScaling => (r + 1, r2, r3)%Z
  | RestartPlus | RestartMinus | RestartOld => (0, r2 + 1, r3)%Z
  | _ => (0, 0, r3 + 1)%Z
  end.

(** What a branch does to [useXScaling]. *)
Definition branch_useXScaling (br : Branch) (u : bool) : bool :=
  match br with
  | DeactivateXScaling => false
  | Solved | DecreaseFactor | VaryPoint | NoSolution | NoBranch => u
  | _ => true
  end.

(** The three retry counters. *)
Definition counters (l : Locals) : Z * Z * Z := (retries l, retries2 l, retries3 l).

(** The number of retry branches the counters still allow: 5 first-level
    retries per start, 3 restarts per third-level setting, 7 third-level
    changes. *)
Definition rank_of (c : Z * Z * Z) : nat :=
  let '(r, r2, r3) := c in
  (24 * Z.to_nat (7 - r3) + 6 * Z.to_nat (3 - r2) + Z.to_nat (5 - r))%nat.

(** The solver fields that only the retry branches write. *)
Definition same_settings (s s' : DATA_HYBRD) : Prop :=
  n s' = n s /\ mode s' = mode s /\ factor s' = factor s
  /\ resScaling s' = resScaling s /\ useXScaling s' = useXScaling s.

Section Solve.

Context {World : Type}.

(** [residualFunc(data, x, f, iflag)]: the arrays [x] and [f] after the
    call, and the rest of the simulation state. *)
Variable residualFunc : DATA World -> list R -> list R * list R * World.
(** The external root-finder, called with [wrapper_fvec_hybrd] and [data]. *)
Variable _omc_hybrd_ : DATA World -> HybrdOut World.
Variable storeRelations : DATA World -> World.

(** [wrapper_fvec_hybrd(n, x, f, iflag, data)]: [x] and [f] after the
    call, and [data].  The system it looks up through
    [currentNonlinearSystemIndex] is the one being solved. *)
Definition wrapper_fvec_hybrd (k : nat) (v : list R) (data : DATA World)
  : list R * list R * DATA World :=
  let s := nlsxScaling (systemData data) in
  (* re-scaling x vector *)
  let v := if useXScaling (solverData data)
           then vec_for k (fun i xi => xi * nth i s 0) v else v in
  (* call residual function *)
  let '(v', f, w) := residualFunc data v in
  let data := set_env w (emit (EvResidual (useXScaling (solverData data)) v) data) in
  (* Scaling x vector *)
  let v' := if useXScaling (solverData data)
            then vec_for k (fun i xi => (1 / nth i s 0) * xi) v' else v' in
  (v', f, data).

(** The block "evaluate with discontinuities": the wrapper called on
    [solverData->x] and [solverData->fvec] with [useXScaling] cleared
    for the call. *)
Definition evaluate_with_discontinuities (store : bool) (data : DATA World)
  : DATA World :=
  let scaling := useXScaling (solverData data) in
  let data := if scaling then set_useXScaling false data else data in
  let '(v, f, data) :=
    wrapper_fvec_hybrd (n (solverData data)) (x (solverData data)) data in
  let data := set_fvec f (set_x v data) in
  let data := if store
              then set_env (storeRelations data) (emit EvStoreRelations data)
              else data in
  if scaling then set_useXScaling true data else data.

(** The call of [_omc_hybrd_]; the residual evaluations the root-finder
    makes through the wrapper are part of the call. *)
Definition call_hybrd (data : DATA World) : DATA World :=
  let o := _omc_hybrd_ data in
  let s := solverData data in
  set_env (out_env o)
    (emit EvHybrd
       (set_solverData
          {| n := n s; x := out_x o; fvec := out_fvec o; diag := out_diag o;
             mode := mode s; factor := factor s; info := out_info o;
             nfev := out_nfev o; fjacobian := out_fjacobian o;
             resScaling := resScaling s; useXScaling := useXScaling s |}
          data)).

(** What every retry branch does to the locals: the counters as given,
    [giveUp = 0], [nfunc_evals += solverData->nfev]. *)
Definition retry (r r2 r3 : Z) (tol : R) (nf : Z) (l : Locals) : Locals :=
  {| success := success l; giveUp := false;
     retries := r; retries2 := r2; retries3 := r3;
     local_tol := tol; initial_factor := initial_factor l;
     nfunc_evals := nfunc_evals l + nf;
     xerror := xerror l; xerror_scaled := xerror_scaled l |}.

(** The bodies of the branches. *)
Definition run_branch (br : Branch) (data : DATA World) (l : Locals)
  : DATA World * Locals :=
  let k := n (solverData data) in
  let sys := systemData data in
  let nf := nfev (solverData data) in
  let restart3 (md : Z) (data : DATA World) :=
    (set_mode md (set_useXScaling true (set_factor (initial_factor l) data)),
     retry 0 0 (retries3 l + 1) (local_tol l) nf l) in
  match br with
  | Solved =>
      (data,
       {| success := true; giveUp := giveUp l;
          retries := retries l; retries2 := retries2 l; retries3 := retries3 l;
          local_tol := local_tol l; initial_factor := initial_factor l;
          nfunc_evals := nfunc_evals l + nf;
          xerror := xerror l; xerror_scaled := xerror_scaled l |})
  | DecreaseFactor =>
      (set_factor (factor (solverData data) / 10) data,
       retry (retries l + 1) (retries2 l) (retries3 l) (local_tol l) nf l)
  | VaryPoint =>
      (set_x (vec_for k (fun i xi => xi + nth i (nlsxScaling sys) 0 * 0.1)
                (x (solverData data))) data,
       retry (retries l + 1) (retries2 l) (retries3 l) (local_tol l) nf l)
  | DeactivateXScaling =>
      (set_useXScaling false data,
       retry (retries l + 1) (retries2 l) (retries3 l) (local_tol l) nf l)
  | RestartPlus =>
      (set_useXScaling true
         (set_x (vec_for k (fun i _ => nth i (nlsxExtrapolation sys) 0 * 1.01)
                   (x (solverData data))) data),
       retry 0 (retries2 l + 1) (retries3 l) (local_tol l) nf l)
  | RestartMinus =>
      (set_useXScaling true
         (set_x (vec_for k (fun i _ => nth i (nlsxExtrapolation sys) 0 * 0.99)
                   (x (solverData data))) data),
       retry 0 (retries2 l + 1) (retries3 l) (local_tol l) nf l)
  | RestartOld =>
      (set_useXScaling true
         (set_factor (initial_factor l)
            (set_x (vec_for k (fun i _ => nth i (nlsxOld sys) 0)
                      (x (solverData data))) data)),
       retry 0 (retries2 l + 1) (retries3 l) (local_tol l) nf l)
  | OwnScaling =>
      restart3 2%Z
        (set_diag
           (vec_for k (fun i _ =>
                         let di := fabs (nth i (resScaling (solverData data)) 0) in
                         if Rle_dec di 0 then 1e-16 else di)
              (diag (solverData data))) data)
  | StartFromScaling =>
      restart3 1%Z
        (set_x (vec_for k (fun i _ => nth i (nlsxScaling sys) 0)
                  (x (solverData data))) data)
  | StartFromOnes =>
      restart3 1%Z
        (set_x (vec_for k (fun _ _ => 1) (x (solverData data))) data)
  | StartFromZeros =>
      restart3 1%Z
        (set_x (vec_for k (fun _ _ => 0) (x (solverData data))) data)
  | NoScaling =>
      restart3 2%Z
        (set_diag (vec_for k (fun _ _ => 1) (diag (solverData data)))
           (set_x (vec_for k (fun i _ => nth i (nlsxExtrapolation sys) 0)
                     (x (solverData data))) data))
  | ReduceTolerance =>
      (set_mode 2%Z (set_useXScaling true (set_factor (initial_factor l) data)),
       retry 0 0 (retries3 l + 1) (local_tol l * 10) nf l)
  | NoSolution =>
      let data := set_found_solution (-1) data in
      (* while the initialization it's ok to every time a solution *)
      (if negb (initial (simulationInfo data))
       then emit (EvPrintError ERROR_AT_TIME) data else data,
       l)
  | NoBranch => (data, l)
  end.

(** First part of a pass of the solving loop: from "Scaling x vector"
    through the root-finder call to "evaluate with discontinuities". *)
Definition solve_phase (data : DATA World) : DATA World :=
  let k := n (solverData data) in
  let s := nlsxScaling (systemData data) in
  (* Scaling x vector *)
  let data :=
    if useXScaling (solverData data)
    then set_x (vec_for k (fun i xi => (1 / nth i s 0) * xi) (x (solverData data))) data
    else data in
  (* set residual function continuous *)
  let data :=
    if negb ((info (solverData data) =? 4)%Z && discreteCall (simulationInfo data))
    then set_solveContinuous true data else data in
  let data := call_hybrd data in
  let data := set_solveContinuous false data in
  (* re-scaling x vector *)
  let data :=
    if useXScaling (solverData data)
    then set_x (vec_for k (fun i xi => xi * nth i s 0) (x (solverData data))) data
    else data in
  (* check for proper inputs *)
  let data :=
    if (info (solverData data) =? 0)%Z
    then set_found_solution (-1) (emit (EvPrintError IMPROPER_INPUT) data)
    else data in
  (* evaluate with discontinuities *)
  if discreteCall (simulationInfo data)
  then evaluate_with_discontinuities true data else data.

(** Second part: "Scaling residual vector" and "check for error". *)
Definition classify_phase (st : DATA World * Locals) : DATA World * Locals :=
  let '(data, l) := st in
  let k := n (solverData data) in
  (* Scaling residual vector *)
  let data :=
    set_resScaling
      (scale_residual k (fjacobian (solverData data)) (fvec (solverData data))
         (resScaling (solverData data))) data in
  (* check for error *)
  let xerror_scaled' := enorm_ k (resScaling (solverData data)) in
  let xerror' := enorm_ k (fvec (solverData data)) in
  let l :=
    {| success := success l; giveUp := giveUp l;
       retries := retries l; retries2 := retries2 l; retries3 := retries3 l;
       local_tol := local_tol l; initial_factor := initial_factor l;
       nfunc_evals := nfunc_evals l;
       xerror := xerror'; xerror_scaled := xerror_scaled' |} in
  let data :=
    if (info (solverData data) =? 1)%Z
       && (Rgtb xerror' (local_tol l) && Rgtb xerror_scaled' (local_tol l))
    then set_info 4%Z data else data in
  (data, l).

(** The condition of "solution found". *)
Definition solution_found (st : DATA World * Locals) : bool :=
  let '(data, l) := st in
  (info (solverData data) =? 1)%Z
  || Rleb (xerror l) (local_tol l) || Rleb (xerror_scaled l) (local_tol l).

(** [giveUp = 1], set just before the root-finder call. *)
Definition set_giveUp (l : Locals) : Locals :=
  {| success := success l; giveUp := true;
     retries := retries l; retries2 := retries2 l; retries3 := retries3 l;
     local_tol := local_tol l; initial_factor := initial_factor l;
     nfunc_evals := nfunc_evals l;
     xerror := xerror l; xerror_scaled := xerror_scaled l |}.

(** One pass of the solving loop. *)
Definition loop_body (st : DATA World * Locals) : DATA World * Locals :=
  let st := classify_phase (solve_phase (fst st), set_giveUp (snd st)) in
  run_branch
    (select_branch (solution_found st) (info (solverData (fst st)))
       (retries (snd st)) (retries2 (snd st)) (retries3 (snd st)))
    (fst st) (snd st).

(** [while (!giveUp && !success)]. *)
Definition loop_guard (l : Locals) : bool := negb (giveUp l) && negb (success l).

Fixpoint solving_loop (fuel : nat) (st : DATA World * Locals) : DATA World * Locals :=
  match fuel with
  | O => st
  | S fuel' => if loop_guard (snd st) then solving_loop fuel' (loop_body st) else st
  end.

(** The number of passes the retry counters still allow. *)
Definition rank (l : Locals) : nat :=
  24 * Z.to_nat (7 - retries3 l) + 6 * Z.to_nat (3 - retries2 l)
  + Z.to_nat (5 - retries l).

(** Declarations, "set x vector" and the first "evaluate with
    discontinuities".  [xerror] and [xerror_scaled] are uninitialised in
    C until the first pass assigns them; they start at 0 here. *)
Definition prologue (data : DATA World) : DATA World * Locals :=
  let l :=
    {| success := false; giveUp := false;
       retries := 0; retries2 := 0; retries3 := 0;
       local_tol := 1e-12; initial_factor := factor (solverData data);
       nfunc_evals := 0; xerror := 0; xerror_scaled := 0 |} in
  (* set x vector *)
  let data :=
    if discreteCall (simulationInfo data)
    then set_x (memcpy (x (solverData data)) (nlsx (systemData data))
                  (n (solverData data))) data
    else set_x (memcpy (x (solverData data)) (nlsxExtrapolation (systemData data))
                  (n (solverData data))) data in
  (* evaluate with discontinuities *)
  let data := evaluate_with_discontinuities false data in
  (data, l).

(** "take the best approximation" and "reset some solving data". *)
Definition epilogue (st : DATA World * Locals) : DATA World * bool :=
  let '(data, l) := st in
  let data :=
    set_nlsx (memcpy (nlsx (systemData data)) (x (solverData data))
                (n (solverData data))) data in
  let data := set_factor (initial_factor l) data in
  (data, success l).

(** The state when the solving loop is left. *)
Definition solveHybrd_loop (data : DATA World) : DATA World * Locals :=
  let st := prologue data in
  solving_loop (S (rank (snd st))) st.

Definition solveHybrd (data : DATA World) : DATA World * bool :=
  epilogue (solveHybrd_loop data).

(** The state in which the branch of a pass is chosen. *)
Definition classified (st : DATA World * Locals) : DATA World * Locals :=
  classify_phase (solve_phase (fst st), set_giveUp (snd st)).

(** The branch a pass takes. *)
Definition branch_taken (st : DATA World * Locals) : Branch :=
  select_branch (solution_found (classified st))
    (info (solverData (fst (classified st))))
    (retries (snd st)) (retries2 (snd st)) (retries3 (snd st)).

(** The convergence test, on the state a pass leaves. *)
Definition converged (tol : R) (st : DATA World * Locals) : Prop :=
  info (solverData (fst st)) = 1%Z
  \/ xerror (snd st) <= tol \/ xerror_scaled (snd st) <= tol.

(** What [success] means in a state of the loop. *)
Definition accepted (st : DATA World * Locals) : Prop :=
  success (snd st) = true ->
  converged (local_tol (snd st)) st
  /\ xerror (snd st) = enorm_ (n (solverData (fst st))) (fvec (solverData (fst st)))
  /\ xerror_scaled (snd st)
     = enorm_ (n (solverData (fst st))) (resScaling (solverData (fst st))).

(** The state in which a pass calls the root-finder: the iterate divided
    by the scale factors when [useXScaling] is set, and [solveContinuous]
    set unless the last code was 4 in a discrete call. *)
Definition hybrd_input (data : DATA World) : DATA World :=
  let k := n (solverData data) in
  let s := nlsxScaling (systemData data) in
  let data :=
    if useXScaling (solverData data)
    then set_x (vec_for k (fun i xi => (1 / nth i s 0) * xi) (x (solverData data))) data
    else data in
  if negb ((info (solverData data) =? 4)%Z && discreteCall (simulationInfo data))
  then set_solveContinuous true data else data.

(** The iterate the root-finder returns, multiplied by the scale factors
    when [useXScaling] is set. *)
Definition rescaled (data : DATA World) (v : list R) : list R :=
  if useXScaling (solverData data)
  then vec_for (n (solverData data)) (fun i xi => xi * nth i (nlsxScaling (systemData data)) 0) v
  else v.

(** The rest of the first part of a pass, after the root-finder call. *)
Definition after_hybrd (k : nat) (s : list R) (data : DATA World) : DATA World :=
  let data := set_solveContinuous false data in
  let data :=
    if useXScaling (solverData data)
    then set_x (vec_for k (fun i xi => xi * nth i s 0) (x (solverData data))) data
    else data in
  let data :=
    if (info (solverData data) =? 0)%Z
    then set_found_solution (-1) (emit (EvPrintError IMPROPER_INPUT) data)
    else data in
  if discreteCall (simulationInfo data)
  then evaluate_with_discontinuities true data else data.

End Solve.

(** [_omc_hybrd_] invocations recorded in a trace. *)
Definition hybrd_calls (t : list Event) : nat :=
  length (filter (fun e => match e with EvHybrd => true | _ => false end) t).

(** The tolerance can only have been relaxed by the last two third-level
    changes. *)
Definition tol_inv (l : Locals) : Prop :=
  local_tol l <= 1e-12
  \/ ((6 <= retries3 l)%Z /\ local_tol l <= 1e-11)
  \/ ((7 <= retries3 l)%Z /\ local_tol l <= 1e-10).

(** The states of the solving loop of a one-unknown system outside event
    iteration. *)
Definition stall_state (st : DATA unit * Locals) : Prop :=
  n (solverData (fst st)) = 1%nat
  /\ length (resScaling (solverData (fst st))) = 1%nat
  /\ discreteCall (simulationInfo (fst st)) = false
  /\ success (snd st) = false
  /\ tol_inv (snd st).

(** The [printErrorEqSyst] calls recorded in a trace, oldest first. *)
Definition error_reports (t : list Event) : list equationSystemError :=
  flat_map (fun e => match e with EvPrintError k => [k] | _ => [] end) t.

(** The retry counters within their limits. *)
Definition in_budget (c : Z * Z * Z) : Prop :=
  let '(r, r2, r3) := c in
  (0 <= r <= 5)%Z /\ (0 <= r2 <= 3)%Z /\ (0 <= r3 <= 7)%Z.

(** [local_tol] after [r3] third-level changes: [1e-12], multiplied by 10
    by the sixth and by the seventh. *)
Definition tol_after (r3 : Z) : R := 1e-12 * 10 ^ Z.to_nat (r3 - 5).

(** The counters are within their limits and the tolerance is the one the
    third-level counter gives. *)
Definition budget_state (l : Locals) : Prop :=
  in_budget (counters l) /\ local_tol l = tol_after (retries3 l).

(** The number of divisions by 10 that [factor] has gone through since it
    last was [initial_factor]: up to 3 per start, kept across the first
    two restarts. *)
Definition factor_exponent (r r2 : Z) : nat :=
  ((if ((r2 =? 1) || (r2 =? 2))%Z then 3 * Z.to_nat r2 else 0)
   + Z.to_nat (Z.min r 3))%nat.

(** [mode] after [r3] third-level changes, [mode0] being its value on
    entry. *)
Definition mode_after (r3 : Z) (mode0 : Z) : Z :=
  if (r3 <=? 0)%Z then mode0
  else if ((r3 =? 1) || (5 <=? r3))%Z then 2%Z else 1%Z.

(** [success] with a code 1 means that the reclassification has let the
    code stand: not both norms exceed the tolerance. *)
Definition accepted_by_norm {World : Type} (st : DATA World * Locals) : Prop :=
  success (snd st) = true ->
  info (solverData (fst st)) = 1%Z ->
  ~ (xerror (snd st) > local_tol (snd st) /\ xerror_scaled (snd st) > local_tol (snd st)).

(** What a branch does to [mode]. *)
Definition branch_mode (br : Branch) (m : Z) : Z :=
  match br with
  | OwnScaling | NoScaling | ReduceTolerance => 2%Z
  | StartFromScaling | StartFromOnes | StartFromZeros => 1%Z
  | _ => m
  end.

(** What a branch does to [factor], [f0] being [initial_factor]. *)
Definition branch_factor (br : Branch) (f f0 : R) : R :=
  match br with
  | DecreaseFactor => f / 10
  | Solved | VaryPoint | DeactivateXScaling | RestartPlus | RestartMinus
  | NoSolution | NoBranch => f
  | _ => f0
  end.

(** The events a pass adds to the trace after the root-finder call:
    the improper-input report, the evaluation with discontinuities of a
    discrete call (on the iterate [v]), the no-solution report. *)
Definition pass_events (code : Z) (discrete : bool) (v : list R)
           (br : Branch) (init : bool) : list Event :=
  (if (code =? 0)%Z then [EvPrintError IMPROPER_INPUT] else [])
  ++ (if discrete then [EvResidual false v; EvStoreRelations] else [])
  ++ (match br with
      | NoSolution => if init then [] else [EvPrintError ERROR_AT_TIME]
      | _ => []
      end).

(** The failure flag [fs] and the error reports [rep] in a state of the
    loop, [fs0] and [rep0] being their values on entry: untouched while
    the loop runs; once it is left, decided by the result [ok] and the
    last code. *)
Definition failure_account (fs0 : Z) (init : bool) (rep0 : list equationSystemError)
           (running ok : bool) (code fs : Z) (rep : list equationSystemError) : Prop :=
  if running then fs = fs0 /\ rep = rep0
  else if (code =? 0)%Z then fs = (-1)%Z /\ rep = rep0 ++ [IMPROPER_INPUT]
  else if ok then fs = fs0 /\ rep = rep0
  else code <> 1%Z
       /\ (if ((2 <=? code) && (code <=? 5))%Z
           then fs = (-1)%Z /\ rep = rep0 ++ (if init then [] else [ERROR_AT_TIME])
           else fs = fs0 /\ rep = rep0).

(** The flag, the reports and the loop control of a state. *)
Definition account_of (fs0 : Z) (init : bool) (rep0 : list equationSystemError)
           {World : Type}
           (st : DATA World * Locals) : Prop :=
  initial (simulationInfo (fst st)) = init
  /\ failure_account fs0 init rep0 (loop_guard (snd st)) (success (snd st))
       (info (solverData (fst st))) (found_solution (simulationInfo (fst st)))
       (error_reports (trace (fst st))).

(** [storeRelations] calls and direct residual evaluations recorded in a
    trace. *)
Definition store_calls (t : list Event) : nat :=
  length (filter (fun e => match e with EvStoreRelations => true | _ => false end) t).
Definition residual_calls (t : list Event) : nat :=
  length (filter (fun e => match e with EvResidual _ _ => true | _ => false end) t).

(** The whole of [DATA_HYBRD], as [allocateHybrdData] fills it. *)
Record DATA_HYBRD_ALLOC := {
  a_initialized : Z;
  a_resScaling : list R;
  a_useXScaling : bool;
  a_n : nat;
  a_x : list R;
  a_fvec : list R;
  a_xtol : R;
  a_maxfev : Z;
  a_ml : Z;
  a_mu : Z;
  a_epsfcn : R;
  a_diag : list R;
  a_diagres : list R;
  a_mode : Z;
  a_factor : R;
  a_nprint : Z;
  a_info : Z;
  a_nfev : Z;
  a_fjac : list R;
  a_fjacobian : list R;
  a_ldfjac : Z;
  a_r__ : list R;
  a_lr : Z;
  a_qtf : list R;
  a_wa1 : list R;
  a_wa2 : list R;
  a_wa3 : list R;
  a_wa4 : list R
}.

(** C [int] arithmetic: 32 bits, two's complement.  A result outside the
    range wraps around (the C standard leaves signed overflow undefined;
    this is what it does on the platforms the runtime is built for).
    The division is C's, towards zero. *)
Definition INT_MAX : Z := 2147483647.
Definition int_wrap (z : Z) : Z := (z + 2147483648) mod 4294967296 - 2147483648.
Definition int_add (a b : Z) : Z := int_wrap (a + b).
Definition int_sub (a b : Z) : Z := int_wrap (a - b).
Definition int_mul (a b : Z) : Z := int_wrap (a * b).
Definition int_div (a b : Z) : Z := int_wrap (Z.quot a b).

(** [count * sizeof(double)] as the argument of [malloc]: the [int] is
    converted to the 64-bit [size_t] and the product is taken there. *)
Definition size_t_wrap (z : Z) : Z := z mod 18446744073709551616.
Definition double_bytes (count : Z) : Z := size_t_wrap (size_t_wrap count * 8).

Section Allocate.

(** [malloc(bytes)], by call site: a buffer of doubles of indeterminate
    content. *)
Variable malloc : nat -> Z -> list R.

(** [calloc(count, sizeof(double))]. *)
Definition calloc (count : Z) : list R := repeat 0 (Z.to_nat (size_t_wrap count)).

(** [allocateHybrdData(&size, &voiddata)]: the struct left in
    [*voiddata]; [size] is the [int] that [*size] holds. *)
Definition allocateHybrdData (size : Z) : DATA_HYBRD_ALLOC :=
  {| a_initialized := 0;
     a_resScaling := malloc 0 (double_bytes size);
     a_useXScaling := true;
     a_n := Z.to_nat size;
     a_x := malloc 1 (double_bytes size);
     a_fvec := calloc size;
     a_xtol := 1e-12;
     a_maxfev := int_mul size 10000;
     a_ml := int_sub size 1;
     a_mu := int_sub size 1;
     a_epsfcn := 1e-12;
     a_diag := malloc 2 (double_bytes size);
     a_diagres := malloc 3 (double_bytes size);
     a_mode := 1;
     a_factor := 100;
     a_nprint := 0;
     a_info := 0;
     a_nfev := 0;
     a_fjac := malloc 4 (double_bytes (int_mul size size));
     a_fjacobian := malloc 5 (double_bytes (int_mul size size));
     a_ldfjac := size;
     a_r__ := malloc 6 (double_bytes (int_div (int_mul size (int_add size 1)) 2));
     a_lr := int_div (int_mul size (int_add size 1)) 2;
     a_qtf := malloc 7 (double_bytes size);
     a_wa1 := malloc 8 (double_bytes size);
     a_wa2 := malloc 9 (double_bytes size);
     a_wa3 := malloc 10 (double_bytes size);
     a_wa4 := malloc 11 (double_bytes size) |}.

End Allocate.

(** The fields of an allocated struct that [solveHybrd] works on. *)
Definition solver_fields (a : DATA_HYBRD_ALLOC) : DATA_HYBRD :=
  {| n := a_n a; x := a_x a; fvec := a_fvec a; diag := a_diag a;
     mode := a_mode a; factor := a_factor a; info := a_info a; nfev := a_nfev a;
     fjacobian := a_fjacobian a; resScaling := a_resScaling a;
     useXScaling := a_useXScaling a |}.

End Hybrd.

(** ** Concrete systems used to exercise the two solvers *)

Module Scenario.

Import Hybrd.

(** A residual function with no root: the residual is the constant 1 in
    every component, and [x] is left alone. *)
Definition residual_const (d : DATA unit) (v : list R) : list R * list R * unit :=
  (v, map (fun _ => 1) v, tt).

(** The residual [x - 3] of Scenario A, component by component. *)
Definition residual_shift (d : DATA unit) (v : list R) : list R * list R * unit :=
  (v, map (fun xi => xi - 3) v, tt).

Definition store_nothing (d : DATA unit) : unit := tt.

(** A root-finder that never makes progress on a one-unknown system:
    [info = 4], residual 1, Jacobian estimate 1, iterate untouched. *)
Definition hybrd_stalls (d : DATA unit) : HybrdOut unit :=
  {| out_x := x (solverData d); out_fvec := [1]; out_diag := diag (solverData d);
     out_info := 4; out_nfev := 1; out_fjacobian := [1]; out_env := tt |}.

(** A root-finder that finds the root 3 of [x - 3] at once. *)
Definition hybrd_converges (d : DATA unit) : HybrdOut unit :=
  {| out_x := [3]; out_fvec := [0]; out_diag := diag (solverData d);
     out_info := 1; out_nfev := 5; out_fjacobian := [1]; out_env := tt |}.

(** A root-finder that claims convergence ([info = 1]) with residual 1. *)
Definition hybrd_claims (d : DATA unit) : HybrdOut unit :=
  {| out_x := x (solverData d); out_fvec := [1]; out_diag := diag (solverData d);
     out_info := 1; out_nfev := 1; out_fjacobian := [1]; out_env := tt |}.

(** A root-finder that rejects its input ([info = 0]). *)
Definition hybrd_improper (d : DATA unit) : HybrdOut unit :=
  {| out_x := x (solverData d); out_fvec := [1]; out_diag := diag (solverData d);
     out_info := 0; out_nfev := 0; out_fjacobian := [1]; out_env := tt |}.

(** A system with one unknown, as it stands at the start of a step. *)
Definition system1 (discrete : bool) : DATA unit :=
  {| simulationInfo :=
       {| discreteCall := discrete; solveContinuous := false;
          found_solution := 0; initial := false |};
     systemData :=
       {| nlsx := [1]; nlsxOld := [2]; nlsxExtrapolation := [0]; nlsxScaling := [2] |};
     solverData :=
       {| n := 1; x := [7]; fvec := [0]; diag := [1]; mode := 1; factor := 100;
          info := 0; nfev := 0; fjacobian := [0]; resScaling := [0];
          useXScaling := true |};
     env := tt; trace := [] |}.



(** The locals on entry to the solving loop of [system1]. *)
Definition locals1 : Locals :=
  {| success := false; giveUp := false; retries := 0; retries2 := 0; retries3 := 0;
     local_tol := 1e-12; initial_factor := 100; nfunc_evals := 0;
     xerror := 0; xerror_scaled := 0 |}.

(** The locals of a pass that finds the first two retry levels used up. *)
Definition locals_levels_used : Locals :=
  {| success := false; giveUp := false; retries := 5; retries2 := 3; retries3 := 0;
     local_tol := 1e-12; initial_factor := 100; nfunc_evals := 0;
     xerror := 0; xerror_scaled := 0 |}.

(** The singular 2x2 linear system [[1,0],[0,0]] x = [1,0] (column-major). *)
Definition singular2 : Lapack.DATA :=
  {| Lapack.systemData :=
       {| Lapack.size := 2; Lapack.A := [0; 0; 0; 0]; Lapack.b := [0; 0];
          Lapack.x := [5; 5] |};
     Lapack.solverData := {| Lapack.ipiv := [0; 0]%Z; Lapack.nrhs := 1; Lapack.info := 0 |};
     Lapack.warnings := [] |}.
Definition setA_singular2 (sys : Lapack.LINEAR_SYSTEM_DATA) : list R :=
  upd 0 1 (Lapack.A sys).
Definition setb_singular2 (sys : Lapack.LINEAR_SYSTEM_DATA) : list R :=
  upd 0 1 (Lapack.b sys).

(** The same system with the matrix buffer and the status left over from
    an earlier solve. *)
Definition singular2_stale : Lapack.DATA :=
  {| Lapack.systemData :=
       {| Lapack.size := 2; Lapack.A := [9; 8; 7; 6]; Lapack.b := [0; 0];
          Lapack.x := [5; 5] |};
     Lapack.solverData := {| Lapack.ipiv := [0; 0]%Z; Lapack.nrhs := 1; Lapack.info := 3 |};
     Lapack.warnings := [] |}.

(** The regular 1x1 linear system [2 x = 6]. *)
Definition regular1 : Lapack.DATA :=
  {| Lapack.systemData :=
       {| Lapack.size := 1; Lapack.A := [0]; Lapack.b := [0]; Lapack.x := [5] |};
     Lapack.solverData := {| Lapack.ipiv := [0]%Z; Lapack.nrhs := 1; Lapack.info := 0 |};
     Lapack.warnings := [] |}.
Definition setA_regular1 (sys : Lapack.LINEAR_SYSTEM_DATA) : list R :=
  upd 0 2 (Lapack.A sys).
Definition setb_regular1 (sys : Lapack.LINEAR_SYSTEM_DATA) : list R :=
  upd 0 6 (Lapack.b sys).

(** An allocator that hands out zeroed memory. *)
Definition malloc_zero (site : nat) (bytes : Z) : list R := repeat 0 (Z.to_nat (bytes / 8)).

(** A one-unknown system whose solver data has just been allocated. *)
Definition fresh1 : DATA unit :=
  {| simulationInfo :=
       {| discreteCall := false; solveContinuous := false;
          found_solution := 0; initial := false |};
     systemData :=
       {| nlsx := [1]; nlsxOld := [2]; nlsxExtrapolation := [0]; nlsxScaling := [2] |};
     solverData := solver_fields (allocateHybrdData malloc_zero 1);
     env := tt; trace := [] |}.

End Scenario.

(** ** Properties of arrays and counted loops *)

Lemma upd_length {A : Type} (i : nat) (v : A) (a : list A) :
  length (upd i v a) = length a.
Proof.
  revert i; induction a as [|h t IH]; intros [|j]; simpl; auto.
Qed.

Lemma nth_upd_same {A : Type} (i : nat) (v d : A) (a : list A) :
  (i < length a)%nat -> nth i (upd i v a) d = v.
Proof.
  revert i; induction a as [|h t IH]; intros [|j] H; simpl in *; try lia; auto.
  apply IH; lia.
Qed.

Lemma nth_upd_other {A : Type} (i j : nat) (v d : A) (a : list A) :
  i <> j -> nth j (upd i v a) d = nth j a d.
Proof.
  revert i j; induction a as [|h t IH]; intros [|i] [|j] H; simpl; auto; try lia.
Qed.

Lemma nth_upd_outside {A : Type} (i j : nat) (v d : A) (a : list A) :
  (length a <= i)%nat -> nth j (upd i v a) d = nth j a d.
Proof.
  revert i j; induction a as [|h t IH]; intros [|i] [|j] H; simpl in *; auto; try lia.
  apply IH; lia.
Qed.

Lemma for_loop_upd_length (g : nat -> R -> R) (c start : nat) (a : list R) :
  length (for_loop c start (fun i v => upd i (g i (nth i v 0)) v) a) = length a.
Proof.
  revert start a; induction c as [|c IH]; intros start a; simpl; auto.
  rewrite IH. apply upd_length.
Qed.

Lemma vec_for_length (k : nat) (g : nat -> R -> R) (a : list R) :
  length (vec_for k g a) = length a.
Proof. apply for_loop_upd_length. Qed.

(** Entry [j] after the loop: rewritten when the loop passed over it. *)
Lemma nth_for_loop_upd (g : nat -> R -> R) (c start j : nat) (a : list R) :
  nth j (for_loop c start (fun i v => upd i (g i (nth i v 0)) v) a) 0 =
  if ((start <=? j) && (j <? start + c) && (j <? length a))%nat
  then g j (nth j a 0) else nth j a 0.
Proof.
  revert start a; induction c as [|c IH]; intros start a; simpl.
  - replace (j <? start + 0)%nat with (j <? start)%nat by (f_equal; lia).
    destruct (Nat.leb_spec start j), (Nat.ltb_spec j start); simpl; auto; lia.
  - rewrite IH, upd_length.
    destruct (Nat.eq_dec start j) as [->|Hne].
    + replace (S j <=? j)%nat with false by (symmetry; apply Nat.leb_gt; lia).
      rewrite Nat.leb_refl. replace (j <? j + S c)%nat with true by (symmetry; apply Nat.ltb_lt; lia).
      simpl. destruct (Nat.ltb_spec j (length a)).
      * apply nth_upd_same; assumption.
      * apply nth_upd_outside; assumption.
    + rewrite nth_upd_other by assumption.
      replace (S start <=? j)%nat with (start <=? j)%nat.
      2:{ destruct (Nat.leb_spec start j), (Nat.leb_spec (S start) j); auto; lia. }
      replace (j <? S start + c)%nat with (j <? start + S c)%nat by (f_equal; lia).
      reflexivity.
Qed.

Lemma nth_vec_for (k : nat) (g : nat -> R -> R) (a : list R) (j : nat) :
  nth j (vec_for k g a) 0 =
  if ((j <? k) && (j <? length a))%nat then g j (nth j a 0) else nth j a 0.
Proof.
  unfold vec_for, for_n. rewrite nth_for_loop_upd. reflexivity.
Qed.

Lemma nth_vec_for_in (k : nat) (g : nat -> R -> R) (a : list R) (j : nat) :
  (j < k)%nat -> (j < length a)%nat -> nth j (vec_for k g a) 0 = g j (nth j a 0).
Proof.
  intros Hk Ha. rewrite nth_vec_for.
  destruct (Nat.ltb_spec j k), (Nat.ltb_spec j (length a)); simpl; auto; lia.
Qed.

Lemma nth_vec_for_out (k : nat) (g : nat -> R -> R) (a : list R) (j : nat) :
  (k <= j)%nat -> nth j (vec_for k g a) 0 = nth j a 0.
Proof.
  intros Hk. rewrite nth_vec_for.
  destruct (Nat.ltb_spec j k); simpl; [lia|reflexivity].
Qed.

(** Two arrays of the same length with the same entries are equal. *)
Lemma array_ext (a a' : list R) :
  length a = length a' ->
  (forall j, (j < length a)%nat -> nth j a 0 = nth j a' 0) -> a = a'.
Proof. intros Hl Hn. apply (nth_ext a a' 0 0); assumption. Qed.

(** Scaling by [s] and then by [1 / s] gives the array back when the
    scale factors passed over are not zero. *)
Lemma vec_for_rescale (k : nat) (s a : list R) :
  (forall i, (i < k)%nat -> nth i s 0 <> 0) ->
  vec_for k (fun i xi => (1 / nth i s 0) * xi) (vec_for k (fun i xi => xi * nth i s 0) a) = a.
Proof.
  intros Hs. apply array_ext.
  - rewrite !vec_for_length. reflexivity.
  - intros j Hj. rewrite !vec_for_length in Hj.
    rewrite nth_vec_for, vec_for_length, nth_vec_for.
    destruct (Nat.ltb_spec j k); simpl; [|reflexivity].
    destruct (Nat.ltb_spec j (length a)); simpl; [|reflexivity].
    field. apply Hs; assumption.
Qed.

Import Hybrd.

Section WrapperProperties.

Context {World : Type}.
Variable residualFunc : DATA World -> list R -> list R * list R * World.

(** C9. For scale factors that are strictly positive on the first [k]
    entries and a residual callback that does not modify [x],
    [wrapper_fvec_hybrd] hands back the iterate it was given: the
    multiplication by [nlsxScaling[i]] before the callback is undone by
    the multiplication by [1 / nlsxScaling[i]] after it (exactly, in real
    arithmetic). *)
Theorem wrapper_fvec_hybrd_scaling_roundtrip
  (k : nat) (v : list R) (data : DATA World) :
  (forall i, (i < k)%nat -> 0 < nth i (nlsxScaling (systemData data)) 0) ->
  (forall d u, fst (fst (residualFunc d u)) = u) ->
  fst (fst (wrapper_fvec_hybrd residualFunc k v data)) = v.
Proof.
  intros Hpos Hnoop. unfold wrapper_fvec_hybrd.
  destruct (useXScaling (solverData data)) eqn:Hs.
  - match goal with |- context [residualFunc data ?u] =>
      pose proof (Hnoop data u) as Hx;
      destruct (residualFunc data u) as [[v' f] w] end.
    simpl in *. rewrite Hs. subst v'.
    apply vec_for_rescale. intros i Hi. specialize (Hpos i Hi). lra.
  - pose proof (Hnoop data v) as Hx.
    destruct (residualFunc data v) as [[v' f] w].
    simpl in *. rewrite Hs. assumption.
Qed.

End WrapperProperties.

(** C9 at a concrete input: [x = [7]] scaled by 2 around [residual_const]. *)
Lemma wrapper_fvec_hybrd_scaling_roundtrip_witness :
  useXScaling (solverData (Scenario.system1 false)) = true
  /\ fst (fst (wrapper_fvec_hybrd Scenario.residual_const 1 [7] (Scenario.system1 false))) = [7].
Proof.
  split; [reflexivity|].
  apply (wrapper_fvec_hybrd_scaling_roundtrip Scenario.residual_const 1 [7]
           (Scenario.system1 false)).
  - intros [|i] Hi; simpl; [lra|lia].
  - intros d u. reflexivity.
Defined.

(** ** The residual scaling loop *)

Lemma abs_max_from_nonneg (jac : list R) (l c : nat) : 0 <= abs_max_from jac l c.
Proof.
  unfold abs_max_from. destruct (seq 0 c) as [|t ts]; simpl; [lra|].
  eapply Rle_trans; [apply Rabs_pos | apply Rmax_l].
Qed.

Lemma abs_max_from_S (jac : list R) (l c : nat) :
  abs_max_from jac l (S c) = Rmax (Rabs (nth l jac 0)) (abs_max_from jac (S l) c).
Proof.
  unfold abs_max_from. simpl. rewrite Nat.add_0_r. f_equal.
  rewrite <- seq_shift, map_map. f_equal. apply map_ext.
  intros t. do 2 f_equal. lia.
Qed.

(** Block [i] of the buffer is column [i] of the estimate. *)
Lemma column_abs_max_from (k : nat) (jac : list R) (i : nat) :
  column_abs_max k jac i = abs_max_from jac (i * k) k.
Proof.
  unfold column_abs_max, abs_max_from, jacobian_entry. f_equal.
  apply map_ext. intros r. rewrite (Nat.add_comm r). reflexivity.
Qed.

(** The inner loop keeps the running maximum and advances [l]. *)
Lemma row_scale_loop (jac : list R) (c start l : nat) (acc : R) :
  0 <= acc ->
  for_loop c start (row_scale_step jac) (acc, l)
  = (Rmax acc (abs_max_from jac l c), (l + c)%nat).
Proof.
  revert start l acc; induction c as [|c IH]; intros start l acc Hacc; simpl.
  - f_equal; [|lia]. unfold abs_max_from; simpl. rewrite Rmax_left; lra.
  - rewrite IH.
    + rewrite abs_max_from_S. f_equal; [|lia].
      unfold fabs. destruct (Rgt_dec (Rabs (nth l jac 0)) acc) as [Hgt|Hle].
      * rewrite Rmax_assoc. f_equal. rewrite Rmax_right; lra.
      * rewrite Rmax_assoc. f_equal. rewrite Rmax_left; lra.
    + unfold fabs. destruct (Rgt_dec (Rabs (nth l jac 0)) acc); [apply Rabs_pos|lra].
Qed.

(** The outer loop, started at row [start] with [l = start * k]. *)
Lemma scale_residual_loop (k : nat) (jac fv : list R) (c start : nat) (rs : list R) :
  let r :=
    for_loop c start
      (fun i (st : list R * nat) =>
         let '(rs, l) := st in
         let '(m, l) := for_n k (row_scale_step jac) (1e-16, l) in
         (upd i (nth i fv 0 * (1 / m)) rs, l))
      (rs, (start * k)%nat) in
  length (fst r) = length rs
  /\ forall j,
      nth j (fst r) 0 =
      if ((start <=? j) && (j <? start + c) && (j <? length rs))%nat
      then spec_residualScale k jac fv j else nth j rs 0.
Proof.
  revert start rs; induction c as [|c IH]; intros start rs; cbn [for_loop].
  - split; [reflexivity|]. intros j. cbn [fst].
    replace (j <? start + 0)%nat with (j <? start)%nat by (f_equal; lia).
    destruct (Nat.leb_spec start j), (Nat.ltb_spec j start); simpl; auto; lia.
  - unfold for_n in *. rewrite row_scale_loop by lra.
    replace (start * k + k)%nat with (S start * k)%nat by lia.
    destruct (IH (S start) (upd start (nth start fv 0 * (1 / Rmax 1e-16 (abs_max_from jac (start * k) k))) rs))
      as [Hlen Hnth].
    split; [rewrite Hlen; apply upd_length|].
    intros j. rewrite Hnth, upd_length.
    destruct (Nat.eq_dec start j) as [->|Hne].
    + replace (S j <=? j)%nat with false by (symmetry; apply Nat.leb_gt; lia).
      rewrite Nat.leb_refl.
      replace (j <? j + S c)%nat with true by (symmetry; apply Nat.ltb_lt; lia).
      simpl. destruct (Nat.ltb_spec j (length rs)).
      * rewrite nth_upd_same by assumption.
        unfold spec_residualScale. rewrite column_abs_max_from.
        unfold Rdiv. rewrite Rmult_1_l. reflexivity.
      * apply nth_upd_outside; assumption.
    + rewrite nth_upd_other by assumption.
      replace (S start <=? j)%nat with (start <=? j)%nat.
      2:{ destruct (Nat.leb_spec start j), (Nat.leb_spec (S start) j); auto; lia. }
      replace (j <? S start + c)%nat with (j <? start + S c)%nat by (f_equal; lia).
      reflexivity.
Qed.

Lemma scale_residual_length (k : nat) (jac fv rs : list R) :
  length (scale_residual k jac fv rs) = length rs.
Proof.
  unfold scale_residual, for_n.
  apply (scale_residual_loop k jac fv k 0 rs).
Qed.

Lemma nth_scale_residual (k : nat) (jac fv rs : list R) (i : nat) :
  (i < k)%nat -> (i < length rs)%nat ->
  nth i (scale_residual k jac fv rs) 0 = spec_residualScale k jac fv i.
Proof.
  intros Hk Hl. unfold scale_residual, for_n.
  destruct (scale_residual_loop k jac fv k 0 rs) as [_ Hnth].
  simpl in Hnth. rewrite Hnth.
  destruct (Nat.ltb_spec i k), (Nat.ltb_spec i (length rs)); simpl; auto; lia.
Qed.

(** ** Frame properties of the parts of [solveHybrd] *)

Lemma hybrd_calls_app (t t' : list Event) :
  hybrd_calls (t ++ t') = (hybrd_calls t + hybrd_calls t')%nat.
Proof. unfold hybrd_calls. rewrite filter_app, length_app. reflexivity. Qed.

Section FrameProperties.

Context {World : Type}.
Variable residualFunc : DATA World -> list R -> list R * list R * World.
Variable _omc_hybrd_ : DATA World -> HybrdOut World.
Variable storeRelations : DATA World -> World.

Local Abbreviation evaluate_with_discontinuities :=
  (evaluate_with_discontinuities residualFunc storeRelations).
Local Abbreviation solve_phase := (solve_phase residualFunc _omc_hybrd_ storeRelations).

(** "evaluate with discontinuities" is one residual evaluation on the
    unscaled [x]; it writes [x] and [fvec] only and puts [useXScaling]
    back. *)
Lemma evaluate_with_discontinuities_frame (store : bool) (data : DATA World) :
  let d := evaluate_with_discontinuities store data in
  simulationInfo d = simulationInfo data
  /\ systemData d = systemData data
  /\ same_settings (solverData data) (solverData d)
  /\ diag (solverData d) = diag (solverData data)
  /\ info (solverData d) = info (solverData data)
  /\ nfev (solverData d) = nfev (solverData data)
  /\ fjacobian (solverData d) = fjacobian (solverData data)
  /\ trace d = trace data ++ EvResidual false (x (solverData data))
                          :: (if store then [EvStoreRelations] else []).
Proof.
  unfold Hybrd.evaluate_with_discontinuities, wrapper_fvec_hybrd, same_settings.
  destruct (useXScaling (solverData data)) eqn:Hs; simpl; rewrite ?Hs;
    match goal with |- context [residualFunc ?d ?u] =>
      destruct (residualFunc d u) as [[v' f] w] end;
    destruct store; simpl; rewrite ?Hs, <- ?app_assoc; simpl;
    repeat split; reflexivity.
Qed.

(** The first part of a pass calls the root-finder exactly once and
    leaves the system data, the flags it reads and the settings alone. *)
Lemma solve_phase_frame (data : DATA World) :
  let d := solve_phase data in
  systemData d = systemData data
  /\ discreteCall (simulationInfo d) = discreteCall (simulationInfo data)
  /\ initial (simulationInfo d) = initial (simulationInfo data)
  /\ same_settings (solverData data) (solverData d)
  /\ hybrd_calls (trace d) = S (hybrd_calls (trace data))
  /\ (info (solverData d) = 0%Z -> found_solution (simulationInfo d) = (-1)%Z).
Proof.
  unfold Hybrd.solve_phase.
  set (d1 := if useXScaling (solverData data) then _ else data).
  assert (H1 : systemData d1 = systemData data
               /\ simulationInfo d1 = simulationInfo data
               /\ same_settings (solverData data) (solverData d1)
               /\ info (solverData d1) = info (solverData data)
               /\ trace d1 = trace data).
  { subst d1; unfold same_settings;
      destruct (useXScaling (solverData data)) eqn:E; simpl; rewrite ?E;
      repeat split; reflexivity. }
  clearbody d1. destruct H1 as (Hs1 & Hi1 & (Hn1 & Hm1 & Hf1 & Hr1 & Hu1) & Hin1 & Ht1).
  set (d2 := if negb _ then _ else d1).
  assert (H2 : systemData d2 = systemData data
               /\ discreteCall (simulationInfo d2) = discreteCall (simulationInfo data)
               /\ initial (simulationInfo d2) = initial (simulationInfo data)
               /\ found_solution (simulationInfo d2) = found_solution (simulationInfo data)
               /\ same_settings (solverData data) (solverData d2)
               /\ trace d2 = trace data).
  { subst d2; unfold same_settings;
      destruct (negb _); simpl; rewrite ?Hs1, ?Hi1, ?Hn1, ?Hm1, ?Hf1, ?Hr1, ?Hu1, ?Ht1;
      repeat split; reflexivity. }
  clearbody d2. clear d1 Hs1 Hi1 Hn1 Hm1 Hf1 Hr1 Hu1 Hin1 Ht1.
  destruct H2 as (Hs2 & Hd2 & Hi2 & Hfs2 & (Hn2 & Hm2 & Hf2 & Hr2 & Hu2) & Ht2).
  set (d3 := set_solveContinuous false (call_hybrd _omc_hybrd_ d2)).
  assert (H3 : systemData d3 = systemData data
               /\ discreteCall (simulationInfo d3) = discreteCall (simulationInfo data)
               /\ initial (simulationInfo d3) = initial (simulationInfo data)
               /\ same_settings (solverData data) (solverData d3)
               /\ trace d3 = trace data ++ [EvHybrd]).
  { subst d3; unfold same_settings; simpl.
    rewrite ?Hs2, ?Hd2, ?Hi2, ?Hn2, ?Hm2, ?Hf2, ?Hr2, ?Hu2, ?Ht2.
    repeat split; reflexivity. }
  clearbody d3. clear d2 Hs2 Hd2 Hi2 Hfs2 Hn2 Hm2 Hf2 Hr2 Hu2 Ht2.
  destruct H3 as (Hs3 & Hd3 & Hi3 & (Hn3 & Hm3 & Hf3 & Hr3 & Hu3) & Ht3).
  set (d4 := if useXScaling (solverData d3) then _ else d3).
  assert (H4 : systemData d4 = systemData data
               /\ simulationInfo d4 = simulationInfo d3
               /\ same_settings (solverData data) (solverData d4)
               /\ info (solverData d4) = info (solverData d3)
               /\ trace d4 = trace data ++ [EvHybrd]).
  { subst d4; unfold same_settings;
      destruct (useXScaling (solverData d3)) eqn:E; simpl;
      rewrite ?Hs3, ?Hn3, ?Hm3, ?Hf3, ?Hr3, ?Ht3, ?E; repeat split; congruence. }
  clearbody d4. destruct H4 as (Hs4 & Hsi4 & (Hn4 & Hm4 & Hf4 & Hr4 & Hu4) & Hin4 & Ht4).
  set (d5 := if (info (solverData d4) =? 0)%Z then _ else d4).
  assert (H5 : systemData d5 = systemData data
               /\ discreteCall (simulationInfo d5) = discreteCall (simulationInfo data)
               /\ initial (simulationInfo d5) = initial (simulationInfo data)
               /\ same_settings (solverData data) (solverData d5)
               /\ hybrd_calls (trace d5) = S (hybrd_calls (trace data))
               /\ (info (solverData d5) = 0%Z -> found_solution (simulationInfo d5) = (-1)%Z)).
  { subst d5; unfold same_settings;
      destruct (Z.eqb_spec (info (solverData d4)) 0) as [E|E]; simpl;
      rewrite ?Hs4, ?Hsi4, ?Hd3, ?Hi3, ?Hn4, ?Hm4, ?Hf4, ?Hr4, ?Hu4, ?Ht4,
        ?hybrd_calls_app; simpl; repeat split; try reflexivity; try lia;
      unfold hybrd_calls; simpl; lia. }
  clearbody d5. clear d4 Hs4 Hsi4 Hn4 Hm4 Hf4 Hr4 Hu4 Hin4 Ht4 d3 Hs3 Hd3 Hi3 Hn3 Hm3 Hf3 Hr3 Hu3 Ht3.
  destruct H5 as (Hs5 & Hd5 & Hi5 & (Hn5 & Hm5 & Hf5 & Hr5 & Hu5) & Ht5 & Hfs5).
  case_eq (discreteCall (simulationInfo d5)); intros Hdc.
  - destruct (evaluate_with_discontinuities_frame true d5)
      as (Ei & Es & (En & Em & Ef & Er & Eu) & _ & Einfo & _ & _ & Et).
    cbv zeta in *. unfold same_settings.
    rewrite Es, Ei, En, Em, Ef, Er, Eu, Et, Einfo, hybrd_calls_app.
    simpl. repeat split; try congruence; try lia.
    unfold hybrd_calls at 2; simpl; lia.
  - unfold same_settings. repeat split; try assumption; congruence.
Qed.

(** Outside event iteration the residual, the Jacobian estimate and the
    code in hand after the first part of a pass are those the root-finder
    returned. *)
Lemma solve_phase_outputs (data : DATA World) :
  discreteCall (simulationInfo data) = false ->
  exists d,
    info (solverData (solve_phase data)) = out_info (_omc_hybrd_ d)
    /\ fvec (solverData (solve_phase data)) = out_fvec (_omc_hybrd_ d)
    /\ fjacobian (solverData (solve_phase data)) = out_fjacobian (_omc_hybrd_ d).
Proof.
  intros Hd. unfold Hybrd.solve_phase, call_hybrd.
  destruct (useXScaling (solverData data)) eqn:Hu;
    destruct (negb _);
    match goal with |- context [_omc_hybrd_ ?d] => exists d end;
    simpl; rewrite ?Hu, ?Hd; simpl;
    destruct (out_info _ =? 0)%Z; simpl; rewrite ?Hd; repeat split; reflexivity.
Qed.

End FrameProperties.

(** ** The retry branches *)

Lemma rank_counters (l : Locals) : rank l = rank_of (counters l).
Proof. reflexivity. Qed.

Ltac branch_cases :=
  repeat (cbn [andb orb negb is_retry branch_counters];
          match goal with
          | |- context [(?a <? ?b)%Z] => destruct (Z.ltb_spec a b)
          | |- context [(?a >=? ?b)%Z] => destruct (Z.geb_spec a b)
          | |- context [(?a <=? ?b)%Z] => destruct (Z.leb_spec a b)
          end);
  cbn [andb orb negb is_retry branch_counters].

(** A retry branch uses up exactly one unit of rank. *)
Lemma select_branch_rank (found : bool) (info r r2 r3 : Z) :
  let br := select_branch found info r r2 r3 in
  is_retry br = true -> S (rank_of (branch_counters br (r, r2, r3))) = rank_of (r, r2, r3).
Proof.
  unfold select_branch. destruct found; [simpl; discriminate|].
  destruct (no_progress info); branch_cases; intros; try discriminate;
    unfold rank_of; lia.
Qed.

(** With no progress and no convergence, a retry branch is taken as long
    as the rank is positive, and the loop gives up when it is zero. *)
Lemma select_branch_no_progress (info r r2 r3 : Z) :
  no_progress info = true ->
  let br := select_branch false info r r2 r3 in
  (rank_of (r, r2, r3) <> O -> is_retry br = true)
  /\ (rank_of (r, r2, r3) = O -> br = NoSolution).
Proof.
  intros Hnp. unfold select_branch, no_progress in *. rewrite Hnp.
  assert (Hi : (info = 4 \/ info = 5)%Z) by lia.
  branch_cases; unfold rank_of; split; intros; try reflexivity; try lia.
Qed.

(** The third branch of the chain can never be reached: its condition
    [retries < 4] implies the condition [retries < 5] of the branch before. *)
Lemma select_branch_never_deactivates (found : bool) (info r r2 r3 : Z) :
  select_branch found info r r2 r3 <> DeactivateXScaling.
Proof.
  unfold select_branch. destruct found; [discriminate|].
  destruct (no_progress info); branch_cases; try discriminate; lia.
Qed.

Section BranchProperties.

Context {World : Type}.

(** What a branch leaves alone. *)
Lemma run_branch_frame (br : Branch) (data : DATA World) (l : Locals) :
  let r := run_branch br data l in
  systemData (fst r) = systemData data
  /\ discreteCall (simulationInfo (fst r)) = discreteCall (simulationInfo data)
  /\ n (solverData (fst r)) = n (solverData data)
  /\ fvec (solverData (fst r)) = fvec (solverData data)
  /\ fjacobian (solverData (fst r)) = fjacobian (solverData data)
  /\ resScaling (solverData (fst r)) = resScaling (solverData data)
  /\ info (solverData (fst r)) = info (solverData data)
  /\ hybrd_calls (trace (fst r)) = hybrd_calls (trace data)
  /\ xerror (snd r) = xerror l
  /\ xerror_scaled (snd r) = xerror_scaled l
  /\ initial_factor (snd r) = initial_factor l.
Proof.
  destruct br; simpl; try (repeat split; reflexivity).
  destruct (initial (simulationInfo data)); simpl;
    rewrite ?hybrd_calls_app; simpl; repeat split; try reflexivity.
  unfold hybrd_calls; simpl; lia.
Qed.

(** What a branch does to the loop control. *)
Lemma run_branch_control (br : Branch) (data : DATA World) (l : Locals) :
  let r := run_branch br data l in
  success (snd r) = (match br with Solved => true | _ => success l end)
  /\ giveUp (snd r) = (if is_retry br then false else giveUp l)
  /\ counters (snd r) = branch_counters br (counters l)
  /\ local_tol (snd r)
     = (match br with ReduceTolerance => local_tol l * 10 | _ => local_tol l end).
Proof. destruct br; simpl; repeat split; reflexivity. Qed.

(** Only the branches "solution found" and the no-solution branch write
    [found_solution], and no branch clears [useXScaling] but the
    unreachable one. *)
Lemma run_branch_found_solution (br : Branch) (data : DATA World) (l : Locals) :
  br <> NoSolution ->
  found_solution (simulationInfo (fst (run_branch br data l)))
  = found_solution (simulationInfo data).
Proof. destruct br; simpl; intros H; try reflexivity. contradiction. Qed.

End BranchProperties.

(** ** One pass of the solving loop *)

Lemma Rleb_true (a b : R) : Rleb a b = true <-> a <= b.
Proof. unfold Rleb. destruct (Rle_dec a b); split; auto; discriminate. Qed.

Lemma Rgtb_true (a b : R) : Rgtb a b = true <-> a > b.
Proof. unfold Rgtb. destruct (Rgt_dec a b); split; auto; discriminate. Qed.

Section PassProperties.

Context {World : Type}.
Variable residualFunc : DATA World -> list R -> list R * list R * World.
Variable _omc_hybrd_ : DATA World -> HybrdOut World.
Variable storeRelations : DATA World -> World.

Local Abbreviation solve_phase := (solve_phase residualFunc _omc_hybrd_ storeRelations).
Local Abbreviation loop_body := (loop_body residualFunc _omc_hybrd_ storeRelations).
Local Abbreviation classified := (classified residualFunc _omc_hybrd_ storeRelations).
Local Abbreviation branch_taken := (branch_taken residualFunc _omc_hybrd_ storeRelations).

Lemma classify_phase_spec (data : DATA World) (l : Locals) :
  let st1 := classify_phase (data, l) in
  let k := n (solverData data) in
  systemData (fst st1) = systemData data
  /\ simulationInfo (fst st1) = simulationInfo data
  /\ trace (fst st1) = trace data
  /\ n (solverData (fst st1)) = k
  /\ fvec (solverData (fst st1)) = fvec (solverData data)
  /\ fjacobian (solverData (fst st1)) = fjacobian (solverData data)
  /\ useXScaling (solverData (fst st1)) = useXScaling (solverData data)
  /\ resScaling (solverData (fst st1))
     = scale_residual k (fjacobian (solverData data)) (fvec (solverData data))
         (resScaling (solverData data))
  /\ xerror (snd st1) = enorm_ k (fvec (solverData data))
  /\ xerror_scaled (snd st1) = enorm_ k (resScaling (solverData (fst st1)))
  /\ info (solverData (fst st1))
     = (if (info (solverData data) =? 1)%Z
           && (Rgtb (xerror (snd st1)) (local_tol l)
               && Rgtb (xerror_scaled (snd st1)) (local_tol l))
        then 4%Z else info (solverData data))
  /\ success (snd st1) = success l /\ giveUp (snd st1) = giveUp l
  /\ counters (snd st1) = counters l /\ local_tol (snd st1) = local_tol l
  /\ initial_factor (snd st1) = initial_factor l.
Proof.
  unfold classify_phase; cbn zeta.
  match goal with |- context [if ?c then set_info _ _ else _] => destruct c eqn:Hc end;
    cbn [fst snd]; simpl; simpl in Hc; rewrite ?Hc; repeat split; reflexivity.
Qed.

Lemma loop_body_unfold (st : DATA World * Locals) :
  loop_body st = run_branch (branch_taken st) (fst (classified st)) (snd (classified st)).
Proof.
  unfold Hybrd.loop_body, Hybrd.branch_taken, Hybrd.classified. reflexivity.
Qed.

(** The loop control after a pass. *)
Lemma loop_body_control (st : DATA World * Locals) :
  let st' := loop_body st in
  success (snd st') = (match branch_taken st with Solved => true | _ => success (snd st) end)
  /\ giveUp (snd st') = negb (is_retry (branch_taken st))
  /\ counters (snd st') = branch_counters (branch_taken st) (counters (snd st))
  /\ local_tol (snd st')
     = (match branch_taken st with
        | ReduceTolerance => local_tol (snd st) * 10
        | _ => local_tol (snd st) end).
Proof.
  cbv zeta. rewrite loop_body_unfold.
  destruct (run_branch_control (branch_taken st) (fst (classified st)) (snd (classified st)))
    as (Hs & Hg & Hc & Ht).
  destruct (classify_phase_spec (solve_phase (fst st)) (set_giveUp (snd st)))
    as (_ & _ & _ & _ & _ & _ & _ & _ & _ & _ & _ & Es & Eg & Ec & Et & _).
  fold (classified st) in Es, Eg, Ec, Et.
  rewrite Hs, Hg, Hc, Ht, Es, Eg, Ec, Et.
  unfold set_giveUp, counters;
    cbn [success giveUp retries retries2 retries3 local_tol fst snd].
  generalize (branch_taken st); intros br.
  repeat split.
Qed.

(** The data after a pass, as far as the classification goes. *)
Lemma loop_body_data (st : DATA World * Locals) :
  let st' := loop_body st in
  let d1 := solve_phase (fst st) in
  let k := n (solverData (fst st)) in
  systemData (fst st') = systemData (fst st)
  /\ discreteCall (simulationInfo (fst st')) = discreteCall (simulationInfo (fst st))
  /\ n (solverData (fst st')) = k
  /\ fvec (solverData (fst st')) = fvec (solverData d1)
  /\ fjacobian (solverData (fst st')) = fjacobian (solverData d1)
  /\ resScaling (solverData (fst st'))
     = scale_residual k (fjacobian (solverData d1)) (fvec (solverData d1))
         (resScaling (solverData (fst st)))
  /\ xerror (snd st') = enorm_ k (fvec (solverData (fst st')))
  /\ xerror_scaled (snd st') = enorm_ k (resScaling (solverData (fst st')))
  /\ info (solverData (fst st')) = info (solverData (fst (classified st)))
  /\ xerror (snd st') = xerror (snd (classified st))
  /\ xerror_scaled (snd st') = xerror_scaled (snd (classified st))
  /\ hybrd_calls (trace (fst st')) = S (hybrd_calls (trace (fst st)))
  /\ initial_factor (snd st') = initial_factor (snd st).
Proof.
  cbv zeta. rewrite loop_body_unfold.
  destruct (run_branch_frame (branch_taken st) (fst (classified st)) (snd (classified st)))
    as (Rs & Rd & Rn & Rf & Rj & Rr & Ri & Rh & Rx & Rxs & Rif).
  destruct (classify_phase_spec (solve_phase (fst st)) (set_giveUp (snd st)))
    as (Cs & Csi & Ct & Cn & Cf & Cj & _ & Cr & Cx & Cxs & _ & _ & _ & _ & _ & Cif).
  fold (classified st) in Cs, Csi, Ct, Cn, Cf, Cj, Cr, Cx, Cxs, Cif.
  destruct (solve_phase_frame residualFunc _omc_hybrd_ storeRelations (fst st))
    as (Ss & Sd & _ & (Sn & _ & _ & Sr & _) & Sh & _).
  cbv zeta in *.
  rewrite Rs, Rd, Rn, Rf, Rj, Rr, Ri, Rh, Rx, Rxs, Rif.
  rewrite Cs, Csi, Ct, Cn, Cf, Cj, Cr, Cx, Cxs, Cif.
  rewrite ?Cr, ?Cf, ?Cj, ?Cn, Ss, Sd, Sn, Sh, Sr.
  unfold set_giveUp; cbn [initial_factor fst snd].
  repeat split; reflexivity.
Qed.

(** [useXScaling] after a pass. *)
Lemma loop_body_useXScaling (st : DATA World * Locals) :
  useXScaling (solverData (fst (loop_body st)))
  = branch_useXScaling (branch_taken st) (useXScaling (solverData (fst st))).
Proof.
  rewrite loop_body_unfold.
  destruct (classify_phase_spec (solve_phase (fst st)) (set_giveUp (snd st)))
    as (_ & _ & _ & _ & _ & _ & Cu & _).
  fold (classified st) in Cu.
  destruct (solve_phase_frame residualFunc _omc_hybrd_ storeRelations (fst st))
    as (_ & _ & _ & (_ & _ & _ & _ & Su) & _).
  cbv zeta in *. rewrite <- Su, <- Cu.
  generalize (branch_taken st) (fst (classified st)) (snd (classified st)).
  intros br d l. destruct br; try reflexivity.
  simpl. destruct (negb (initial (simulationInfo d))); reflexivity.
Qed.

End PassProperties.

(** ** Classification of a pass *)

Section ClassificationProperties.

Context {World : Type}.
Variable residualFunc : DATA World -> list R -> list R * list R * World.
Variable _omc_hybrd_ : DATA World -> HybrdOut World.
Variable storeRelations : DATA World -> World.

Local Abbreviation solve_phase := (solve_phase residualFunc _omc_hybrd_ storeRelations).
Local Abbreviation loop_body := (loop_body residualFunc _omc_hybrd_ storeRelations).
Local Abbreviation classified := (classified residualFunc _omc_hybrd_ storeRelations).
Local Abbreviation branch_taken := (branch_taken residualFunc _omc_hybrd_ storeRelations).


(** C6. In a pass of the solving loop, the code [info] left by the
    root-finder is replaced by 4 exactly when it was 1 and both
    [xerror] and [xerror_scaled] exceed [local_tol]; a code 1 with one of
    the norms within [local_tol] stays 1, and any other code is left as
    it is. *)
Theorem loop_body_reclassifies (st : DATA World * Locals) :
  let returned := info (solverData (solve_phase (fst st))) in
  let st' := loop_body st in
  let tol := local_tol (snd st) in
  let both_exceed := xerror (snd st') > tol /\ xerror_scaled (snd st') > tol in
  (returned = 1%Z /\ both_exceed -> info (solverData (fst st')) = 4%Z)
  /\ (returned = 1%Z /\ ~ both_exceed -> info (solverData (fst st')) = 1%Z)
  /\ (returned <> 1%Z -> info (solverData (fst st')) = returned)
  /\ (info (solverData (fst st')) <> returned <-> returned = 1%Z /\ both_exceed).
Proof.
  destruct (loop_body_data residualFunc _omc_hybrd_ storeRelations st)
    as (_ & _ & _ & _ & _ & _ & _ & _ & Hi & Hx & Hxs & _).
  destruct (classify_phase_spec (solve_phase (fst st)) (set_giveUp (snd st)))
    as (_ & _ & _ & _ & _ & _ & _ & _ & _ & _ & Hc & _).
  fold (classified st) in Hc.
  cbv zeta in *. rewrite Hi, Hx, Hxs, Hc.
  change (local_tol (set_giveUp (snd st))) with (local_tol (snd st)).
  generalize (xerror (snd (classified st))) (xerror_scaled (snd (classified st)))
    (local_tol (snd st)) (info (solverData (solve_phase (fst st)))).
  intros xe xs tol i.
  destruct (Z.eqb_spec i 1) as [->|Hne]; simpl.
  - destruct (Rgtb xe tol) eqn:E1; [apply Rgtb_true in E1|];
      (destruct (Rgtb xs tol) eqn:E2; [apply Rgtb_true in E2|]); simpl;
      repeat split; intros; try tauto; try lia;
      try (exfalso;
           match goal with H : _ /\ _ |- _ => destruct H as (_ & (Ha & Hb)) end;
           first [apply Rgtb_true in Ha; congruence | apply Rgtb_true in Hb; congruence]).
  - repeat split; intros; try tauto; try lia.
Qed.

End ClassificationProperties.

(** ** The solving loop *)

Lemma select_branch_solved (found : bool) (info r r2 r3 : Z) :
  select_branch found info r r2 r3 = Solved <-> found = true.
Proof.
  unfold select_branch. destruct found; [tauto|].
  destruct (no_progress info); branch_cases; split; discriminate.
Qed.

Section LoopProperties.

Context {World : Type}.
Variable residualFunc : DATA World -> list R -> list R * list R * World.
Variable _omc_hybrd_ : DATA World -> HybrdOut World.
Variable storeRelations : DATA World -> World.

Local Abbreviation solve_phase := (solve_phase residualFunc _omc_hybrd_ storeRelations).
Local Abbreviation loop_body := (loop_body residualFunc _omc_hybrd_ storeRelations).
Local Abbreviation classified := (classified residualFunc _omc_hybrd_ storeRelations).
Local Abbreviation branch_taken := (branch_taken residualFunc _omc_hybrd_ storeRelations).
Local Abbreviation solving_loop := (solving_loop residualFunc _omc_hybrd_ storeRelations).
Local Abbreviation prologue := (prologue residualFunc storeRelations).
Local Abbreviation solveHybrd_loop :=
  (solveHybrd_loop residualFunc _omc_hybrd_ storeRelations).
Local Abbreviation solveHybrd := (solveHybrd residualFunc _omc_hybrd_ storeRelations).

(** A property that every pass entered under the loop condition keeps
    holds when the loop is left. *)
Lemma solving_loop_invariant (P : DATA World * Locals -> Prop) :
  (forall st, P st -> loop_guard (snd st) = true -> P (loop_body st)) ->
  forall fuel st, P st -> P (solving_loop fuel st).
Proof.
  intros Hstep. induction fuel as [|fuel IH]; intros st HP; cbn [Hybrd.solving_loop].
  - assumption.
  - destruct (loop_guard (snd st)) eqn:Hg; [|assumption].
    apply IH. apply Hstep; assumption.
Qed.

Lemma branch_taken_unfold (st : DATA World * Locals) :
  branch_taken st
  = select_branch (solution_found (classified st))
      (info (solverData (fst (classified st))))
      (retries (snd st)) (retries2 (snd st)) (retries3 (snd st)).
Proof. reflexivity. Qed.

(** A pass that asks for another pass has used up one unit of rank. *)
Lemma loop_body_rank (st : DATA World * Locals) :
  loop_guard (snd (loop_body st)) = true ->
  S (rank (snd (loop_body st))) = rank (snd st).
Proof.
  destruct (loop_body_control residualFunc _omc_hybrd_ storeRelations st)
    as (_ & Hg & Hc & _).
  cbv zeta in *. unfold loop_guard. rewrite Hg, !rank_counters, Hc.
  intros H. apply andb_prop in H. destruct H as [H _].
  rewrite negb_involutive in H.
  unfold counters.
  pose proof (select_branch_rank (solution_found (classified st))
                (info (solverData (fst (classified st))))
                (retries (snd st)) (retries2 (snd st)) (retries3 (snd st))) as Hr.
  cbv zeta in Hr. rewrite <- branch_taken_unfold in Hr.
  apply Hr. exact H.
Qed.

Lemma solving_loop_S (fuel : nat) (st : DATA World * Locals) :
  solving_loop (S fuel) st
  = if loop_guard (snd st) then solving_loop fuel (loop_body st) else st.
Proof. reflexivity. Qed.

(** The loop does nothing once its condition fails. *)
Lemma solving_loop_stop (fuel : nat) (st : DATA World * Locals) :
  loop_guard (snd st) = false -> solving_loop fuel st = st.
Proof. intros Hg. destruct fuel; cbn [Hybrd.solving_loop]; rewrite ?Hg; reflexivity. Qed.

(** With more fuel than rank the loop is left through its condition. *)
Lemma solving_loop_exits (fuel : nat) (st : DATA World * Locals) :
  (rank (snd st) < fuel)%nat -> loop_guard (snd (solving_loop fuel st)) = false.
Proof.
  revert st. induction fuel as [|fuel IH]; intros st Hr; [lia|].
  cbn [Hybrd.solving_loop].
  destruct (loop_guard (snd st)) eqn:Hg; [|assumption].
  destruct (loop_guard (snd (loop_body st))) eqn:Hg'.
  - apply IH. pose proof (loop_body_rank st Hg'). lia.
  - rewrite solving_loop_stop; assumption.
Qed.

(** Fuel beyond the rank is never used. *)
Lemma solving_loop_fuel (fuel fuel' : nat) (st : DATA World * Locals) :
  (rank (snd st) < fuel)%nat -> (rank (snd st) < fuel')%nat ->
  solving_loop fuel st = solving_loop fuel' st.
Proof.
  revert fuel' st. induction fuel as [|fuel IH]; intros fuel' st Hr Hr'; [lia|].
  destruct fuel' as [|fuel']; [lia|]. cbn [Hybrd.solving_loop].
  destruct (loop_guard (snd st)) eqn:Hg; [|reflexivity].
  destruct (loop_guard (snd (loop_body st))) eqn:Hg'.
  - pose proof (loop_body_rank st Hg'). apply IH; lia.
  - rewrite !solving_loop_stop by assumption. reflexivity.
Qed.

(** The number of root-finder calls made by the loop. *)
Lemma solving_loop_calls (fuel : nat) (st : DATA World * Locals) :
  let calls := hybrd_calls (trace (fst (solving_loop fuel st))) in
  (calls <= hybrd_calls (trace (fst st)) + S (rank (snd st)))%nat
  /\ (loop_guard (snd st) = true -> (0 < fuel)%nat ->
      (hybrd_calls (trace (fst st)) < calls)%nat).
Proof.
  revert st. induction fuel as [|fuel IH]; intros st; cbn [Hybrd.solving_loop].
  - cbv zeta. split; [lia|]. intros _ H; lia.
  - cbv zeta. destruct (loop_guard (snd st)) eqn:Hg.
    + destruct (loop_body_data residualFunc _omc_hybrd_ storeRelations st)
        as (_ & _ & _ & _ & _ & _ & _ & _ & _ & _ & _ & Hh & _).
      cbv zeta in Hh.
      destruct (IH (loop_body st)) as [Hle Hlt]. cbv zeta in Hle, Hlt.
      rewrite Hh in Hle, Hlt.
      split.
      * destruct (loop_guard (snd (loop_body st))) eqn:Hg'.
        -- pose proof (loop_body_rank st Hg'). lia.
        -- rewrite solving_loop_stop by assumption. rewrite Hh. lia.
      * intros _ _.
        destruct (loop_guard (snd (loop_body st))) eqn:Hg'.
        -- destruct fuel.
           ++ cbn [Hybrd.solving_loop]. rewrite Hh. lia.
           ++ specialize (Hlt eq_refl). lia.
        -- rewrite solving_loop_stop by assumption. rewrite Hh. lia.
    + split; [lia|]. discriminate.
Qed.

(** The state on entry to the loop. *)
Lemma prologue_spec (data : DATA World) :
  let st := prologue data in
  let seed :=
    memcpy (x (solverData data))
      (if discreteCall (simulationInfo data)
       then nlsx (systemData data) else nlsxExtrapolation (systemData data))
      (n (solverData data)) in
  systemData (fst st) = systemData data
  /\ simulationInfo (fst st) = simulationInfo data
  /\ same_settings (solverData data) (solverData (fst st))
  /\ trace (fst st) = trace data ++ [EvResidual false seed]
  /\ counters (snd st) = (0, 0, 0)%Z
  /\ loop_guard (snd st) = true
  /\ local_tol (snd st) = 1e-12
  /\ initial_factor (snd st) = factor (solverData data).
Proof.
  unfold Hybrd.prologue. cbv zeta. cbn [fst snd].
  match goal with |- context [Hybrd.evaluate_with_discontinuities _ _ false ?d] =>
    destruct (evaluate_with_discontinuities_frame residualFunc storeRelations false d)
      as (Ei & Es & (En & Em & Ef & Er & Eu) & _ & _ & _ & _ & Et) end.
  cbv zeta in *. unfold same_settings.
  rewrite Ei, Es, En, Em, Ef, Er, Eu, Et.
  destruct (discreteCall (simulationInfo data)); simpl; repeat split; reflexivity.
Qed.

End LoopProperties.

(** ** Properties of [solveHybrd] *)

Section SolveHybrdProperties.

Context {World : Type}.
Variable residualFunc : DATA World -> list R -> list R * list R * World.
Variable _omc_hybrd_ : DATA World -> HybrdOut World.
Variable storeRelations : DATA World -> World.

Local Abbreviation solve_phase := (solve_phase residualFunc _omc_hybrd_ storeRelations).
Local Abbreviation loop_body := (loop_body residualFunc _omc_hybrd_ storeRelations).
Local Abbreviation classified := (classified residualFunc _omc_hybrd_ storeRelations).
Local Abbreviation branch_taken := (branch_taken residualFunc _omc_hybrd_ storeRelations).
Local Abbreviation solving_loop := (solving_loop residualFunc _omc_hybrd_ storeRelations).
Local Abbreviation prologue := (prologue residualFunc storeRelations).
Local Abbreviation solveHybrd_loop :=
  (solveHybrd_loop residualFunc _omc_hybrd_ storeRelations).
Local Abbreviation solveHybrd := (solveHybrd residualFunc _omc_hybrd_ storeRelations).

Lemma solution_found_converged (st : DATA World * Locals) :
  solution_found st = true <-> converged (local_tol (snd st)) st.
Proof.
  destruct st as [d l]. unfold solution_found, converged. cbn [fst snd].
  rewrite !orb_true_iff, !Rleb_true, Z.eqb_eq. tauto.
Qed.

Lemma classified_control (st : DATA World * Locals) :
  local_tol (snd (classified st)) = local_tol (snd st)
  /\ simulationInfo (fst (classified st)) = simulationInfo (solve_phase (fst st)).
Proof.
  destruct (classify_phase_spec (solve_phase (fst st)) (set_giveUp (snd st)))
    as (_ & Hsi & _ & _ & _ & _ & _ & _ & _ & _ & _ & _ & _ & _ & Ht & _).
  split; assumption.
Qed.

(** A pass entered under the loop condition ends with [success] set
    exactly when the convergence test holds. *)
Lemma loop_body_success (st : DATA World * Locals) :
  loop_guard (snd st) = true ->
  (success (snd (loop_body st)) = true
   <-> converged (local_tol (snd st)) (loop_body st))
  /\ (success (snd (loop_body st)) = true ->
      local_tol (snd (loop_body st)) = local_tol (snd st)).
Proof.
  intros Hg. unfold loop_guard in Hg. apply andb_prop in Hg. destruct Hg as [_ Hs].
  apply negb_true_iff in Hs.
  destruct (loop_body_control residualFunc _omc_hybrd_ storeRelations st)
    as (Hsucc & _ & _ & Htol).
  destruct (loop_body_data residualFunc _omc_hybrd_ storeRelations st)
    as (_ & _ & _ & _ & _ & _ & _ & _ & Hi & Hx & Hxs & _).
  cbv zeta in *.
  pose proof (select_branch_solved (solution_found (classified st))
                (info (solverData (fst (classified st))))
                (retries (snd st)) (retries2 (snd st)) (retries3 (snd st))) as Hsel.
  rewrite <- branch_taken_unfold in Hsel.
  pose proof (solution_found_converged (classified st)) as Hconv.
  destruct (classified_control st) as [Hct _]. rewrite Hct in Hconv.
  unfold converged in *. rewrite Hi, Hx, Hxs, Hsucc, Htol, Hs.
  revert Hsel. generalize (branch_taken st). intros br Hsel.
  assert (Hb : (match br with Solved => true | _ => false end) = true <-> br = Solved)
    by (destruct br; split; congruence).
  split.
  - rewrite Hb, Hsel, Hconv. tauto.
  - intros H. apply Hb in H. subst br. reflexivity.
Qed.

Lemma epilogue_returns_success (st : DATA World * Locals) :
  snd (epilogue st) = success (snd st).
Proof. destruct st as [d l]. reflexivity. Qed.

Lemma solveHybrd_returns_success (data : DATA World) :
  snd (solveHybrd data) = success (snd (solveHybrd_loop data)).
Proof.
  unfold Hybrd.solveHybrd, epilogue.
  destruct (solveHybrd_loop data) as [d l]. reflexivity.
Qed.

Lemma loop_body_accepted (st : DATA World * Locals) :
  loop_guard (snd st) = true -> accepted (loop_body st).
Proof.
  intros Hg Hs.
  destruct (loop_body_success st Hg) as [Hiff Htol].
  destruct (loop_body_data residualFunc _omc_hybrd_ storeRelations st)
    as (_ & _ & Hn & _ & _ & _ & Hx & Hxs & _).
  cbv zeta in *. rewrite (Htol Hs), Hn. repeat split; try assumption.
  apply Hiff. assumption.
Qed.

Lemma solveHybrd_loop_accepted (data : DATA World) : accepted (solveHybrd_loop data).
Proof.
  unfold Hybrd.solveHybrd_loop.
  apply (solving_loop_invariant residualFunc _omc_hybrd_ storeRelations accepted).
  - intros st _ Hg. apply loop_body_accepted. assumption.
  - destruct (prologue_spec residualFunc storeRelations data)
      as (_ & _ & _ & _ & _ & Hg & _).
    cbv zeta in Hg. unfold loop_guard in Hg. apply andb_prop in Hg.
    destruct Hg as [_ Hs]. apply negb_true_iff in Hs.
    intros Hs'. congruence.
Qed.

(** C2. A pass of the solving loop ends with [success] set if and only
    if, after the reclassification, [info] is 1 or [xerror] or
    [xerror_scaled] is at most the [local_tol] in effect; and whenever
    [solveHybrd] returns true, that test held in the state in which the
    loop was left, where [xerror] and [xerror_scaled] are the Euclidean
    norms of [fvec] and [resScaling]. *)
Theorem solveHybrd_success_iff_converged :
  (forall st, loop_guard (snd st) = true ->
     (success (snd (loop_body st)) = true
      <-> info (solverData (fst (loop_body st))) = 1%Z
          \/ xerror (snd (loop_body st)) <= local_tol (snd st)
          \/ xerror_scaled (snd (loop_body st)) <= local_tol (snd st)))
  /\ (forall data, snd (solveHybrd data) = true ->
        let st := solveHybrd_loop data in
        let s := solverData (fst st) in
        (info s = 1%Z
         \/ xerror (snd st) <= local_tol (snd st)
         \/ xerror_scaled (snd st) <= local_tol (snd st))
        /\ xerror (snd st) = enorm_ (n s) (fvec s)
        /\ xerror_scaled (snd st) = enorm_ (n s) (resScaling s)).
Proof.
  split.
  - intros st Hg. apply (loop_body_success st Hg).
  - intros data Hret. rewrite solveHybrd_returns_success in Hret.
    exact (solveHybrd_loop_accepted data Hret).
Qed.

(** C10. When the root-finder returns code 0 in a pass, [found_solution]
    is -1 after the pass, the pass takes no retry branch and not the
    no-solution branch (only "solution found" or no branch at all), the
    retry counters are unchanged, [giveUp] stays set so that the loop is
    left, and the flag the function then returns is true exactly when
    [xerror] or [xerror_scaled] is within [local_tol]. *)
Theorem loop_body_improper_input (st : DATA World * Locals) :
  loop_guard (snd st) = true ->
  info (solverData (solve_phase (fst st))) = 0%Z ->
  let st' := loop_body st in
  found_solution (simulationInfo (fst st')) = (-1)%Z
  /\ info (solverData (fst st')) = 0%Z
  /\ (branch_taken st = Solved \/ branch_taken st = NoBranch)
  /\ counters (snd st') = counters (snd st)
  /\ giveUp (snd st') = true
  /\ success (snd st')
     = Rleb (xerror (snd st')) (local_tol (snd st))
       || Rleb (xerror_scaled (snd st')) (local_tol (snd st))
  /\ (forall fuel, solving_loop fuel st' = st')
  /\ (forall fuel, snd (epilogue (solving_loop fuel st')) = success (snd st')).
Proof.
  intros Hg H0. cbv zeta.
  assert (Hs : success (snd st) = false).
  { unfold loop_guard in Hg. apply andb_prop in Hg. destruct Hg as [_ Hs].
    apply negb_true_iff in Hs. exact Hs. }
  destruct (solve_phase_frame residualFunc _omc_hybrd_ storeRelations (fst st))
    as (_ & _ & _ & _ & _ & Hfs).
  cbv zeta in Hfs. specialize (Hfs H0).
  destruct (classify_phase_spec (solve_phase (fst st)) (set_giveUp (snd st)))
    as (_ & Csi & _ & _ & _ & _ & _ & _ & _ & _ & Ci & _).
  fold (classified st) in Csi, Ci.
  destruct (classified_control st) as [Ct _].
  rewrite H0 in Ci. cbn [Z.eqb andb] in Ci.
  destruct (loop_body_control residualFunc _omc_hybrd_ storeRelations st)
    as (Hsucc & Hgu & Hc & _).
  destruct (loop_body_data residualFunc _omc_hybrd_ storeRelations st)
    as (_ & _ & _ & _ & _ & _ & _ & _ & Hi & Hx & Hxs & _).
  cbv zeta in *.
  assert (Hbr : branch_taken st
                = if Rleb (xerror (snd (classified st))) (local_tol (snd st))
                     || Rleb (xerror_scaled (snd (classified st))) (local_tol (snd st))
                  then Solved else NoBranch).
  { rewrite branch_taken_unfold. rewrite Ci.
    assert (Hf : solution_found (classified st)
                 = Rleb (xerror (snd (classified st))) (local_tol (snd st))
                   || Rleb (xerror_scaled (snd (classified st))) (local_tol (snd st))).
    { rewrite <- Ct. destruct (classified st) as [dc lc]. cbn [fst snd] in *.
      unfold solution_found. rewrite Ci. cbn [Z.eqb orb]. reflexivity. }
    rewrite Hf. unfold select_branch.
    destruct (_ || _); reflexivity. }
  assert (Hfound : found_solution (simulationInfo (fst (loop_body st))) = (-1)%Z).
  { rewrite loop_body_unfold, run_branch_found_solution.
    - rewrite Csi. exact Hfs.
    - rewrite Hbr. destruct (_ || _); discriminate. }
  assert (Hguard' : loop_guard (snd (loop_body st)) = false).
  { unfold loop_guard. rewrite Hgu, Hbr. destruct (_ || _); reflexivity. }
  rewrite Hi, Hx, Hxs, Hsucc, Hgu, Hc, Hs.
  repeat split.
  - exact Hfound.
  - exact Ci.
  - rewrite Hbr. destruct (_ || _); auto.
  - rewrite Hbr. destruct (_ || _); reflexivity.
  - rewrite Hbr. destruct (_ || _); reflexivity.
  - rewrite Hbr. destruct (_ || _); reflexivity.
  - intros fuel. apply solving_loop_stop. exact Hguard'.
  - intros fuel. rewrite solving_loop_stop by exact Hguard'.
    rewrite epilogue_returns_success, Hsucc, Hs. reflexivity.
Qed.

(** C5 (as amended). On entry to [solveHybrd] (the [x] buffer holding at
    least [n] entries) the iterate is seeded from [nlsx], the system's
    solution slot, when [discreteCall] is set, and from
    [nlsxExtrapolation] otherwise; before the solving loop begins the
    residual function is evaluated exactly once, on that seed and with
    [useXScaling] cleared, the root-finder is not called, and
    [useXScaling] is put back. *)
Theorem prologue_seeds_and_evaluates_once (data : DATA World) :
  (n (solverData data) <= length (x (solverData data)))%nat ->
  let st := prologue data in
  let src := if discreteCall (simulationInfo data)
             then nlsx (systemData data) else nlsxExtrapolation (systemData data) in
  exists seed,
    (forall i, (i < n (solverData data))%nat -> nth i seed 0 = nth i src 0)
    /\ trace (fst st) = trace data ++ [EvResidual false seed]
    /\ useXScaling (solverData (fst st)) = useXScaling (solverData data)
    /\ fst (solveHybrd_loop data) = fst (solving_loop 192 st).
Proof.
  intros Hlen. cbv zeta.
  destruct (prologue_spec residualFunc storeRelations data)
    as (_ & _ & (_ & _ & _ & _ & Hu) & Ht & Hc & _).
  cbv zeta in *. eexists. split; [|split; [exact Ht|split; [exact Hu|]]].
  - intros i Hi. unfold memcpy. rewrite nth_vec_for_in by lia. reflexivity.
  - unfold Hybrd.solveHybrd_loop. rewrite rank_counters, Hc. reflexivity.
Qed.

(** What the loop never touches. *)
Lemma solveHybrd_loop_frame (data : DATA World) :
  let st := solveHybrd_loop data in
  systemData (fst st) = systemData data
  /\ n (solverData (fst st)) = n (solverData data)
  /\ initial_factor (snd st) = factor (solverData data).
Proof.
  unfold Hybrd.solveHybrd_loop. cbv zeta.
  apply (solving_loop_invariant residualFunc _omc_hybrd_ storeRelations
           (fun st => systemData (fst st) = systemData data
                      /\ n (solverData (fst st)) = n (solverData data)
                      /\ initial_factor (snd st) = factor (solverData data))).
  - intros st (Hs & Hn & Hf) _.
    destruct (loop_body_data residualFunc _omc_hybrd_ storeRelations st)
      as (Es & _ & En & _ & _ & _ & _ & _ & _ & _ & _ & _ & Ef).
    cbv zeta in *. rewrite Es, En, Ef. auto.
  - destruct (prologue_spec residualFunc storeRelations data)
      as (Hs & _ & (Hn & _) & _ & _ & _ & _ & Hf).
    cbv zeta in *. auto.
Qed.

(** On return the first [n] entries of [nlsx] are those of the final
    iterate and [factor] has its value on entry. *)
Lemma solveHybrd_writes_back (data : DATA World) (i : nat) :
  (n (solverData data) <= length (nlsx (systemData data)))%nat ->
  (i < n (solverData data))%nat ->
  let r := fst (solveHybrd data) in
  nth i (nlsx (systemData r)) 0 = nth i (x (solverData r)) 0
  /\ x (solverData r) = x (solverData (fst (solveHybrd_loop data)))
  /\ factor (solverData r) = factor (solverData data).
Proof.
  intros Hlen Hi. cbv zeta.
  destruct (solveHybrd_loop_frame data) as (Hs & Hn & Hf). cbv zeta in *.
  unfold Hybrd.solveHybrd, epilogue.
  destruct (solveHybrd_loop data) as [d l]. cbn [fst snd] in *.
  simpl. rewrite Hs, Hn, Hf. repeat split.
  unfold memcpy. rewrite nth_vec_for_in by lia. reflexivity.
Qed.

(** The solution slot on return: the first [n] entries of the slot on
    entry overwritten with those of the final iterate. *)
Lemma solveHybrd_nlsx (data : DATA World) :
  nlsx (systemData (fst (solveHybrd data)))
  = memcpy (nlsx (systemData data)) (x (solverData (fst (solveHybrd_loop data))))
      (n (solverData data)).
Proof.
  destruct (solveHybrd_loop_frame data) as (Hs & Hn & _). cbv zeta in *.
  unfold Hybrd.solveHybrd, epilogue.
  destruct (solveHybrd_loop data) as [d l]. cbn [fst snd] in *.
  simpl. rewrite Hs, Hn. reflexivity.
Qed.

Lemma solveHybrd_trace (data : DATA World) :
  trace (fst (solveHybrd data)) = trace (fst (solveHybrd_loop data)).
Proof.
  unfold Hybrd.solveHybrd, epilogue.
  destruct (solveHybrd_loop data) as [d l]. reflexivity.
Qed.

(** C8 (as amended). For every system, residual function and
    root-finder, the solving loop of [solveHybrd] is left through its
    condition after at least one and at most 192 calls of the
    root-finder, that is after at most 191 recovery attempts
    (5 first-level retries for each of the 4 starting points of each of
    the 8 third-level settings, plus 3 times 8 restarts, plus the 7
    third-level changes); running the loop longer changes nothing. *)
Theorem solveHybrd_terminates (data : DATA World) :
  let st := solveHybrd_loop data in
  let calls :=
    (hybrd_calls (trace (fst (solveHybrd data))) - hybrd_calls (trace data))%nat in
  loop_guard (snd st) = false
  /\ (1 <= calls <= 192)%nat
  /\ (forall fuel, (192 <= fuel)%nat -> solving_loop fuel (prologue data) = st).
Proof.
  cbv zeta. rewrite solveHybrd_trace. unfold Hybrd.solveHybrd_loop.
  destruct (prologue_spec residualFunc storeRelations data)
    as (_ & _ & _ & Ht & Hc & Hg & _).
  cbv zeta in *.
  assert (Hr : rank (snd (prologue data)) = 191%nat)
    by (rewrite rank_counters, Hc; reflexivity).
  assert (Hh : hybrd_calls (trace (fst (prologue data))) = hybrd_calls (trace data)).
  { rewrite Ht, hybrd_calls_app. unfold hybrd_calls at 2. simpl. lia. }
  rewrite Hr.
  destruct (solving_loop_calls residualFunc _omc_hybrd_ storeRelations 192 (prologue data))
    as [Hle Hlt].
  cbv zeta in *. specialize (Hlt Hg). rewrite Hr, Hh in *.
  repeat split.
  - apply solving_loop_exits. lia.
  - lia.
  - lia.
  - intros fuel Hf. apply solving_loop_fuel; lia.
Qed.

End SolveHybrdProperties.

(** ** Properties of [solveLapack] *)

Section SolveLapackProperties.

Variable dgesv_ : nat -> Z -> list R -> nat -> list Z -> list R -> nat -> Lapack.DgesvOut.
Variable setA : Lapack.LINEAR_SYSTEM_DATA -> list R.
Variable setb : Lapack.LINEAR_SYSTEM_DATA -> list R.

Local Abbreviation dgesv_result := (Lapack.dgesv_result dgesv_ setA setb).

Lemma solveLapack_spec (data : Lapack.DATA) :
  let r := Lapack.solveLapack dgesv_ setA setb data in
  let status := Lapack.out_info (dgesv_result data) in
  Lapack.info (Lapack.solverData (fst r)) = status
  /\ snd r = (status =? 0)%Z
  /\ Lapack.warnings (fst r)
     = Lapack.warnings data
       ++ (if (status <? 0)%Z then [Lapack.ArgumentIllegal status]
           else if (status >? 0)%Z then [Lapack.SingularU (status + 1) (status + 1)]
           else [])
  /\ Lapack.size (Lapack.systemData (fst r)) = Lapack.size (Lapack.systemData data)
  /\ Lapack.b (Lapack.systemData (fst r)) = Lapack.out_b (dgesv_result data)
  /\ Lapack.x (Lapack.systemData (fst r))
     = memcpy (Lapack.x (Lapack.systemData data)) (Lapack.out_b (dgesv_result data))
         (Lapack.size (Lapack.systemData data)).
Proof.
  unfold Lapack.solveLapack, Lapack.dgesv_result, Lapack.assembled. cbv zeta.
  cbn [Lapack.size Lapack.A Lapack.b Lapack.x Lapack.info Lapack.ipiv Lapack.nrhs].
  match goal with |- context [Lapack.out_info ?r] => generalize r end.
  intros r.
  destruct (Z.ltb_spec (Lapack.out_info r) 0);
    [|destruct (Z.gtb_spec (Lapack.out_info r) 0)];
    cbn [fst snd Lapack.systemData Lapack.solverData Lapack.warnings
           Lapack.size Lapack.A Lapack.b Lapack.x Lapack.info];
    rewrite ?app_nil_r; repeat split;
    symmetry; first [apply Z.eqb_neq; lia | apply Z.eqb_eq; lia].
Qed.

(** The solution slot after [solveLapack] holds the right-hand side
    buffer as [dgesv_] left it. *)
Lemma solveLapack_writes_back (data : Lapack.DATA) (i : nat) :
  (Lapack.size (Lapack.systemData data) <= length (Lapack.x (Lapack.systemData data)))%nat ->
  (i < Lapack.size (Lapack.systemData data))%nat ->
  let r := fst (Lapack.solveLapack dgesv_ setA setb data) in
  nth i (Lapack.x (Lapack.systemData r)) 0 = nth i (Lapack.b (Lapack.systemData r)) 0.
Proof.
  intros Hlen Hi. cbv zeta.
  destruct (solveLapack_spec data) as (_ & _ & _ & _ & Hb & Hx). cbv zeta in *.
  rewrite Hb, Hx. unfold memcpy. rewrite nth_vec_for_in by lia. reflexivity.
Qed.

End SolveLapackProperties.

(** C3. Whatever flag they return, both solvers overwrite the system's
    solution slot: after [solveHybrd] the first [n] entries of [nlsx] are
    those of the final iterate [x] (the iterate with which the solving
    loop was left) and [factor] has the value it had on entry; after
    [solveLapack] the first [size] entries of [x] are those of the
    right-hand side buffer [b] as the solver left it, and that buffer is
    the one [dgesv_] returned for the assembled system.  Either slot
    keeps its length and its entries beyond the first [n] (resp.
    [size]). *)
Theorem solvers_always_write_back
  {World : Type}
  (residualFunc : DATA World -> list R -> list R * list R * World)
  (_omc_hybrd_ : DATA World -> HybrdOut World)
  (storeRelations : DATA World -> World)
  (data : DATA World)
  (dgesv_ : nat -> Z -> list R -> nat -> list Z -> list R -> nat -> Lapack.DgesvOut)
  (setA setb : Lapack.LINEAR_SYSTEM_DATA -> list R)
  (ldata : Lapack.DATA) :
  (n (solverData data) <= length (nlsx (systemData data)))%nat ->
  (Lapack.size (Lapack.systemData ldata) <= length (Lapack.x (Lapack.systemData ldata)))%nat ->
  let r := fst (solveHybrd residualFunc _omc_hybrd_ storeRelations data) in
  let lr := Lapack.systemData (fst (Lapack.solveLapack dgesv_ setA setb ldata)) in
  (forall i, (i < n (solverData data))%nat ->
     nth i (nlsx (systemData r)) 0 = nth i (x (solverData r)) 0)
  /\ x (solverData r)
     = x (solverData (fst (solveHybrd_loop residualFunc _omc_hybrd_ storeRelations data)))
  /\ factor (solverData r) = factor (solverData data)
  /\ (forall i, (i < Lapack.size (Lapack.systemData ldata))%nat ->
        nth i (Lapack.x lr) 0 = nth i (Lapack.b lr) 0)
  /\ (length (nlsx (systemData r)) = length (nlsx (systemData data))
      /\ forall i, (n (solverData data) <= i)%nat ->
           nth i (nlsx (systemData r)) 0 = nth i (nlsx (systemData data)) 0)
  /\ Lapack.b lr = Lapack.out_b (Lapack.dgesv_result dgesv_ setA setb ldata)
  /\ (forall i, (i < Lapack.size (Lapack.systemData ldata))%nat ->
        nth i (Lapack.x lr) 0
        = nth i (Lapack.out_b (Lapack.dgesv_result dgesv_ setA setb ldata)) 0)
  /\ (length (Lapack.x lr) = length (Lapack.x (Lapack.systemData ldata))
      /\ forall i, (Lapack.size (Lapack.systemData ldata) <= i)%nat ->
           nth i (Lapack.x lr) 0 = nth i (Lapack.x (Lapack.systemData ldata)) 0)
  /\ Lapack.size lr = Lapack.size (Lapack.systemData ldata).
Proof.
  intros Hn Hsize. cbv zeta.
  pose proof (solveHybrd_writes_back residualFunc _omc_hybrd_ storeRelations data) as Hh.
  pose proof (solveHybrd_nlsx residualFunc _omc_hybrd_ storeRelations data) as Hnl.
  destruct (solveLapack_spec dgesv_ setA setb ldata) as (_ & _ & _ & Lsz & Lb & Lx).
  cbv zeta in Hh, Hnl, Lsz, Lb, Lx.
  split; [|split; [|split; [|split; [|split; [|split; [|split; [|split]]]]]]].
  5:{ rewrite Hnl. unfold memcpy. split; [apply vec_for_length|].
      intros i Hi. apply nth_vec_for_out. exact Hi. }
  5:{ exact Lb. }
  5:{ intros i Hi. rewrite Lx. unfold memcpy. rewrite nth_vec_for_in by lia. reflexivity. }
  5:{ rewrite Lx. unfold memcpy. split; [apply vec_for_length|].
      intros i Hi. apply nth_vec_for_out. exact Hi. }
  5:{ exact Lsz. }
  - intros i Hi. apply (Hh i Hn Hi).
  - unfold solveHybrd, epilogue.
    destruct (solveHybrd_loop residualFunc _omc_hybrd_ storeRelations data) as [d l].
    reflexivity.
  - destruct (solveHybrd_loop_frame residualFunc _omc_hybrd_ storeRelations data)
      as (_ & _ & Hf). cbv zeta in Hf.
    unfold solveHybrd, epilogue.
    destruct (solveHybrd_loop residualFunc _omc_hybrd_ storeRelations data) as [d l].
    cbn [fst snd] in *. simpl. exact Hf.
  - intros i Hi. apply (solveLapack_writes_back dgesv_ setA setb ldata i Hsize Hi).
Qed.

(** The stand-in solver on the singular system: no zero pivot in column 1,
    a zero pivot in column 2. *)
Lemma first_zero_pivot_singular2 : Lapack.first_zero_pivot 2 [1; 0; 0; 0] = 2%Z.
Proof.
  unfold Lapack.first_zero_pivot, for_n. cbn [for_loop Z.eqb Nat.add Nat.mul nth].
  destruct (Req_dec_T 1 0) as [H|_]; [lra|]. cbn [Z.eqb].
  destruct (Req_dec_T 0 0) as [_|H]; [reflexivity|contradiction].
Qed.

(** C4. [solveLapack] classifies the status of [dgesv_] three ways:
    a negative status gives false and the warning "Argument [status]
    illegal"; status 0 gives true and no warning; a positive status [k]
    gives false and the warning "singular for U[k+1, k+1]".  On the 2x2
    system [[1,0],[0,0]] x = [1,0] the status is 2, the flag is false and
    the warning names U[3, 3], not pivot 2. *)
Theorem solveLapack_status_classification :
  (forall dgesv_ setA setb data,
     let r := Lapack.solveLapack dgesv_ setA setb data in
     let status := Lapack.info (Lapack.solverData (fst r)) in
     status = Lapack.out_info (Lapack.dgesv_result dgesv_ setA setb data)
     /\ ((status < 0)%Z ->
         snd r = false
         /\ Lapack.warnings (fst r)
            = Lapack.warnings data ++ [Lapack.ArgumentIllegal status])
     /\ ((status > 0)%Z ->
         snd r = false
         /\ Lapack.warnings (fst r)
            = Lapack.warnings data ++ [Lapack.SingularU (status + 1) (status + 1)])
     /\ (status = 0%Z -> snd r = true /\ Lapack.warnings (fst r) = Lapack.warnings data))
  /\ (let r := Lapack.solveLapack Lapack.dgesv_diag Scenario.setA_singular2
                 Scenario.setb_singular2 Scenario.singular2 in
      Lapack.A (Lapack.assembled Scenario.setA_singular2 Scenario.setb_singular2 Scenario.singular2)
      = [1; 0; 0; 0]
      /\ Lapack.info (Lapack.solverData (fst r)) = 2%Z
      /\ snd r = false
      /\ Lapack.warnings (fst r) = [Lapack.SingularU 3 3]).
Proof.
  split.
  - intros dgesv_ setA setb data. cbv zeta.
    destruct (solveLapack_spec dgesv_ setA setb data) as (Hi & Hs & Hw & _).
    cbv zeta in *. rewrite Hi, Hs, Hw.
    generalize (Lapack.out_info (Lapack.dgesv_result dgesv_ setA setb data)). intros k.
    split; [reflexivity|].
    destruct (Z.ltb_spec k 0); [|destruct (Z.gtb_spec k 0)];
      repeat split; intros; try lia; rewrite ?app_nil_r; try reflexivity;
      first [apply Z.eqb_neq; lia | apply Z.eqb_eq; lia].
  - cbv zeta.
    destruct (solveLapack_spec Lapack.dgesv_diag Scenario.setA_singular2
                Scenario.setb_singular2 Scenario.singular2) as (Hi & Hs & Hw & _).
    cbv zeta in *. rewrite Hi, Hs, Hw.
    assert (HA : Lapack.A (Lapack.assembled Scenario.setA_singular2 Scenario.setb_singular2
                             Scenario.singular2) = [1; 0; 0; 0]) by reflexivity.
    assert (Hst : Lapack.out_info
                    (Lapack.dgesv_result Lapack.dgesv_diag Scenario.setA_singular2
                       Scenario.setb_singular2 Scenario.singular2) = 2%Z).
    { unfold Lapack.dgesv_result, Lapack.dgesv_diag. rewrite HA.
      cbn [Lapack.out_info Lapack.size Lapack.assembled Scenario.singular2 Lapack.systemData].
      apply first_zero_pivot_singular2. }
    rewrite Hst. repeat split; assumption || reflexivity.
Qed.

(** ** A root-finder that never makes progress *)

Lemma Branch_eq_dec (a b : Branch) : {a = b} + {a <> b}.
Proof. decide equality. Defined.

Lemma select_branch_reduce_tolerance (found : bool) (info r r2 r3 : Z) :
  select_branch found info r r2 r3 = ReduceTolerance -> (5 <= r3 < 7)%Z.
Proof.
  unfold select_branch. destruct found; [discriminate|].
  destruct (no_progress info); branch_cases; intros; try discriminate; lia.
Qed.

Lemma branch_counters_retries3 (br : Branch) (r r2 r3 : Z) :
  let '(_, _, r3') := branch_counters br (r, r2, r3) in
  (r3 <= r3')%Z /\ (br = ReduceTolerance -> r3' = r3 + 1)%Z.
Proof. destruct br; simpl; split; intros; try discriminate; lia. Qed.

Lemma enorm_1 (v : list R) : nth 0 v 0 = 1 -> enorm_ 1 v = 1.
Proof.
  intros H. unfold enorm_, for_n. cbn [for_loop]. rewrite H.
  replace (0 + 1 * 1) with 1 by lra. apply sqrt_1.
Qed.

Lemma spec_residualScale_unit : spec_residualScale 1 [1] [1] 0 = 1.
Proof.
  unfold spec_residualScale, column_abs_max, jacobian_entry.
  cbn [seq map fold_right nth Nat.mul Nat.add].
  rewrite Rabs_R1. rewrite (Rmax_left 1 0) by lra. rewrite Rmax_right by lra.
  lra.
Qed.

Section Stalling.

Local Abbreviation solve_phase :=
  (solve_phase Scenario.residual_const Scenario.hybrd_stalls Scenario.store_nothing).
Local Abbreviation loop_body :=
  (loop_body Scenario.residual_const Scenario.hybrd_stalls Scenario.store_nothing).
Local Abbreviation classified :=
  (classified Scenario.residual_const Scenario.hybrd_stalls Scenario.store_nothing).
Local Abbreviation branch_taken :=
  (branch_taken Scenario.residual_const Scenario.hybrd_stalls Scenario.store_nothing).
Local Abbreviation solving_loop :=
  (solving_loop Scenario.residual_const Scenario.hybrd_stalls Scenario.store_nothing).

Lemma stall_solve_phase (data : DATA unit) :
  discreteCall (simulationInfo data) = false ->
  info (solverData (solve_phase data)) = 4%Z
  /\ fvec (solverData (solve_phase data)) = [1]
  /\ fjacobian (solverData (solve_phase data)) = [1].
Proof.
  intros Hd.
  destruct (solve_phase_outputs Scenario.residual_const Scenario.hybrd_stalls
              Scenario.store_nothing data Hd) as (d & Hi & Hf & Hj).
  rewrite Hi, Hf, Hj. repeat split; reflexivity.
Qed.

(** In such a state the pass finds residual norms 1 and code 4, and so
    takes the branch that the counters select. *)
Lemma stall_classified (st : DATA unit * Locals) :
  stall_state st ->
  info (solverData (fst (classified st))) = 4%Z
  /\ xerror (snd (classified st)) = 1
  /\ xerror_scaled (snd (classified st)) = 1
  /\ branch_taken st
     = select_branch false 4 (retries (snd st)) (retries2 (snd st)) (retries3 (snd st)).
Proof.
  intros (Hn & Hl & Hd & Hs & Ht).
  destruct (stall_solve_phase (fst st) Hd) as (Si & Sf & Sj).
  destruct (solve_phase_frame Scenario.residual_const Scenario.hybrd_stalls
              Scenario.store_nothing (fst st)) as (_ & _ & _ & (Sn & _ & _ & Sr & _) & _).
  destruct (classify_phase_spec (solve_phase (fst st)) (set_giveUp (snd st)))
    as (_ & _ & _ & _ & _ & _ & _ & Cr & Cx & Cxs & Ci & _).
  fold (classified st) in Cr, Cx, Cxs, Ci.
  cbv zeta in *. rewrite Sn, Hn, Sf, Sj, Sr in *.
  assert (Hx : xerror (snd (classified st)) = 1)
    by (rewrite Cx; apply enorm_1; reflexivity).
  assert (Hxs : xerror_scaled (snd (classified st)) = 1).
  { rewrite Cxs. apply enorm_1. rewrite Cr.
    rewrite nth_scale_residual by lia. apply spec_residualScale_unit. }
  assert (Hi : info (solverData (fst (classified st))) = 4%Z).
  { rewrite Ci, Si. reflexivity. }
  repeat split; try assumption.
  rewrite branch_taken_unfold, Hi.
  assert (Hf : solution_found (classified st) = false).
  { destruct (classified_control Scenario.residual_const Scenario.hybrd_stalls
                Scenario.store_nothing st) as [Hct _].
    assert (Htol : local_tol (snd st) < 1).
    { destruct Ht as [H|[[_ H]|[_ H]]]; lra. }
    destruct (classified st) as [dc lc]. cbn [fst snd] in *.
    unfold solution_found. rewrite Hi, Hx, Hxs, Hct. cbn [Z.eqb orb].
    unfold Rleb. destruct (Rle_dec 1 (local_tol (snd st))); [lra|reflexivity]. }
  rewrite Hf. reflexivity.
Qed.

Lemma stall_pass (st : DATA unit * Locals) :
  stall_state st ->
  stall_state (loop_body st)
  /\ counters (snd (loop_body st))
     = branch_counters
         (select_branch false 4 (retries (snd st)) (retries2 (snd st)) (retries3 (snd st)))
         (counters (snd st))
  /\ giveUp (snd (loop_body st))
     = negb (is_retry
               (select_branch false 4 (retries (snd st)) (retries2 (snd st))
                  (retries3 (snd st)))).
Proof.
  intros Hst. destruct (stall_classified st Hst) as (_ & _ & _ & Hbr).
  destruct Hst as (Hn & Hl & Hd & Hs & Ht).
  destruct (loop_body_control Scenario.residual_const Scenario.hybrd_stalls
              Scenario.store_nothing st) as (Csucc & Cg & Cc & Ctol).
  destruct (loop_body_data Scenario.residual_const Scenario.hybrd_stalls
              Scenario.store_nothing st)
    as (_ & Dd & Dn & _ & _ & Dr & _).
  cbv zeta in *. rewrite Hbr in *.
  set (br := select_branch false 4 (retries (snd st)) (retries2 (snd st)) (retries3 (snd st))) in *.
  assert (Hns : br <> Solved).
  { subst br. intros E. apply select_branch_solved in E. discriminate. }
  split; [|split; assumption].
  unfold stall_state. rewrite Dn, Dd, Dr, scale_residual_length, Csucc.
  repeat split; try assumption.
  - destruct br; try reflexivity; try assumption; contradiction.
  - unfold tol_inv. rewrite Ctol.
    pose proof (branch_counters_retries3 br (retries (snd st)) (retries2 (snd st))
                  (retries3 (snd st))) as Hr3.
    unfold counters in Cc. rewrite <- Cc in Hr3. destruct Hr3 as [Hmono Hred].
    destruct (Branch_eq_dec br ReduceTolerance) as [E|E].
    + pose proof (select_branch_reduce_tolerance _ _ _ _ _ E) as Hrange.
      specialize (Hred E). rewrite E.
      unfold tol_inv in Ht. destruct Ht as [H|[[H3 H]|[H3 H]]].
      * assert (Hc : (retries3 (snd st) = 5 \/ retries3 (snd st) = 6)%Z) by lia.
        destruct Hc as [Hc|Hc]; rewrite Hc in Hred.
        -- right; left. split; [lia|lra].
        -- right; right. split; [lia|lra].
      * right; right. split; [lia|lra].
      * lia.
    + assert (Hsame : match br with
                      | ReduceTolerance => local_tol (snd st) * 10
                      | _ => local_tol (snd st) end = local_tol (snd st))
        by (destruct br; try reflexivity; contradiction).
      rewrite Hsame. unfold tol_inv in Ht.
      destruct Ht as [H|[[H3 H]|[H3 H]]]; [left|right; left|right; right];
        try split; try assumption; lia.
Qed.

(** Every unit of rank is used: the loop makes as many passes as the
    retry counters allow, and one more to give up. *)
Lemma stall_run (k : nat) (st : DATA unit * Locals) :
  stall_state st -> loop_guard (snd st) = true -> rank (snd st) = k ->
  hybrd_calls (trace (fst (solving_loop (S k) st)))
  = (hybrd_calls (trace (fst st)) + S k)%nat.
Proof.
  revert st. induction k as [|k IH]; intros st Hst Hg Hr;
    rewrite solving_loop_S, Hg;
    destruct (stall_pass st Hst) as (Hst' & Hc & Hgu);
    destruct (loop_body_data Scenario.residual_const Scenario.hybrd_stalls
                Scenario.store_nothing st)
      as (_ & _ & _ & _ & _ & _ & _ & _ & _ & _ & _ & Hh & _);
    cbv zeta in Hh;
    destruct (select_branch_no_progress 4 (retries (snd st)) (retries2 (snd st))
                (retries3 (snd st)) eq_refl) as [Hpos Hzero];
    rewrite rank_counters in Hr; unfold counters in Hr.
  - cbn [Hybrd.solving_loop]. rewrite Hh. lia.
  - assert (Hretry : is_retry
                       (select_branch false 4 (retries (snd st)) (retries2 (snd st))
                          (retries3 (snd st))) = true)
      by (apply Hpos; lia).
    rewrite Hretry in Hgu. cbn [negb] in Hgu.
    assert (Hg' : loop_guard (snd (loop_body st)) = true).
    { unfold loop_guard. rewrite Hgu.
      destruct Hst' as (_ & _ & _ & Hs' & _). rewrite Hs'. reflexivity. }
    pose proof (loop_body_rank Scenario.residual_const Scenario.hybrd_stalls
                  Scenario.store_nothing st Hg') as Hrank.
    assert (Hr' : rank (snd st) = S k) by (rewrite rank_counters; exact Hr).
    rewrite (IH (loop_body st) Hst' Hg') by lia.
    rewrite Hh. lia.
Qed.

Lemma stall_prologue :
  stall_state (prologue Scenario.residual_const Scenario.store_nothing
                 (Scenario.system1 false)).
Proof.
  destruct (prologue_spec Scenario.residual_const Scenario.store_nothing
              (Scenario.system1 false))
    as (_ & Hsi & (Hn & _ & _ & Hr & _) & _ & _ & Hg & Ht & _).
  cbv zeta in *. unfold stall_state, tol_inv. rewrite Hsi, Hn, Hr, Ht.
  unfold loop_guard in Hg. apply andb_prop in Hg. destruct Hg as [_ Hs].
  apply negb_true_iff in Hs.
  repeat split; try reflexivity; try assumption. left. lra.
Qed.

(** One pass from a state with known counters. *)
Lemma stall_step (st : DATA unit * Locals) (r r2 r3 : Z) (u : bool) :
  stall_state st -> counters (snd st) = (r, r2, r3) ->
  useXScaling (solverData (fst st)) = u ->
  stall_state (loop_body st)
  /\ branch_taken st = select_branch false 4 r r2 r3
  /\ counters (snd (loop_body st))
     = branch_counters (select_branch false 4 r r2 r3) (r, r2, r3)
  /\ useXScaling (solverData (fst (loop_body st)))
     = branch_useXScaling (select_branch false 4 r r2 r3) u
  /\ loop_guard (snd (loop_body st)) = is_retry (select_branch false 4 r r2 r3).
Proof.
  intros Hst Hc Hu.
  destruct (stall_classified st Hst) as (_ & _ & _ & Hbr).
  destruct (stall_pass st Hst) as (Hst' & Hc' & Hg').
  assert (Hs' : success (snd (loop_body st)) = false)
    by (destruct Hst' as (_ & _ & _ & Hs' & _); exact Hs').
  pose proof (loop_body_useXScaling Scenario.residual_const Scenario.hybrd_stalls
                Scenario.store_nothing st) as Hu'.
  rewrite Hbr, Hu in Hu'. rewrite Hc in Hc'.
  unfold counters in Hc. injection Hc as E1 E2 E3.
  rewrite E1, E2, E3 in *.
  split; [exact Hst'|split; [exact Hbr|split; [exact Hc'|split; [exact Hu'|]]]].
  unfold loop_guard. rewrite Hg', Hs', negb_involutive. apply andb_true_r.
Qed.

End Stalling.

(** C8, as stated, fails: with a root-finder that reports code 4 at every
    call, [solveHybrd] on the one-unknown system calls the root-finder 192
    times, that is it makes 191 recovery attempts, more than 14. *)
Lemma solveHybrd_more_than_14_recovery_attempts :
  hybrd_calls
    (trace (fst (solveHybrd Scenario.residual_const Scenario.hybrd_stalls
                   Scenario.store_nothing (Scenario.system1 false))))
  = 192%nat
  /\ ~ (hybrd_calls
          (trace (fst (solveHybrd Scenario.residual_const Scenario.hybrd_stalls
                         Scenario.store_nothing (Scenario.system1 false)))) - 1
        <= 3 + 1 + 1 + 1 + 1 + 1 + 1 + 1 + 1 + 1 + 2)%nat.
Proof.
  assert (H : hybrd_calls
                (trace (fst (solveHybrd Scenario.residual_const Scenario.hybrd_stalls
                               Scenario.store_nothing (Scenario.system1 false))))
              = 192%nat).
  { rewrite solveHybrd_trace. unfold solveHybrd_loop.
    destruct (prologue_spec Scenario.residual_const Scenario.store_nothing
                (Scenario.system1 false))
      as (_ & _ & _ & Ht & Hc & Hg & _).
    cbv zeta in *.
    rewrite (stall_run (rank (snd (prologue Scenario.residual_const Scenario.store_nothing
                                     (Scenario.system1 false)))));
      [|apply stall_prologue|exact Hg|reflexivity].
    rewrite rank_counters, Hc, Ht. reflexivity. }
  split; [exact H|]. rewrite H. simpl. lia.
Qed.

(** C1. The branch that clears [useXScaling] (condition [retries < 4])
    stands in the chain after the branch that perturbs the iterate
    (condition [retries < 5]), so it is never taken: in the state where the
    spec's tier order selects T1b (code 4, no convergence, [retries = 3])
    the code perturbs the iterate instead.  That state is reached on the
    fourth pass of [solveHybrd] on the one-unknown system when the
    root-finder never makes progress, and the pass leaves [useXScaling]
    set. *)
Theorem select_branch_never_disables_scaling :
  (forall found info r r2 r3, select_branch found info r r2 r3 <> DeactivateXScaling)
  /\ spec_tier false 4 3 0 0 = DeactivateXScaling
  /\ select_branch false 4 3 0 0 = VaryPoint
  /\ (let pass := loop_body Scenario.residual_const Scenario.hybrd_stalls
                    Scenario.store_nothing in
      let st3 := pass (pass (pass (prologue Scenario.residual_const Scenario.store_nothing
                                     (Scenario.system1 false)))) in
      counters (snd st3) = (3, 0, 0)%Z
      /\ loop_guard (snd st3) = true
      /\ useXScaling (solverData (fst st3)) = true
      /\ branch_taken Scenario.residual_const Scenario.hybrd_stalls
           Scenario.store_nothing st3 = VaryPoint
      /\ useXScaling (solverData (fst (pass st3))) = true
      /\ counters (snd (pass st3)) = (4, 0, 0)%Z).
Proof.
  split; [exact select_branch_never_deactivates|].
  split; [reflexivity|]. split; [reflexivity|]. cbv zeta.
  destruct (prologue_spec Scenario.residual_const Scenario.store_nothing
              (Scenario.system1 false))
    as (_ & _ & (_ & _ & _ & _ & Hu0) & _ & Hc0 & _).
  cbv zeta in *.
  destruct (stall_step _ _ _ _ _ stall_prologue Hc0 Hu0) as (Hs1 & _ & Hc1 & Hu1 & _).
  destruct (stall_step _ _ _ _ _ Hs1 Hc1 Hu1) as (Hs2 & _ & Hc2 & Hu2 & _).
  destruct (stall_step _ _ _ _ _ Hs2 Hc2 Hu2) as (Hs3 & _ & Hc3 & Hu3 & Hg3).
  destruct (stall_step _ _ _ _ _ Hs3 Hc3 Hu3) as (_ & Hb4 & Hc4 & Hu4 & _).
  split; [exact Hc3|]. split; [exact Hg3|]. split; [exact Hu3|].
  split; [exact Hb4|]. split; [exact Hu4|exact Hc4].
Qed.

(** ** The properties at concrete systems *)

(** C5, as stated, fails: in a discrete call the residual function is
    evaluated on the seed [[1]], the content of [nlsx], while [nlsxOld]
    holds [[2]]. *)
Lemma prologue_seed_is_not_nlsxOld :
  ~ (forall data : DATA unit,
       (n (solverData data) <= length (x (solverData data)))%nat ->
       discreteCall (simulationInfo data) = true ->
       trace (fst (prologue Scenario.residual_const Scenario.store_nothing data))
       = trace data
         ++ [EvResidual false
               (memcpy (x (solverData data)) (nlsxOld (systemData data))
                  (n (solverData data)))]).
Proof.
  intros H.
  specialize (H (Scenario.system1 true) (le_n 1) eq_refl).
  destruct (prologue_spec Scenario.residual_const Scenario.store_nothing
              (Scenario.system1 true)) as (_ & _ & _ & Ht & _).
  cbv zeta in Ht. rewrite Ht in H.
  change (trace (Scenario.system1 true)) with (@nil Event) in H.
  change (memcpy (x (solverData (Scenario.system1 true)))
            (nlsxOld (systemData (Scenario.system1 true)))
            (n (solverData (Scenario.system1 true)))) with [2] in H.
  change (memcpy (x (solverData (Scenario.system1 true)))
            (if discreteCall (simulationInfo (Scenario.system1 true))
             then nlsx (systemData (Scenario.system1 true))
             else nlsxExtrapolation (systemData (Scenario.system1 true)))
            (n (solverData (Scenario.system1 true)))) with [1] in H.
  cbn [app] in H. injection H as H. lra.
Qed.

(** C5 at the one-unknown system in a discrete call. *)
Lemma prologue_seeds_and_evaluates_once_witness :
  (n (solverData (Scenario.system1 true))
   <= length (x (solverData (Scenario.system1 true))))%nat
  /\ exists seed,
       (forall i, (i < 1)%nat -> nth i seed 0 = nth i [1] 0)
       /\ trace (fst (prologue Scenario.residual_const Scenario.store_nothing
                        (Scenario.system1 true)))
          = [] ++ [EvResidual false seed]
       /\ useXScaling (solverData (fst (prologue Scenario.residual_const
                                          Scenario.store_nothing (Scenario.system1 true))))
          = true
       /\ fst (solveHybrd_loop Scenario.residual_const Scenario.hybrd_stalls
                 Scenario.store_nothing (Scenario.system1 true))
          = fst (solving_loop Scenario.residual_const Scenario.hybrd_stalls
                   Scenario.store_nothing 192
                   (prologue Scenario.residual_const Scenario.store_nothing
                      (Scenario.system1 true))).
Proof.
  split; [apply le_n|].
  apply (prologue_seeds_and_evaluates_once Scenario.residual_const Scenario.hybrd_stalls
           Scenario.store_nothing (Scenario.system1 true) (le_n 1)).
Defined.

(** C3 at the one-unknown system and the singular 2x2 system. *)
Lemma solvers_always_write_back_witness :
  let r := fst (solveHybrd Scenario.residual_const Scenario.hybrd_stalls
                  Scenario.store_nothing (Scenario.system1 false)) in
  let lr := Lapack.systemData
              (fst (Lapack.solveLapack Lapack.dgesv_diag Scenario.setA_singular2
                      Scenario.setb_singular2 Scenario.singular2)) in
  (forall i, (i < 1)%nat -> nth i (nlsx (systemData r)) 0 = nth i (x (solverData r)) 0)
  /\ x (solverData r)
     = x (solverData (fst (solveHybrd_loop Scenario.residual_const Scenario.hybrd_stalls
                             Scenario.store_nothing (Scenario.system1 false))))
  /\ factor (solverData r) = 100
  /\ (forall i, (i < 2)%nat -> nth i (Lapack.x lr) 0 = nth i (Lapack.b lr) 0)
  /\ (length (nlsx (systemData r)) = 1%nat
      /\ forall i, (1 <= i)%nat -> nth i (nlsx (systemData r)) 0 = nth i [1] 0)
  /\ Lapack.b lr
     = Lapack.out_b (Lapack.dgesv_result Lapack.dgesv_diag Scenario.setA_singular2
                       Scenario.setb_singular2 Scenario.singular2)
  /\ (forall i, (i < 2)%nat ->
        nth i (Lapack.x lr) 0
        = nth i (Lapack.out_b (Lapack.dgesv_result Lapack.dgesv_diag
                                 Scenario.setA_singular2 Scenario.setb_singular2
                                 Scenario.singular2)) 0)
  /\ (length (Lapack.x lr) = 2%nat
      /\ forall i, (2 <= i)%nat -> nth i (Lapack.x lr) 0 = nth i [5; 5] 0)
  /\ Lapack.size lr = 2%nat.
Proof.
  exact (solvers_always_write_back Scenario.residual_const Scenario.hybrd_stalls
           Scenario.store_nothing (Scenario.system1 false)
           Lapack.dgesv_diag Scenario.setA_singular2 Scenario.setb_singular2
           Scenario.singular2 (le_n 1) (le_n 2)).
Defined.




(** A root-finder that returns the root at once. *)
Section Converging.

Local Abbreviation solve_phase :=
  (solve_phase Scenario.residual_shift Scenario.hybrd_converges Scenario.store_nothing).
Local Abbreviation loop_body :=
  (loop_body Scenario.residual_shift Scenario.hybrd_converges Scenario.store_nothing).
Local Abbreviation classified :=
  (classified Scenario.residual_shift Scenario.hybrd_converges Scenario.store_nothing).
Local Abbreviation branch_taken :=
  (branch_taken Scenario.residual_shift Scenario.hybrd_converges Scenario.store_nothing).

Lemma converge_solve_phase (data : DATA unit) :
  discreteCall (simulationInfo data) = false ->
  info (solverData (solve_phase data)) = 1%Z
  /\ fvec (solverData (solve_phase data)) = [0].
Proof.
  intros Hd.
  destruct (solve_phase_outputs Scenario.residual_shift Scenario.hybrd_converges
              Scenario.store_nothing data Hd) as (d & Hi & Hf & _).
  rewrite Hi, Hf. split; reflexivity.
Qed.

Lemma enorm_1_zero : enorm_ 1 [0] = 0.
Proof.
  unfold enorm_, for_n. cbn [for_loop nth].
  replace (0 + 0 * 0) with 0 by lra. apply sqrt_0.
Qed.

(** The pass accepts the root: code 1 is kept because the residual norm
    is 0. *)
Lemma converge_pass (st : DATA unit * Locals) :
  n (solverData (fst st)) = 1%nat ->
  discreteCall (simulationInfo (fst st)) = false ->
  0 <= local_tol (snd st) ->
  success (snd (loop_body st)) = true.
Proof.
  intros Hn Hd Htol.
  destruct (converge_solve_phase (fst st) Hd) as (Si & Sf).
  destruct (solve_phase_frame Scenario.residual_shift Scenario.hybrd_converges
              Scenario.store_nothing (fst st)) as (_ & _ & _ & (Sn & _) & _).
  destruct (classify_phase_spec (solve_phase (fst st)) (set_giveUp (snd st)))
    as (_ & _ & _ & _ & _ & _ & _ & _ & Cx & _ & Ci & _).
  fold (classified st) in Cx, Ci.
  cbv zeta in *. rewrite Sn, Hn, Sf in Cx. rewrite enorm_1_zero in Cx.
  rewrite Si, Cx in Ci.
  change (local_tol (set_giveUp (snd st))) with (local_tol (snd st)) in Ci.
  assert (Hgt : Rgtb 0 (local_tol (snd st)) = false).
  { unfold Rgtb. destruct (Rgt_dec 0 (local_tol (snd st))); [lra|reflexivity]. }
  rewrite Hgt in Ci. cbn [Z.eqb andb] in Ci.
  destruct (loop_body_control Scenario.residual_shift Scenario.hybrd_converges
              Scenario.store_nothing st) as (Hs & _).
  cbv zeta in Hs. rewrite Hs.
  assert (Hbr : branch_taken st = Solved).
  { rewrite branch_taken_unfold. apply select_branch_solved.
    destruct (classified st) as [dc lc]. cbn [fst snd] in *.
    unfold solution_found. rewrite Ci. reflexivity. }
  rewrite Hbr. reflexivity.
Qed.

Lemma solveHybrd_converges :
  snd (solveHybrd Scenario.residual_shift Scenario.hybrd_converges
         Scenario.store_nothing (Scenario.system1 false)) = true.
Proof.
  rewrite solveHybrd_returns_success. unfold solveHybrd_loop.
  destruct (prologue_spec Scenario.residual_shift Scenario.store_nothing
              (Scenario.system1 false))
    as (_ & Hsi & (Hn & _) & _ & _ & Hg & Ht & _).
  cbv zeta in *. rewrite solving_loop_S, Hg.
  assert (Hs : success (snd (loop_body (prologue Scenario.residual_shift
                                          Scenario.store_nothing
                                          (Scenario.system1 false)))) = true).
  { apply converge_pass.
    - rewrite Hn. reflexivity.
    - rewrite Hsi. reflexivity.
    - rewrite Ht. lra. }
  rewrite solving_loop_stop; [exact Hs|].
  unfold loop_guard. rewrite Hs. apply andb_false_r.
Qed.

End Converging.

(** C2 at Scenario A: the root-finder returns the root with code 1 and
    [solveHybrd] returns true. *)
Lemma solveHybrd_success_iff_converged_witness :
  snd (solveHybrd Scenario.residual_shift Scenario.hybrd_converges
         Scenario.store_nothing (Scenario.system1 false)) = true
  /\ (let st := solveHybrd_loop Scenario.residual_shift Scenario.hybrd_converges
                  Scenario.store_nothing (Scenario.system1 false) in
      let s := solverData (fst st) in
      (info s = 1%Z
       \/ xerror (snd st) <= local_tol (snd st)
       \/ xerror_scaled (snd st) <= local_tol (snd st))
      /\ xerror (snd st) = enorm_ (n s) (fvec s)
      /\ xerror_scaled (snd st) = enorm_ (n s) (resScaling s)).
Proof.
  split; [exact solveHybrd_converges|].
  exact (proj2 (solveHybrd_success_iff_converged Scenario.residual_shift
                  Scenario.hybrd_converges Scenario.store_nothing)
           (Scenario.system1 false) solveHybrd_converges).
Defined.

(** C10 at the first pass of the one-unknown system with a root-finder
    that rejects its input. *)
Lemma loop_body_improper_input_witness :
  loop_guard Scenario.locals1 = true
  /\ info (solverData (solve_phase Scenario.residual_const Scenario.hybrd_improper
                         Scenario.store_nothing (Scenario.system1 false))) = 0%Z
  /\ found_solution
       (simulationInfo
          (fst (loop_body Scenario.residual_const Scenario.hybrd_improper
                  Scenario.store_nothing (Scenario.system1 false, Scenario.locals1))))
     = (-1)%Z
  /\ giveUp
       (snd (loop_body Scenario.residual_const Scenario.hybrd_improper
               Scenario.store_nothing (Scenario.system1 false, Scenario.locals1)))
     = true.
Proof.
  assert (H0 : info (solverData (solve_phase Scenario.residual_const Scenario.hybrd_improper
                                   Scenario.store_nothing (Scenario.system1 false))) = 0%Z)
    by reflexivity.
  split; [reflexivity|]. split; [exact H0|].
  destruct (loop_body_improper_input Scenario.residual_const Scenario.hybrd_improper
              Scenario.store_nothing (Scenario.system1 false, Scenario.locals1)
              eq_refl H0) as (Hf & _ & _ & _ & Hg & _).
  split; [exact Hf|exact Hg].
Defined.

(** C6 at the first pass of the one-unknown system with a root-finder
    that claims convergence (code 1) while the residual is 1: both norms
    are 1, above [1e-12], and the code becomes 4. *)
Lemma loop_body_reclassifies_witness :
  info (solverData (solve_phase Scenario.residual_const Scenario.hybrd_claims
                      Scenario.store_nothing (Scenario.system1 false))) = 1%Z
  /\ xerror (snd (loop_body Scenario.residual_const Scenario.hybrd_claims
                    Scenario.store_nothing (Scenario.system1 false, Scenario.locals1))) = 1
  /\ xerror_scaled (snd (loop_body Scenario.residual_const Scenario.hybrd_claims
                           Scenario.store_nothing (Scenario.system1 false, Scenario.locals1)))
     = 1
  /\ info (solverData (fst (loop_body Scenario.residual_const Scenario.hybrd_claims
                              Scenario.store_nothing
                              (Scenario.system1 false, Scenario.locals1)))) = 4%Z.
Proof.
  destruct (solve_phase_outputs Scenario.residual_const Scenario.hybrd_claims
              Scenario.store_nothing (Scenario.system1 false) eq_refl)
    as (d & Hi & Hf & Hj).
  change (out_info (Scenario.hybrd_claims d)) with 1%Z in Hi.
  change (out_fvec (Scenario.hybrd_claims d)) with [1] in Hf.
  change (out_fjacobian (Scenario.hybrd_claims d)) with [1] in Hj.
  destruct (loop_body_data Scenario.residual_const Scenario.hybrd_claims
              Scenario.store_nothing (Scenario.system1 false, Scenario.locals1))
    as (_ & _ & Hn & Df & _ & Dr & Dx & Dxs & _).
  cbv zeta in *. cbn [fst] in Hn, Df, Dr.
  assert (Hx : xerror (snd (loop_body Scenario.residual_const Scenario.hybrd_claims
                              Scenario.store_nothing
                              (Scenario.system1 false, Scenario.locals1))) = 1).
  { rewrite Dx. apply enorm_1. rewrite Df, Hf. reflexivity. }
  assert (Hxs : xerror_scaled (snd (loop_body Scenario.residual_const Scenario.hybrd_claims
                                      Scenario.store_nothing
                                      (Scenario.system1 false, Scenario.locals1))) = 1).
  { rewrite Dxs. apply enorm_1. rewrite Dr, Hf, Hj.
    rewrite nth_scale_residual by (apply le_n). apply spec_residualScale_unit. }
  split; [exact Hi|]. split; [exact Hx|]. split; [exact Hxs|].
  apply (proj1 (loop_body_reclassifies Scenario.residual_const Scenario.hybrd_claims
                  Scenario.store_nothing (Scenario.system1 false, Scenario.locals1))).
  split; [exact Hi|]. rewrite Hx, Hxs.
  change (local_tol (snd (Scenario.system1 false, Scenario.locals1))) with 1e-12.
  split; lra.
Defined.

(** ** The retry budget and the tolerance *)

Lemma select_branch_in_budget (found : bool) (info r r2 r3 : Z) :
  in_budget (r, r2, r3) ->
  in_budget (branch_counters (select_branch found info r r2 r3) (r, r2, r3)).
Proof.
  unfold select_branch, in_budget. intros (Hr & Hr2 & Hr3).
  destruct found; [cbn [branch_counters]; lia|].
  destruct (no_progress info); branch_cases; lia.
Qed.

Lemma tol_after_low (r3 : Z) : (r3 <= 5)%Z -> tol_after r3 = 1e-12.
Proof.
  intros H. unfold tol_after. replace (Z.to_nat (r3 - 5)) with 0%nat by lia.
  simpl. lra.
Qed.

Lemma tol_after_succ (r3 : Z) : (5 <= r3)%Z -> tol_after (r3 + 1) = tol_after r3 * 10.
Proof.
  intros H. unfold tol_after.
  replace (Z.to_nat (r3 + 1 - 5)) with (S (Z.to_nat (r3 - 5))) by lia.
  simpl. lra.
Qed.

Lemma tol_after_bounds (r3 : Z) : (0 <= r3 <= 7)%Z -> 1e-12 <= tol_after r3 <= 1e-10.
Proof.
  intros H.
  assert (Hc : (r3 <= 5 \/ r3 = 6 \/ r3 = 7)%Z) by lia.
  destruct Hc as [Hc|[Hc|Hc]].
  - rewrite tol_after_low by assumption. lra.
  - subst r3. unfold tol_after. simpl. lra.
  - subst r3. unfold tol_after. simpl. lra.
Qed.

(** The tolerance follows the third-level counter through every branch. *)
Lemma select_branch_tol_after (found : bool) (info r r2 r3 : Z) :
  (0 <= r3)%Z ->
  let br := select_branch found info r r2 r3 in
  tol_after (snd (branch_counters br (r, r2, r3)))
  = match br with ReduceTolerance => tol_after r3 * 10 | _ => tol_after r3 end.
Proof.
  intros H0. unfold select_branch.
  destruct found; [reflexivity|].
  destruct (no_progress info); branch_cases; cbn [snd]; try reflexivity;
    first [ apply tol_after_succ; lia
          | rewrite !tol_after_low by lia; reflexivity ].
Qed.

Lemma budget_step (l l' : Locals) (found : bool) (info : Z) :
  budget_state l ->
  counters l'
  = branch_counters (select_branch found info (retries l) (retries2 l) (retries3 l))
      (counters l) ->
  local_tol l'
  = match select_branch found info (retries l) (retries2 l) (retries3 l) with
    | ReduceTolerance => local_tol l * 10
    | _ => local_tol l
    end ->
  budget_state l'.
Proof.
  intros (Hb & Ht) Hc Htol. unfold budget_state.
  pose proof (select_branch_in_budget found info _ _ _ Hb) as Hb'.
  assert (H0 : (0 <= retries3 l)%Z) by (unfold in_budget, counters in Hb; lia).
  pose proof (select_branch_tol_after found info (retries l) (retries2 l) _ H0) as Ht'.
  cbv zeta in Ht'. unfold counters in Hc at 2. rewrite <- Hc in Hb', Ht'.
  split; [exact Hb'|].
  rewrite Htol, Ht, <- Ht'. reflexivity.
Qed.

Section BudgetProperties.

Context {World : Type}.
Variable residualFunc : DATA World -> list R -> list R * list R * World.
Variable _omc_hybrd_ : DATA World -> HybrdOut World.
Variable storeRelations : DATA World -> World.

Local Abbreviation solve_phase := (solve_phase residualFunc _omc_hybrd_ storeRelations).
Local Abbreviation loop_body := (loop_body residualFunc _omc_hybrd_ storeRelations).
Local Abbreviation classified := (classified residualFunc _omc_hybrd_ storeRelations).
Local Abbreviation branch_taken := (branch_taken residualFunc _omc_hybrd_ storeRelations).
Local Abbreviation solving_loop := (solving_loop residualFunc _omc_hybrd_ storeRelations).
Local Abbreviation prologue := (prologue residualFunc storeRelations).
Local Abbreviation solveHybrd_loop :=
  (solveHybrd_loop residualFunc _omc_hybrd_ storeRelations).
Local Abbreviation solveHybrd := (solveHybrd residualFunc _omc_hybrd_ storeRelations).

Lemma loop_body_budget (st : DATA World * Locals) :
  budget_state (snd st) -> budget_state (snd (loop_body st)).
Proof.
  intros Hb.
  destruct (loop_body_control residualFunc _omc_hybrd_ storeRelations st)
    as (_ & _ & Hc & Htol).
  cbv zeta in *. rewrite branch_taken_unfold in Hc, Htol.
  exact (budget_step _ _ _ _ Hb Hc Htol).
Qed.

Lemma solveHybrd_loop_budget (data : DATA World) :
  budget_state (snd (solveHybrd_loop data)).
Proof.
  unfold Hybrd.solveHybrd_loop.
  apply (solving_loop_invariant residualFunc _omc_hybrd_ storeRelations
           (fun st => budget_state (snd st))).
  - intros st Hb _. apply loop_body_budget. exact Hb.
  - destruct (prologue_spec residualFunc storeRelations data)
      as (_ & _ & _ & _ & Hc & _ & Ht & _).
    cbv zeta in *. unfold budget_state. rewrite Hc, Ht.
    split; [unfold in_budget; lia|].
    change (retries3 (snd (prologue data))) with 0%Z.
    rewrite tol_after_low by lia. reflexivity.
Qed.

(** A code 1 that survives the reclassification: the test
    [xerror > local_tol && xerror_scaled > local_tol] has failed. *)
Lemma classified_code_one (st : DATA World * Locals) :
  info (solverData (fst (classified st))) = 1%Z ->
  ~ (xerror (snd (classified st)) > local_tol (snd st)
     /\ xerror_scaled (snd (classified st)) > local_tol (snd st)).
Proof.
  destruct (classify_phase_spec (solve_phase (fst st)) (set_giveUp (snd st)))
    as (_ & _ & _ & _ & _ & _ & _ & _ & _ & _ & Ci & _).
  fold (classified st) in Ci. cbv zeta in Ci.
  change (local_tol (set_giveUp (snd st))) with (local_tol (snd st)) in Ci.
  revert Ci.
  generalize (info (solverData (fst (classified st))))
    (xerror (snd (classified st))) (xerror_scaled (snd (classified st)))
    (info (solverData (solve_phase (fst st)))) (local_tol (snd st)).
  intros ic xe xs ir tol Ci H1 (Hxe & Hxs). rewrite Ci in H1. clear Ci.
  apply Rgtb_true in Hxe. apply Rgtb_true in Hxs. rewrite Hxe, Hxs in H1.
  destruct (Z.eqb_spec ir 1) as [E|E]; cbn [andb] in H1; lia.
Qed.

(** [success] with a code 1 is only set when that test has failed. *)
Lemma loop_body_accepted_by_norm (st : DATA World * Locals) :
  loop_guard (snd st) = true -> accepted_by_norm (loop_body st).
Proof.
  intros Hg Hs H1.
  destruct (loop_body_success residualFunc _omc_hybrd_ storeRelations st Hg)
    as [_ Htol].
  destruct (loop_body_data residualFunc _omc_hybrd_ storeRelations st)
    as (_ & _ & _ & _ & _ & _ & _ & _ & Hi & Hx & Hxs & _).
  cbv zeta in *. rewrite (Htol Hs).
  rewrite Hi in H1. rewrite Hx, Hxs. apply classified_code_one. exact H1.
Qed.

Lemma solveHybrd_loop_accepted_by_norm (data : DATA World) :
  accepted_by_norm (solveHybrd_loop data).
Proof.
  unfold Hybrd.solveHybrd_loop.
  apply (solving_loop_invariant residualFunc _omc_hybrd_ storeRelations accepted_by_norm).
  - intros st _ Hg. apply loop_body_accepted_by_norm. exact Hg.
  - destruct (prologue_spec residualFunc storeRelations data)
      as (_ & _ & _ & _ & _ & Hg & _).
    cbv zeta in Hg. unfold loop_guard in Hg. apply andb_prop in Hg.
    destruct Hg as [_ Hs]. apply negb_true_iff in Hs.
    intros Hs'. congruence.
Qed.

(** What the epilogue leaves alone. *)
Lemma epilogue_frame (st : DATA World * Locals) :
  let d := fst (epilogue st) in
  simulationInfo d = simulationInfo (fst st)
  /\ trace d = trace (fst st)
  /\ n (solverData d) = n (solverData (fst st))
  /\ x (solverData d) = x (solverData (fst st))
  /\ fvec (solverData d) = fvec (solverData (fst st))
  /\ resScaling (solverData d) = resScaling (solverData (fst st))
  /\ info (solverData d) = info (solverData (fst st))
  /\ mode (solverData d) = mode (solverData (fst st))
  /\ diag (solverData d) = diag (solverData (fst st))
  /\ useXScaling (solverData d) = useXScaling (solverData (fst st)).
Proof. destruct st as [d l]. cbv zeta. simpl. repeat split. Qed.

(** X1. In every state of the solving loop of [solveHybrd], whatever the
    root-finder does, [retries] is between 0 and 5, [retries2] between 0
    and 3 and [retries3] between 0 and 7, and [local_tol] is [1e-12]
    until the sixth third-level change and ten times larger after each of
    the last two, so it never leaves the range from [1e-12] to [1e-10]. *)
Theorem solveHybrd_budget_and_tolerance (data : DATA World) (fuel : nat) :
  let l := snd (solving_loop fuel (prologue data)) in
  (0 <= retries l <= 5)%Z /\ (0 <= retries2 l <= 3)%Z /\ (0 <= retries3 l <= 7)%Z
  /\ local_tol l = 1e-12 * 10 ^ Z.to_nat (retries3 l - 5)
  /\ 1e-12 <= local_tol l <= 1e-10.
Proof.
  cbv zeta.
  assert (Hb : budget_state (snd (solving_loop fuel (prologue data)))).
  { apply (solving_loop_invariant residualFunc _omc_hybrd_ storeRelations
             (fun st => budget_state (snd st))).
    - intros st Hb _. apply loop_body_budget. exact Hb.
    - destruct (prologue_spec residualFunc storeRelations data)
        as (_ & _ & _ & _ & Hc & _ & Ht & _).
      cbv zeta in *. unfold budget_state. rewrite Hc, Ht.
      split; [unfold in_budget; lia|].
      change (retries3 (snd (prologue data))) with 0%Z.
      rewrite tol_after_low by lia. reflexivity. }
  revert Hb. generalize (snd (solving_loop fuel (prologue data))). intros l (Hb & Ht).
  unfold in_budget, counters in Hb. destruct Hb as (H1 & H2 & H3).
  split; [exact H1|]. split; [exact H2|]. split; [exact H3|].
  split; [exact Ht|]. rewrite Ht. apply tol_after_bounds. exact H3.
Qed.

(** X2. Whenever [solveHybrd] returns true, the tolerance [local_tol] in
    effect is between [1e-12] and [1e-10], and the Euclidean norm of the
    residual [fvec] it leaves behind, or that of the scaled residual
    [resScaling], is within that tolerance, or else the code is 1 and it
    is not the case that both norms exceed the tolerance: a code 1 of
    the root-finder is accepted only where the reclassification test
    [xerror > local_tol && xerror_scaled > local_tol] has failed. *)
Theorem solveHybrd_true_norm_bound (data : DATA World) :
  snd (solveHybrd data) = true ->
  let s := solverData (fst (solveHybrd data)) in
  let tol := local_tol (snd (solveHybrd_loop data)) in
  1e-12 <= tol <= 1e-10
  /\ (enorm_ (n s) (fvec s) <= tol
      \/ enorm_ (n s) (resScaling s) <= tol
      \/ (info s = 1%Z
          /\ ~ (enorm_ (n s) (fvec s) > tol /\ enorm_ (n s) (resScaling s) > tol))).
Proof.
  intros Hret. cbv zeta.
  rewrite solveHybrd_returns_success in Hret.
  pose proof (solveHybrd_loop_accepted_by_norm data Hret) as Hnorm.
  destruct (solveHybrd_loop_accepted residualFunc _omc_hybrd_ storeRelations data Hret)
    as (Hconv & Hx & Hxs).
  destruct (solveHybrd_loop_budget data) as (Hb & Ht).
  unfold Hybrd.solveHybrd.
  destruct (epilogue_frame (solveHybrd_loop data))
    as (_ & _ & En & _ & Ef & Er & Ei & _).
  cbv zeta in *. rewrite En, Ef, Er, Ei, <- Hx, <- Hxs.
  unfold converged in Hconv.
  revert Hnorm Hconv Hb Ht.
  generalize (info (solverData (fst (solveHybrd_loop data))))
    (snd (solveHybrd_loop data)).
  intros code l Hnorm Hconv Hb Ht.
  unfold in_budget, counters in Hb. destruct Hb as (_ & _ & H3).
  pose proof (tol_after_bounds _ H3) as Hbound. rewrite <- Ht in Hbound.
  split; [exact Hbound|].
  destruct Hconv as [H1|[H|H]]; [|left; exact H|right; left; exact H].
  right. right. split; [exact H1|]. apply Hnorm. exact H1.
Qed.

End BudgetProperties.

(** X2 at Scenario A: [solveHybrd] returns true with the tolerance within
    its bounds. *)
Lemma solveHybrd_true_norm_bound_witness :
  snd (solveHybrd Scenario.residual_shift Scenario.hybrd_converges
         Scenario.store_nothing (Scenario.system1 false)) = true
  /\ (let s := solverData
                 (fst (solveHybrd Scenario.residual_shift Scenario.hybrd_converges
                         Scenario.store_nothing (Scenario.system1 false))) in
      let tol := local_tol
                   (snd (solveHybrd_loop Scenario.residual_shift Scenario.hybrd_converges
                           Scenario.store_nothing (Scenario.system1 false))) in
      1e-12 <= tol <= 1e-10
      /\ (enorm_ (n s) (fvec s) <= tol
          \/ enorm_ (n s) (resScaling s) <= tol
          \/ (info s = 1%Z
              /\ ~ (enorm_ (n s) (fvec s) > tol
                    /\ enorm_ (n s) (resScaling s) > tol)))).
Proof.
  split; [exact solveHybrd_converges|].
  exact (solveHybrd_true_norm_bound Scenario.residual_shift Scenario.hybrd_converges
           Scenario.store_nothing (Scenario.system1 false) solveHybrd_converges).
Defined.

(** ** The parts of a pass in full *)

Section PassEvents.

Context {World : Type}.
Variable residualFunc : DATA World -> list R -> list R * list R * World.
Variable _omc_hybrd_ : DATA World -> HybrdOut World.
Variable storeRelations : DATA World -> World.

Local Abbreviation solve_phase := (solve_phase residualFunc _omc_hybrd_ storeRelations).
Local Abbreviation loop_body := (loop_body residualFunc _omc_hybrd_ storeRelations).
Local Abbreviation classified := (classified residualFunc _omc_hybrd_ storeRelations).
Local Abbreviation branch_taken := (branch_taken residualFunc _omc_hybrd_ storeRelations).

(** The first part of a pass, split at the root-finder call. *)
Lemma solve_phase_steps (data : DATA World) :
  solve_phase data
  = after_hybrd residualFunc storeRelations (n (solverData data))
      (nlsxScaling (systemData data)) (call_hybrd _omc_hybrd_ (hybrd_input data)).
Proof. reflexivity. Qed.

Lemma hybrd_input_frame (data : DATA World) :
  let d := hybrd_input data in
  systemData d = systemData data
  /\ discreteCall (simulationInfo d) = discreteCall (simulationInfo data)
  /\ found_solution (simulationInfo d) = found_solution (simulationInfo data)
  /\ useXScaling (solverData d) = useXScaling (solverData data)
  /\ n (solverData d) = n (solverData data)
  /\ trace d = trace data.
Proof.
  unfold hybrd_input. cbv zeta.
  destruct (useXScaling (solverData data)) eqn:Hu; simpl;
    destruct (negb _); simpl; rewrite ?Hu; repeat split; reflexivity.
Qed.

Lemma after_hybrd_spec (k : nat) (s : list R) (data : DATA World) :
  let d := after_hybrd residualFunc storeRelations k s data in
  let xr := if useXScaling (solverData data)
            then vec_for k (fun i xi => xi * nth i s 0) (x (solverData data))
            else x (solverData data) in
  info (solverData d) = info (solverData data)
  /\ fjacobian (solverData d) = fjacobian (solverData data)
  /\ solveContinuous (simulationInfo d) = false
  /\ found_solution (simulationInfo d)
     = (if (info (solverData data) =? 0)%Z
        then (-1)%Z else found_solution (simulationInfo data))
  /\ trace d
     = trace data
       ++ (if (info (solverData data) =? 0)%Z then [EvPrintError IMPROPER_INPUT] else [])
       ++ (if discreteCall (simulationInfo data)
           then [EvResidual false xr; EvStoreRelations] else [])
  /\ (discreteCall (simulationInfo data) = false ->
      x (solverData d) = xr /\ fvec (solverData d) = fvec (solverData data)).
Proof.
  unfold after_hybrd. cbv zeta.
  set (d1 := set_solveContinuous false data).
  set (d2 := if useXScaling (solverData d1) then _ else d1).
  assert (H2 : simulationInfo d2 = simulationInfo d1
               /\ info (solverData d2) = info (solverData data)
               /\ fjacobian (solverData d2) = fjacobian (solverData data)
               /\ fvec (solverData d2) = fvec (solverData data)
               /\ trace d2 = trace data
               /\ x (solverData d2)
                  = (if useXScaling (solverData data)
                     then vec_for k (fun i xi => xi * nth i s 0) (x (solverData data))
                     else x (solverData data))).
  { subst d2 d1. simpl.
    destruct (useXScaling (solverData data)); simpl; repeat split; reflexivity. }
  clearbody d2. destruct H2 as (Hsi2 & Hi2 & Hj2 & Hf2 & Ht2 & Hx2).
  set (d3 := if (info (solverData d2) =? 0)%Z then _ else d2).
  assert (H3 : discreteCall (simulationInfo d3) = discreteCall (simulationInfo data)
               /\ solveContinuous (simulationInfo d3) = false
               /\ found_solution (simulationInfo d3)
                  = (if (info (solverData data) =? 0)%Z
                     then (-1)%Z else found_solution (simulationInfo data))
               /\ info (solverData d3) = info (solverData data)
               /\ fjacobian (solverData d3) = fjacobian (solverData data)
               /\ fvec (solverData d3) = fvec (solverData data)
               /\ x (solverData d3) = x (solverData d2)
               /\ trace d3
                  = trace data
                    ++ (if (info (solverData data) =? 0)%Z
                        then [EvPrintError IMPROPER_INPUT] else [])).
  { subst d3. rewrite Hi2.
    destruct (info (solverData data) =? 0)%Z; simpl;
      rewrite ?Hsi2, ?Hi2, ?Hj2, ?Hf2, ?Ht2, ?app_nil_r; subst d1; simpl;
      repeat split; reflexivity. }
  clearbody d3. destruct H3 as (Hd3 & Hc3 & Hfs3 & Hi3 & Hj3 & Hf3 & Hx3 & Ht3).
  rewrite Hx2 in Hx3. clear d2 Hsi2 Hi2 Hj2 Hf2 Ht2 Hx2. subst d1.
  rewrite Hd3.
  destruct (discreteCall (simulationInfo data)).
  - destruct (evaluate_with_discontinuities_frame residualFunc storeRelations true d3)
      as (Ei & _ & _ & _ & Einfo & _ & Ej & Et).
    cbv zeta in *. rewrite Ei, Einfo, Ej, Et, Hc3, Hfs3, Hi3, Hj3, Ht3, Hx3.
    rewrite <- app_assoc.
    repeat split; try reflexivity; discriminate.
  - rewrite Hc3, Hfs3, Hi3, Hj3, Ht3, Hx3, Hf3, app_nil_r.
    repeat split; reflexivity.
Qed.

(** The first part of a pass in terms of what the root-finder returns. *)
Lemma solve_phase_result (data : DATA World) :
  let o := _omc_hybrd_ (hybrd_input data) in
  let d := solve_phase data in
  info (solverData d) = out_info o
  /\ fjacobian (solverData d) = out_fjacobian o
  /\ solveContinuous (simulationInfo d) = false
  /\ found_solution (simulationInfo d)
     = (if (out_info o =? 0)%Z then (-1)%Z else found_solution (simulationInfo data))
  /\ trace d
     = trace data
       ++ EvHybrd
          :: (if (out_info o =? 0)%Z then [EvPrintError IMPROPER_INPUT] else [])
          ++ (if discreteCall (simulationInfo data)
              then [EvResidual false (rescaled data (out_x o)); EvStoreRelations]
              else [])
  /\ (discreteCall (simulationInfo data) = false ->
      x (solverData d) = rescaled data (out_x o)
      /\ fvec (solverData d) = out_fvec o).
Proof.
  cbv zeta. rewrite solve_phase_steps.
  destruct (after_hybrd_spec (n (solverData data)) (nlsxScaling (systemData data))
              (call_hybrd _omc_hybrd_ (hybrd_input data)))
    as (Hi & Hj & Hc & Hfs & Ht & Hnd).
  destruct (hybrd_input_frame data) as (_ & Hd & Hf & Hu & _ & Htr).
  cbv zeta in *. rewrite Hi, Hj, Hc, Hfs, Ht. clear Hi Hj Hc Hfs Ht.
  unfold rescaled.
  revert Hnd Hd Hf Hu Htr. generalize (hybrd_input data). intros din Hnd Hd Hf Hu Htr.
  unfold call_hybrd in *. simpl in *. rewrite Hd, Hf, Hu, Htr in *.
  rewrite <- app_assoc. simpl.
  repeat split; try reflexivity; apply Hnd; assumption.
Qed.

Lemma classify_phase_settings (data : DATA World) (l : Locals) :
  mode (solverData (fst (classify_phase (data, l)))) = mode (solverData data)
  /\ factor (solverData (fst (classify_phase (data, l)))) = factor (solverData data)
  /\ x (solverData (fst (classify_phase (data, l)))) = x (solverData data).
Proof.
  unfold classify_phase; cbv zeta.
  match goal with |- context [if ?c then set_info _ _ else _] => destruct c end;
    cbn [fst]; simpl; repeat split; reflexivity.
Qed.

(** What a branch does to the simulation flags, the trace, [mode] and
    [factor]. *)
Lemma run_branch_effects (br : Branch) (data : DATA World) (l : Locals) :
  let d := fst (run_branch br data l) in
  found_solution (simulationInfo d)
  = (match br with NoSolution => (-1)%Z | _ => found_solution (simulationInfo data) end)
  /\ solveContinuous (simulationInfo d) = solveContinuous (simulationInfo data)
  /\ initial (simulationInfo d) = initial (simulationInfo data)
  /\ trace d
     = trace data
       ++ (match br with
           | NoSolution =>
               if initial (simulationInfo data) then [] else [EvPrintError ERROR_AT_TIME]
           | _ => []
           end)
  /\ mode (solverData d) = branch_mode br (mode (solverData data))
  /\ factor (solverData d)
     = branch_factor br (factor (solverData data)) (initial_factor l).
Proof.
  destruct br; cbv zeta; simpl; rewrite ?app_nil_r; try (repeat split; reflexivity).
  destruct (initial (simulationInfo data)) eqn:E; simpl; rewrite ?E, ?app_nil_r;
    repeat split; reflexivity.
Qed.

(** A pass in terms of what the root-finder returns and the branch
    taken. *)
Lemma loop_body_pass (st : DATA World * Locals) :
  let o := _omc_hybrd_ (hybrd_input (fst st)) in
  let br := branch_taken st in
  let d := fst (loop_body st) in
  found_solution (simulationInfo d)
  = (match br with
     | NoSolution => (-1)%Z
     | _ => if (out_info o =? 0)%Z then (-1)%Z
            else found_solution (simulationInfo (fst st))
     end)
  /\ solveContinuous (simulationInfo d) = false
  /\ initial (simulationInfo d) = initial (simulationInfo (fst st))
  /\ trace d
     = trace (fst st)
       ++ EvHybrd
          :: pass_events (out_info o) (discreteCall (simulationInfo (fst st)))
               (rescaled (fst st) (out_x o)) br (initial (simulationInfo (fst st)))
  /\ mode (solverData d) = branch_mode br (mode (solverData (fst st)))
  /\ factor (solverData d)
     = branch_factor br (factor (solverData (fst st))) (initial_factor (snd st))
  /\ info (solverData (solve_phase (fst st))) = out_info o.
Proof.
  cbv zeta. rewrite loop_body_unfold.
  destruct (run_branch_effects (branch_taken st) (fst (classified st)) (snd (classified st)))
    as (Rf & Rc & Ri & Rt & Rm & Rfa).
  destruct (classify_phase_spec (solve_phase (fst st)) (set_giveUp (snd st)))
    as (_ & Csi & Ct & _ & _ & _ & _ & _ & _ & _ & _ & _ & _ & _ & _ & Cif).
  destruct (classify_phase_settings (solve_phase (fst st)) (set_giveUp (snd st)))
    as (Cm & Cfa & _).
  fold (classified st) in Csi, Ct, Cif, Cm, Cfa.
  destruct (solve_phase_frame residualFunc _omc_hybrd_ storeRelations (fst st))
    as (_ & _ & Si & (_ & Sm & Sf & _) & _).
  destruct (solve_phase_result (fst st)) as (Pi & _ & Pc & Pf & Pt & _).
  cbv zeta in *.
  rewrite Rf, Rc, Ri, Rt, Rm, Rfa, Csi, Ct, Cif, Cm, Cfa, Si, Sm, Sf, Pc, Pf, Pt, Pi.
  change (initial_factor (set_giveUp (snd st))) with (initial_factor (snd st)).
  unfold pass_events. rewrite <- !app_assoc. cbn [app]. rewrite <- ?app_assoc.
  repeat split; reflexivity.
Qed.

End PassEvents.

(** ** What the branches mean *)

(** The condition under which each branch of the chain is taken. *)
Lemma select_branch_cases (found : bool) (info r r2 r3 : Z) :
  match select_branch found info r r2 r3 with
  | Solved => found = true
  | NoSolution =>
      found = false /\ (2 <= info <= 5)%Z
      /\ (no_progress info = true -> (5 <= r)%Z /\ (3 <= r2)%Z /\ (7 <= r3)%Z)
  | NoBranch => found = false /\ (info < 2 \/ 5 < info)%Z
  | _ => found = false /\ no_progress info = true
  end.
Proof.
  unfold select_branch. destruct found; [reflexivity|].
  destruct (no_progress info) eqn:E; branch_cases;
    repeat split; try reflexivity; try discriminate; try lia.
Qed.

Lemma no_progress_spec (info : Z) : no_progress info = true <-> (info = 4 \/ info = 5)%Z.
Proof. unfold no_progress. rewrite orb_true_iff, !Z.eqb_eq. tauto. Qed.

Lemma error_reports_app (t t' : list Event) :
  error_reports (t ++ t') = error_reports t ++ error_reports t'.
Proof. unfold error_reports. apply flat_map_app. Qed.

Lemma error_reports_pass (code : Z) (discrete : bool) (v : list R) (br : Branch)
      (init : bool) :
  error_reports (EvHybrd :: pass_events code discrete v br init)
  = (if (code =? 0)%Z then [IMPROPER_INPUT] else [])
    ++ (match br with
        | NoSolution => if init then [] else [ERROR_AT_TIME]
        | _ => []
        end).
Proof.
  unfold pass_events.
  change (EvHybrd :: ?l) with ([EvHybrd] ++ l).
  rewrite !error_reports_app.
  destruct (code =? 0)%Z, discrete, br, init; reflexivity.
Qed.

(** [mode] follows the third-level counter through every branch. *)
Lemma select_branch_mode (found : bool) (info r r2 r3 m0 : Z) :
  (0 <= r3)%Z ->
  let br := select_branch found info r r2 r3 in
  mode_after (snd (branch_counters br (r, r2, r3))) m0 = branch_mode br (mode_after r3 m0).
Proof.
  intros H0. unfold select_branch.
  destruct found; [reflexivity|].
  destruct (no_progress info); branch_cases; cbn [snd branch_mode]; try reflexivity;
    unfold mode_after;
    repeat match goal with
      | |- context [(?a <=? ?b)%Z] => destruct (Z.leb_spec a b); try lia
      | |- context [(?a =? ?b)%Z] => destruct (Z.eqb_spec a b); try lia
      end; reflexivity.
Qed.

(** [factor] follows the first two counters through every branch. *)
Lemma select_branch_factor (found : bool) (info r r2 r3 : Z) (f f0 : R) :
  in_budget (r, r2, r3) ->
  f * 10 ^ factor_exponent r r2 = f0 ->
  let br := select_branch found info r r2 r3 in
  branch_factor br f f0
  * 10 ^ factor_exponent (fst (fst (branch_counters br (r, r2, r3))))
           (snd (fst (branch_counters br (r, r2, r3))))
  = f0.
Proof.
  unfold in_budget. intros (Hr & Hr2 & Hr3) Hf.
  assert (Er : (r = 0 \/ r = 1 \/ r = 2 \/ r = 3 \/ r = 4 \/ r = 5)%Z) by lia.
  assert (Er2 : (r2 = 0 \/ r2 = 1 \/ r2 = 2 \/ r2 = 3)%Z) by lia.
  unfold select_branch.
  destruct found; [exact Hf|].
  destruct (no_progress info);
    [|destruct ((info >=? 2) && (info <=? 5))%Z; exact Hf].
  cbn [andb].
  destruct Er as [E|[E|[E|[E|[E|E]]]]]; subst r;
    destruct Er2 as [E|[E|[E|E]]]; subst r2;
    cbn [Z.ltb Z.compare Pos.compare Pos.compare_cont] in *;
    branch_cases; cbn [branch_factor fst snd];
    repeat match goal with
      | |- context [factor_exponent ?a ?b] =>
          let e := eval vm_compute in (factor_exponent a b) in
          change (factor_exponent a b) with e
      | H : context [factor_exponent ?a ?b] |- _ =>
          let e := eval vm_compute in (factor_exponent a b) in
          change (factor_exponent a b) with e in H
      end;
    cbn [pow] in *; lra.
Qed.

(** ** What [solveHybrd] leaves behind *)

Lemma branch_useXScaling_keeps (br : Branch) (u u0 : bool) :
  br <> DeactivateXScaling ->
  u = true \/ u = u0 ->
  branch_useXScaling br u = true \/ branch_useXScaling br u = u0.
Proof. destruct br; simpl; intros Hne H; auto; contradiction. Qed.

Section ReturnProperties.

Context {World : Type}.
Variable residualFunc : DATA World -> list R -> list R * list R * World.
Variable _omc_hybrd_ : DATA World -> HybrdOut World.
Variable storeRelations : DATA World -> World.

Local Abbreviation solve_phase := (solve_phase residualFunc _omc_hybrd_ storeRelations).
Local Abbreviation loop_body := (loop_body residualFunc _omc_hybrd_ storeRelations).
Local Abbreviation classified := (classified residualFunc _omc_hybrd_ storeRelations).
Local Abbreviation branch_taken := (branch_taken residualFunc _omc_hybrd_ storeRelations).
Local Abbreviation solving_loop := (solving_loop residualFunc _omc_hybrd_ storeRelations).
Local Abbreviation prologue := (prologue residualFunc storeRelations).
Local Abbreviation solveHybrd_loop :=
  (solveHybrd_loop residualFunc _omc_hybrd_ storeRelations).
Local Abbreviation solveHybrd := (solveHybrd residualFunc _omc_hybrd_ storeRelations).

Lemma branch_taken_not_deactivate (st : DATA World * Locals) :
  branch_taken st <> DeactivateXScaling.
Proof. rewrite branch_taken_unfold. apply select_branch_never_deactivates. Qed.

Lemma loop_body_keeps_scaling (st : DATA World * Locals) (u0 : bool) :
  useXScaling (solverData (fst st)) = true \/ useXScaling (solverData (fst st)) = u0 ->
  useXScaling (solverData (fst (loop_body st))) = true
  \/ useXScaling (solverData (fst (loop_body st))) = u0.
Proof.
  intros H. rewrite loop_body_useXScaling.
  apply branch_useXScaling_keeps; [apply branch_taken_not_deactivate|exact H].
Qed.

(** X3. No pass of the solving loop clears [useXScaling]: in every state
    of the loop and on return from [solveHybrd] the flag is set or has the
    value it had on entry, so a solver entered with x-scaling enabled
    never runs, and never returns, with it disabled. *)
Theorem solveHybrd_keeps_x_scaling (data : DATA World) :
  (forall fuel,
     useXScaling (solverData (fst (solving_loop fuel (prologue data)))) = true
     \/ useXScaling (solverData (fst (solving_loop fuel (prologue data))))
        = useXScaling (solverData data))
  /\ (useXScaling (solverData (fst (solveHybrd data))) = true
      \/ useXScaling (solverData (fst (solveHybrd data))) = useXScaling (solverData data)).
Proof.
  assert (H : forall fuel,
             useXScaling (solverData (fst (solving_loop fuel (prologue data)))) = true
             \/ useXScaling (solverData (fst (solving_loop fuel (prologue data))))
                = useXScaling (solverData data)).
  { intros fuel.
    apply (solving_loop_invariant residualFunc _omc_hybrd_ storeRelations
             (fun st => useXScaling (solverData (fst st)) = true
                        \/ useXScaling (solverData (fst st))
                           = useXScaling (solverData data))).
    - intros st Hst _. apply loop_body_keeps_scaling. exact Hst.
    - destruct (prologue_spec residualFunc storeRelations data)
        as (_ & _ & (_ & _ & _ & _ & Hu) & _).
      right. exact Hu. }
  split; [exact H|].
  unfold Hybrd.solveHybrd.
  destruct (epilogue_frame (solveHybrd_loop data)) as (_ & _ & _ & _ & _ & _ & _ & _ & _ & Eu).
  cbv zeta in Eu. rewrite Eu. unfold Hybrd.solveHybrd_loop. apply H.
Qed.

(** After a pass the residual function is back in its mode with
    discontinuities. *)
Lemma loop_body_discrete_mode (st : DATA World * Locals) :
  solveContinuous (simulationInfo (fst (loop_body st))) = false.
Proof.
  destruct (loop_body_pass residualFunc _omc_hybrd_ storeRelations st) as (_ & Hc & _).
  cbv zeta in Hc. exact Hc.
Qed.

Lemma prologue_guard (data : DATA World) : loop_guard (snd (prologue data)) = true.
Proof. reflexivity. Qed.

Lemma solveHybrd_loop_unfold (data : DATA World) :
  solveHybrd_loop data = solving_loop (S (rank (snd (prologue data)))) (prologue data).
Proof. reflexivity. Qed.

Lemma solveHybrd_loop_exits (data : DATA World) :
  loop_guard (snd (solveHybrd_loop data)) = false.
Proof.
  rewrite solveHybrd_loop_unfold. apply solving_loop_exits. apply Nat.lt_succ_diag_r.
Qed.

Lemma solveHybrd_loop_discrete_mode (data : DATA World) :
  solveContinuous (simulationInfo (fst (solveHybrd_loop data))) = false.
Proof.
  assert (H : loop_guard (snd (solveHybrd_loop data)) = true
              \/ solveContinuous (simulationInfo (fst (solveHybrd_loop data))) = false).
  { rewrite solveHybrd_loop_unfold.
    apply (solving_loop_invariant residualFunc _omc_hybrd_ storeRelations
             (fun st => loop_guard (snd st) = true
                        \/ solveContinuous (simulationInfo (fst st)) = false)).
    - intros st _ _. right. apply loop_body_discrete_mode.
    - left. apply prologue_guard. }
  destruct H as [H|H]; [|exact H].
  rewrite solveHybrd_loop_exits in H. discriminate.
Qed.

(** X4. On return from [solveHybrd], whatever happened in the loop, the
    flag [solveContinuous] is 0: it is raised only for the duration of a
    root-finder call. *)
Theorem solveHybrd_returns_in_discrete_mode (data : DATA World) :
  solveContinuous (simulationInfo (fst (solveHybrd data))) = false.
Proof.
  unfold Hybrd.solveHybrd.
  destruct (epilogue_frame (solveHybrd_loop data)) as (Es & _).
  cbv zeta in Es. rewrite Es. apply solveHybrd_loop_discrete_mode.
Qed.

End ReturnProperties.

(** ** The failure flag and the error reports *)

Lemma failure_account_step (found c init : bool) (ic io r r2 r3 fs0 : Z)
      (rep0 : list equationSystemError) :
  ic = (if (io =? 1)%Z && c then 4%Z else io) ->
  (found = false -> ic <> 1%Z) ->
  let br := select_branch found ic r r2 r3 in
  failure_account fs0 init rep0
    (negb (negb (is_retry br)) && negb (match br with Solved => true | _ => false end))
    (match br with Solved => true | _ => false end)
    ic
    (match br with
     | NoSolution => (-1)%Z
     | _ => if (io =? 0)%Z then (-1)%Z else fs0
     end)
    (rep0 ++ (if (io =? 0)%Z then [IMPROPER_INPUT] else [])
          ++ (match br with
              | NoSolution => if init then [] else [ERROR_AT_TIME]
              | _ => []
              end)).
Proof.
  intros Hic Hf br.
  pose proof (select_branch_cases found ic r r2 r3) as Hc. fold br in Hc.
  pose proof (no_progress_spec ic) as Hnp.
  assert (H0 : (io = 0 <-> ic = 0)%Z).
  { destruct (Z.eqb_spec io 1); destruct c; cbn [andb] in Hic; lia. }
  clear Hic. clearbody br. unfold failure_account.
  destruct br; cbn [is_retry negb andb];
    try (match type of Hc with _ /\ no_progress _ = true => idtac end;
         apply proj2 in Hc; apply Hnp in Hc;
         destruct (Z.eqb_spec io 0); [lia|];
         rewrite app_nil_r; split; reflexivity).
  - destruct (Z.eqb_spec io 0), (Z.eqb_spec ic 0); try lia;
      rewrite ?app_nil_r; split; reflexivity.
  - destruct Hc as (Hfd & Hr & _). specialize (Hf Hfd).
    destruct (Z.eqb_spec io 0), (Z.eqb_spec ic 0); try lia.
    destruct (Z.leb_spec 2 ic), (Z.leb_spec ic 5); try lia.
    cbn [andb app]. split; [exact Hf|]. split; reflexivity.
  - destruct Hc as (Hfd & Hr). specialize (Hf Hfd).
    destruct (Z.eqb_spec io 0), (Z.eqb_spec ic 0); try lia;
      rewrite ?app_nil_r; try (split; reflexivity).
    split; [exact Hf|].
    destruct (Z.leb_spec 2 ic), (Z.leb_spec ic 5); try lia;
      cbn [andb]; split; reflexivity.
Qed.

Section FailureAccount.

Context {World : Type}.
Variable residualFunc : DATA World -> list R -> list R * list R * World.
Variable _omc_hybrd_ : DATA World -> HybrdOut World.
Variable storeRelations : DATA World -> World.

Local Abbreviation solve_phase := (solve_phase residualFunc _omc_hybrd_ storeRelations).
Local Abbreviation loop_body := (loop_body residualFunc _omc_hybrd_ storeRelations).
Local Abbreviation classified := (classified residualFunc _omc_hybrd_ storeRelations).
Local Abbreviation branch_taken := (branch_taken residualFunc _omc_hybrd_ storeRelations).
Local Abbreviation solving_loop := (solving_loop residualFunc _omc_hybrd_ storeRelations).
Local Abbreviation prologue := (prologue residualFunc storeRelations).
Local Abbreviation solveHybrd_loop :=
  (solveHybrd_loop residualFunc _omc_hybrd_ storeRelations).
Local Abbreviation solveHybrd := (solveHybrd residualFunc _omc_hybrd_ storeRelations).

Lemma guard_not_success (l : Locals) : loop_guard l = true -> success l = false.
Proof.
  unfold loop_guard. intros H. apply andb_prop in H. destruct H as [_ H].
  apply negb_true_iff in H. exact H.
Qed.

(** Without "solution found" the code in hand is not 1. *)
Lemma classified_not_found (st : DATA World * Locals) :
  solution_found (classified st) = false -> info (solverData (fst (classified st))) <> 1%Z.
Proof.
  intros Hf H1.
  assert (Ht : solution_found (classified st) = true).
  { apply (proj2 (solution_found_converged residualFunc _omc_hybrd_ storeRelations
                    (classified st))). left. exact H1. }
  congruence.
Qed.

Lemma loop_body_account (fs0 : Z) (init : bool) (rep0 : list equationSystemError)
      (st : DATA World * Locals) :
  loop_guard (snd st) = true -> account_of fs0 init rep0 st ->
  account_of fs0 init rep0 (loop_body st).
Proof.
  intros Hg (Hin & Ha). rewrite Hg in Ha. cbn iota in Ha. destruct Ha as [Hfs Hrep].
  pose proof (guard_not_success _ Hg) as Hs.
  destruct (loop_body_pass residualFunc _omc_hybrd_ storeRelations st)
    as (Pf & _ & Pi & Pt & _ & _ & Pio).
  destruct (loop_body_control residualFunc _omc_hybrd_ storeRelations st)
    as (Cs & Cg & _ & _).
  destruct (loop_body_data residualFunc _omc_hybrd_ storeRelations st)
    as (_ & _ & _ & _ & _ & _ & _ & _ & Di & _).
  destruct (classify_phase_spec (solve_phase (fst st)) (set_giveUp (snd st)))
    as (_ & _ & _ & _ & _ & _ & _ & _ & _ & _ & Ci & _).
  fold (classified st) in Ci.
  pose proof (classified_not_found st) as Hnf.
  cbv zeta in *. unfold account_of, loop_guard.
  rewrite Pi, Pf, Pt, Cs, Cg, Di, Hs, Hin, Hfs, error_reports_app, error_reports_pass, Hrep.
  split; [reflexivity|].
  rewrite Pio in Ci. rewrite branch_taken_unfold.
  revert Ci Hnf.
  generalize (solution_found (classified st)) (info (solverData (fst (classified st))))
    (out_info (_omc_hybrd_ (hybrd_input (fst st))))
    (Rgtb (xerror (snd (classified st))) (local_tol (set_giveUp (snd st)))
     && Rgtb (xerror_scaled (snd (classified st))) (local_tol (set_giveUp (snd st)))).
  intros found ic io c Ci Hnf.
  exact (failure_account_step found c init ic io _ _ _ fs0 rep0 Ci Hnf).
Qed.

Lemma solveHybrd_loop_account (data : DATA World) :
  account_of (found_solution (simulationInfo data)) (initial (simulationInfo data))
    (error_reports (trace data)) (solveHybrd_loop data).
Proof.
  rewrite solveHybrd_loop_unfold.
  apply (solving_loop_invariant residualFunc _omc_hybrd_ storeRelations
           (account_of (found_solution (simulationInfo data))
              (initial (simulationInfo data)) (error_reports (trace data)))).
  - intros st Ha Hg. apply loop_body_account; assumption.
  - destruct (prologue_spec residualFunc storeRelations data)
      as (_ & Hsi & _ & Ht & _ & Hg & _).
    cbv zeta in *. unfold account_of. rewrite Hg, Hsi, Ht, error_reports_app.
    cbn [error_reports flat_map app]. rewrite app_nil_r.
    repeat split; reflexivity.
Qed.

(** The account on return: the epilogue touches neither the flags nor the
    trace nor the code. *)
Lemma solveHybrd_account (data : DATA World) :
  failure_account (found_solution (simulationInfo data)) (initial (simulationInfo data))
    (error_reports (trace data)) false (snd (solveHybrd data))
    (info (solverData (fst (solveHybrd data))))
    (found_solution (simulationInfo (fst (solveHybrd data))))
    (error_reports (trace (fst (solveHybrd data)))).
Proof.
  destruct (solveHybrd_loop_account data) as [_ Ha].
  rewrite (solveHybrd_loop_exits residualFunc _omc_hybrd_ storeRelations) in Ha.
  rewrite (solveHybrd_returns_success residualFunc _omc_hybrd_ storeRelations).
  unfold Hybrd.solveHybrd.
  destruct (epilogue_frame (solveHybrd_loop data)) as (Es & Et & _ & _ & _ & _ & Ei & _).
  cbv zeta in Es, Et, Ei. rewrite Es, Et, Ei. exact Ha.
Qed.

(** X5. The failure flag [found_solution] on return from [solveHybrd] is
    decided by the result and the last code [info]: it is -1 when the
    last code is 0, and when false is returned with a last code from 2 to
    5; it has the value it had on entry when true is returned with a code
    other than 0, and also when false is returned with a last code below
    0 or above 5, a failure that leaves no mark in the flag.  False is
    never returned with a last code 1. *)
Theorem solveHybrd_found_solution (data : DATA World) :
  let r := solveHybrd data in
  let code := info (solverData (fst r)) in
  let fs := found_solution (simulationInfo (fst r)) in
  let fs0 := found_solution (simulationInfo data) in
  (code = 0%Z -> fs = (-1)%Z)
  /\ (snd r = true -> code <> 0%Z -> fs = fs0)
  /\ (snd r = false ->
      code <> 1%Z
      /\ ((2 <= code <= 5)%Z -> fs = (-1)%Z)
      /\ ((code < 0 \/ 5 < code)%Z -> fs = fs0)).
Proof.
  cbv zeta. pose proof (solveHybrd_account data) as Ha. revert Ha.
  generalize (found_solution (simulationInfo data)) (initial (simulationInfo data))
    (error_reports (trace data)) (snd (solveHybrd data))
    (info (solverData (fst (solveHybrd data))))
    (found_solution (simulationInfo (fst (solveHybrd data))))
    (error_reports (trace (fst (solveHybrd data)))).
  intros fs0 init rep0 ok code fs rep. unfold failure_account.
  destruct (Z.eqb_spec code 0) as [E|E].
  - intros [Hfs _]. repeat split; intros; try assumption; lia.
  - destruct ok.
    + intros [Hfs _]. repeat split; intros; try assumption; try lia; discriminate.
    + destruct (Z.leb_spec 2 code), (Z.leb_spec code 5); cbn [andb];
        intros (H1 & Hfs & _); repeat split; intros; try assumption; try lia;
        discriminate.
Qed.

(** X6. A call of [solveHybrd] adds at most one error report
    ([printErrorEqSyst]) to those made before: the improper-input report
    exactly when the last code is 0; the no-solution report exactly when
    false is returned with a last code from 2 to 5 outside the
    initialization; none otherwise, so that a false return with a code
    below 0 or above 5, or during the initialization, is silent. *)
Theorem solveHybrd_error_reports (data : DATA World) :
  let r := solveHybrd data in
  let code := info (solverData (fst r)) in
  error_reports (trace (fst r))
  = error_reports (trace data)
    ++ (if (code =? 0)%Z then [IMPROPER_INPUT]
        else if negb (snd r) && ((2 <=? code) && (code <=? 5))%Z
                && negb (initial (simulationInfo data))
             then [ERROR_AT_TIME] else []).
Proof.
  cbv zeta. pose proof (solveHybrd_account data) as Ha. revert Ha.
  generalize (found_solution (simulationInfo data)) (initial (simulationInfo data))
    (error_reports (trace data)) (snd (solveHybrd data))
    (info (solverData (fst (solveHybrd data))))
    (found_solution (simulationInfo (fst (solveHybrd data))))
    (error_reports (trace (fst (solveHybrd data)))).
  intros fs0 init rep0 ok code fs rep. unfold failure_account.
  destruct (code =? 0)%Z.
  - intros [_ Hrep]. exact Hrep.
  - destruct ok; cbn [negb andb].
    + intros [_ Hrep]. rewrite app_nil_r. exact Hrep.
    + destruct ((2 <=? code) && (code <=? 5))%Z; cbn [andb];
        intros (_ & _ & Hrep); destruct init; cbn [negb];
        rewrite ?app_nil_r in *; exact Hrep.
Qed.

End FailureAccount.

(** ** The evaluations with discontinuities *)

Lemma store_calls_app (t t' : list Event) :
  store_calls (t ++ t') = (store_calls t + store_calls t')%nat.
Proof. unfold store_calls. rewrite filter_app, length_app. reflexivity. Qed.

Lemma residual_calls_app (t t' : list Event) :
  residual_calls (t ++ t') = (residual_calls t + residual_calls t')%nat.
Proof. unfold residual_calls. rewrite filter_app, length_app. reflexivity. Qed.

(** What a pass adds to the three counts. *)
Lemma pass_events_calls (code : Z) (discrete : bool) (v : list R) (br : Branch)
      (init : bool) :
  let t := EvHybrd :: pass_events code discrete v br init in
  hybrd_calls t = 1%nat
  /\ store_calls t = (if discrete then 1 else 0)%nat
  /\ residual_calls t = (if discrete then 1 else 0)%nat.
Proof.
  cbv zeta. unfold pass_events.
  destruct (code =? 0)%Z, discrete, br, init; repeat split; reflexivity.
Qed.

Section Evaluations.

Context {World : Type}.
Variable residualFunc : DATA World -> list R -> list R * list R * World.
Variable _omc_hybrd_ : DATA World -> HybrdOut World.
Variable storeRelations : DATA World -> World.

Local Abbreviation loop_body := (loop_body residualFunc _omc_hybrd_ storeRelations).
Local Abbreviation solving_loop := (solving_loop residualFunc _omc_hybrd_ storeRelations).
Local Abbreviation prologue := (prologue residualFunc storeRelations).
Local Abbreviation solveHybrd_loop :=
  (solveHybrd_loop residualFunc _omc_hybrd_ storeRelations).
Local Abbreviation solveHybrd := (solveHybrd residualFunc _omc_hybrd_ storeRelations).

Lemma loop_body_calls (st : DATA World * Locals) :
  let t := trace (fst st) in
  let t' := trace (fst (loop_body st)) in
  let k := (if discreteCall (simulationInfo (fst st)) then 1 else 0)%nat in
  hybrd_calls t' = S (hybrd_calls t)
  /\ store_calls t' = (store_calls t + k)%nat
  /\ residual_calls t' = (residual_calls t + k)%nat
  /\ discreteCall (simulationInfo (fst (loop_body st)))
     = discreteCall (simulationInfo (fst st)).
Proof.
  destruct (loop_body_pass residualFunc _omc_hybrd_ storeRelations st)
    as (_ & _ & _ & Pt & _).
  destruct (loop_body_data residualFunc _omc_hybrd_ storeRelations st)
    as (_ & Dd & _).
  cbv zeta in *. rewrite Pt, Dd, hybrd_calls_app, store_calls_app, residual_calls_app.
  match goal with |- context [EvHybrd :: pass_events ?c ?d ?v ?b ?i] =>
    destruct (pass_events_calls c d v b i) as (Hh & Hs & Hr) end.
  cbv zeta in *. rewrite Hh, Hs, Hr. repeat split; try reflexivity. lia.
Qed.

Lemma solveHybrd_loop_calls (data : DATA World) :
  let t0 := trace data in
  let t := trace (fst (solveHybrd_loop data)) in
  exists k : nat,
    hybrd_calls t = (hybrd_calls t0 + k)%nat
    /\ store_calls t
       = (store_calls t0 + (if discreteCall (simulationInfo data) then k else 0))%nat
    /\ residual_calls t
       = (residual_calls t0 + 1
          + (if discreteCall (simulationInfo data) then k else 0))%nat.
Proof.
  cbv zeta. rewrite solveHybrd_loop_unfold.
  assert (H : discreteCall (simulationInfo
                              (fst (solving_loop (S (rank (snd (prologue data))))
                                      (prologue data))))
              = discreteCall (simulationInfo data)
              /\ exists k : nat,
                hybrd_calls (trace (fst (solving_loop (S (rank (snd (prologue data))))
                                           (prologue data))))
                = (hybrd_calls (trace data) + k)%nat
                /\ store_calls (trace (fst (solving_loop (S (rank (snd (prologue data))))
                                              (prologue data))))
                   = (store_calls (trace data)
                      + (if discreteCall (simulationInfo data) then k else 0))%nat
                /\ residual_calls (trace (fst (solving_loop (S (rank (snd (prologue data))))
                                                 (prologue data))))
                   = (residual_calls (trace data) + 1
                      + (if discreteCall (simulationInfo data) then k else 0))%nat).
  { apply (solving_loop_invariant residualFunc _omc_hybrd_ storeRelations
             (fun st =>
                discreteCall (simulationInfo (fst st)) = discreteCall (simulationInfo data)
                /\ exists k : nat,
                  hybrd_calls (trace (fst st)) = (hybrd_calls (trace data) + k)%nat
                  /\ store_calls (trace (fst st))
                     = (store_calls (trace data)
                        + (if discreteCall (simulationInfo data) then k else 0))%nat
                  /\ residual_calls (trace (fst st))
                     = (residual_calls (trace data) + 1
                        + (if discreteCall (simulationInfo data) then k else 0))%nat)).
    - intros st (Hd & k & Hh & Hs & Hr) _.
      destruct (loop_body_calls st) as (Lh & Ls & Lr & Ld).
      cbv zeta in *. rewrite Ld, Lh, Ls, Lr, Hh, Hs, Hr, Hd.
      split; [reflexivity|]. exists (S k).
      destruct (discreteCall (simulationInfo data)); repeat split; lia.
    - destruct (prologue_spec residualFunc storeRelations data)
        as (_ & Hsi & _ & Ht & _).
      cbv zeta in *. rewrite Hsi, Ht, hybrd_calls_app, store_calls_app, residual_calls_app.
      split; [reflexivity|]. exists 0%nat.
      unfold hybrd_calls at 2, store_calls at 2, residual_calls at 2.
      cbn [filter length].
      destruct (discreteCall (simulationInfo data)); repeat split; lia. }
  exact (proj2 H).
Qed.

(** X7. In a call of [solveHybrd] the residual function is evaluated
    directly (outside the root-finder) once before the loop and, when
    [discreteCall] is set, once more after every root-finder call, each
    of those followed by one call of [storeRelations]; when
    [discreteCall] is not set the passes make no direct evaluation and
    [storeRelations] is never called. *)
Theorem solveHybrd_evaluations (data : DATA World) :
  let t0 := trace data in
  let t := trace (fst (solveHybrd data)) in
  let calls := (hybrd_calls t - hybrd_calls t0)%nat in
  let per_call := (if discreteCall (simulationInfo data) then calls else 0)%nat in
  residual_calls t = (residual_calls t0 + 1 + per_call)%nat
  /\ store_calls t = (store_calls t0 + per_call)%nat.
Proof.
  cbv zeta. rewrite (solveHybrd_trace residualFunc _omc_hybrd_ storeRelations).
  destruct (solveHybrd_loop_calls data) as (k & Hh & Hs & Hr).
  cbv zeta in *. rewrite Hh, Hs, Hr.
  replace (hybrd_calls (trace data) + k - hybrd_calls (trace data))%nat with k by lia.
  split; reflexivity.
Qed.

End Evaluations.

(** ** When the loop goes on *)

(** A retry branch is taken exactly when nothing is found, the code is 4
    or 5 and one of the counters is below its limit. *)
Lemma select_branch_retry_iff (found : bool) (info r r2 r3 : Z) :
  is_retry (select_branch found info r r2 r3) = true
  <-> found = false /\ (info = 4 \/ info = 5)%Z
      /\ ~ (5 <= r /\ 3 <= r2 /\ 7 <= r3)%Z.
Proof.
  rewrite <- no_progress_spec. unfold select_branch.
  destruct found; [cbn [is_retry]; split; [discriminate|intros (H & _); discriminate]|].
  destruct (no_progress info); branch_cases;
    (split; [intros Hret; try discriminate; repeat split; lia
            |intros (_ & Hn & Hc); try reflexivity; try discriminate; exfalso; lia]).
Qed.

Lemma is_retry_not_solved (br : Branch) :
  negb (negb (is_retry br)) && negb (match br with Solved => true | _ => false end)
  = is_retry br.
Proof. destruct br; reflexivity. Qed.

Section Continuation.

Context {World : Type}.
Variable residualFunc : DATA World -> list R -> list R * list R * World.
Variable _omc_hybrd_ : DATA World -> HybrdOut World.
Variable storeRelations : DATA World -> World.

Local Abbreviation solve_phase := (solve_phase residualFunc _omc_hybrd_ storeRelations).
Local Abbreviation loop_body := (loop_body residualFunc _omc_hybrd_ storeRelations).
Local Abbreviation classified := (classified residualFunc _omc_hybrd_ storeRelations).
Local Abbreviation branch_taken := (branch_taken residualFunc _omc_hybrd_ storeRelations).

(** The loop condition after a pass entered under it. *)
Lemma loop_body_guard (st : DATA World * Locals) :
  loop_guard (snd st) = true ->
  loop_guard (snd (loop_body st)) = is_retry (branch_taken st).
Proof.
  intros Hg. pose proof (guard_not_success _ Hg) as Hs.
  destruct (loop_body_control residualFunc _omc_hybrd_ storeRelations st)
    as (Cs & Cg & _ & _).
  cbv zeta in *. unfold loop_guard. rewrite Cs, Cg, Hs.
  apply is_retry_not_solved.
Qed.

(** X8. A pass entered under the loop condition is followed by another
    one exactly when the code in hand after the reclassification is 4 or
    5, neither of the tests [xerror <= local_tol] and [xerror_scaled <=
    local_tol] holds, and the three retry counters have not all reached
    their limits 5, 3 and 7.  With any other code (0, 2, 3, a negative
    one) the loop is left after the pass, whatever retries remain. *)
Theorem loop_body_continues_iff (st : DATA World * Locals) :
  loop_guard (snd st) = true ->
  let st' := loop_body st in
  loop_guard (snd st') = true
  <-> ((info (solverData (fst st')) = 4 \/ info (solverData (fst st')) = 5)%Z
       /\ ~ xerror (snd st') <= local_tol (snd st)
       /\ ~ xerror_scaled (snd st') <= local_tol (snd st)
       /\ ~ (5 <= retries (snd st) /\ 3 <= retries2 (snd st) /\ 7 <= retries3 (snd st))%Z).
Proof.
  intros Hg. cbv zeta. rewrite (loop_body_guard st Hg).
  destruct (loop_body_data residualFunc _omc_hybrd_ storeRelations st)
    as (_ & _ & _ & _ & _ & _ & _ & _ & Di & Dx & Dxs & _).
  destruct (classified_control residualFunc _omc_hybrd_ storeRelations st) as [Ct _].
  pose proof (solution_found_converged residualFunc _omc_hybrd_ storeRelations
                (classified st)) as Hconv.
  cbv zeta in *. rewrite Ct in Hconv. unfold converged in Hconv.
  rewrite Di, Dx, Dxs, branch_taken_unfold, select_branch_retry_iff.
  revert Hconv.
  generalize (solution_found (classified st)) (info (solverData (fst (classified st))))
    (xerror (snd (classified st))) (xerror_scaled (snd (classified st)))
    (local_tol (snd st)) (retries (snd st)) (retries2 (snd st)) (retries3 (snd st)).
  intros found ic xe xs tol r r2 r3 Hconv.
  split.
  - intros (Hf & Hi & Hc). repeat split; try assumption.
    + intros Hle.
      assert (found = true) by (apply Hconv; right; left; exact Hle). congruence.
    + intros Hle.
      assert (found = true) by (apply Hconv; right; right; exact Hle). congruence.
  - intros (Hi & Hx & Hxs & Hc). repeat split; try assumption.
    destruct found; [|reflexivity].
    destruct (proj1 Hconv eq_refl) as [H|[H|H]]; [lia|contradiction|contradiction].
Qed.

End Continuation.

(** X8 at the first pass of a stalling root-finder on Scenario C's
    system. *)
Lemma loop_body_continues_iff_witness :
  loop_guard (snd (Scenario.system1 false, Scenario.locals1)) = true
  /\ (let st := (Scenario.system1 false, Scenario.locals1) in
      let st' := loop_body Scenario.residual_const Scenario.hybrd_stalls
                   Scenario.store_nothing st in
      loop_guard (snd st') = true
      <-> ((info (solverData (fst st')) = 4 \/ info (solverData (fst st')) = 5)%Z
           /\ ~ xerror (snd st') <= local_tol (snd st)
           /\ ~ xerror_scaled (snd st') <= local_tol (snd st)
           /\ ~ (5 <= retries (snd st) /\ 3 <= retries2 (snd st)
                 /\ 7 <= retries3 (snd st))%Z)).
Proof.
  split; [reflexivity|].
  exact (loop_body_continues_iff Scenario.residual_const Scenario.hybrd_stalls
           Scenario.store_nothing (Scenario.system1 false, Scenario.locals1) eq_refl).
Defined.

(** ** The settings the root-finder is run with *)

Lemma factor_exponent_bound (r r2 : Z) :
  (0 <= r2 <= 3)%Z -> (factor_exponent r r2 <= 9)%nat.
Proof.
  intros H. unfold factor_exponent.
  assert (E : (r2 = 0 \/ r2 = 1 \/ r2 = 2 \/ r2 = 3)%Z) by lia.
  destruct E as [E|[E|[E|E]]]; subst r2; cbn [Z.eqb orb Pos.eqb]; lia.
Qed.

(** [factor] through a pass. *)
Lemma factor_step (l l' : Locals) (found : bool) (info : Z) (f f' f0 : R) :
  budget_state l ->
  counters l'
  = branch_counters (select_branch found info (retries l) (retries2 l) (retries3 l))
      (counters l) ->
  f' = branch_factor (select_branch found info (retries l) (retries2 l) (retries3 l)) f f0 ->
  f * 10 ^ factor_exponent (retries l) (retries2 l) = f0 ->
  f' * 10 ^ factor_exponent (retries l') (retries2 l') = f0.
Proof.
  intros (Hb & _) Hc Hf' Hf.
  change (retries l') with (fst (fst (counters l'))).
  change (retries2 l') with (snd (fst (counters l'))).
  rewrite Hc, Hf'. unfold counters at 1 2.
  apply (select_branch_factor found info _ _ _ f f0 Hb Hf).
Qed.

(** [mode] and [useXScaling] through a pass. *)
Lemma select_branch_scaling_on (found : bool) (info r r2 r3 : Z) (u : bool) :
  (0 <= r3)%Z ->
  ((1 <= r3)%Z -> u = true) ->
  let br := select_branch found info r r2 r3 in
  (1 <= snd (branch_counters br (r, r2, r3)))%Z -> branch_useXScaling br u = true.
Proof.
  intros H0 Hu. unfold select_branch.
  destruct found; [exact Hu|].
  destruct (no_progress info); branch_cases; cbn [snd branch_useXScaling];
    intros Hr3; try reflexivity; try (apply Hu; exact Hr3); lia.
Qed.

Lemma settings_step (l l' : Locals) (found : bool) (info m m' m0 : Z) (u u' : bool) :
  (0 <= retries3 l)%Z ->
  counters l'
  = branch_counters (select_branch found info (retries l) (retries2 l) (retries3 l))
      (counters l) ->
  m' = branch_mode (select_branch found info (retries l) (retries2 l) (retries3 l)) m ->
  u' = branch_useXScaling
         (select_branch found info (retries l) (retries2 l) (retries3 l)) u ->
  m = mode_after (retries3 l) m0 /\ ((1 <= retries3 l)%Z -> u = true) ->
  m' = mode_after (retries3 l') m0 /\ ((1 <= retries3 l')%Z -> u' = true).
Proof.
  intros H0 Hc Hm' Hu' (Hm & Hu).
  change (retries3 l') with (snd (counters l')).
  rewrite Hc, Hm', Hu', Hm. unfold counters.
  split.
  - symmetry. apply (select_branch_mode found info _ _ _ m0 H0).
  - apply (select_branch_scaling_on found info _ _ _ u H0 Hu).
Qed.

Section Settings.

Context {World : Type}.
Variable residualFunc : DATA World -> list R -> list R * list R * World.
Variable _omc_hybrd_ : DATA World -> HybrdOut World.
Variable storeRelations : DATA World -> World.

Local Abbreviation solve_phase := (solve_phase residualFunc _omc_hybrd_ storeRelations).
Local Abbreviation loop_body := (loop_body residualFunc _omc_hybrd_ storeRelations).
Local Abbreviation classified := (classified residualFunc _omc_hybrd_ storeRelations).
Local Abbreviation branch_taken := (branch_taken residualFunc _omc_hybrd_ storeRelations).
Local Abbreviation solving_loop := (solving_loop residualFunc _omc_hybrd_ storeRelations).
Local Abbreviation prologue := (prologue residualFunc storeRelations).
Local Abbreviation solveHybrd_loop :=
  (solveHybrd_loop residualFunc _omc_hybrd_ storeRelations).
Local Abbreviation solveHybrd := (solveHybrd residualFunc _omc_hybrd_ storeRelations).

(** The state on entry to the loop satisfies the budget. *)
Lemma prologue_budget (data : DATA World) : budget_state (snd (prologue data)).
Proof.
  destruct (prologue_spec residualFunc storeRelations data)
    as (_ & _ & _ & _ & Hc & _ & Ht & _).
  cbv zeta in *. unfold budget_state. rewrite Hc, Ht.
  split; [unfold in_budget; lia|].
  change (retries3 (snd (prologue data))) with 0%Z.
  rewrite tol_after_low by lia. reflexivity.
Qed.

Lemma loop_body_factor (f0 : R) (st : DATA World * Locals) :
  budget_state (snd st) ->
  initial_factor (snd st) = f0 ->
  factor (solverData (fst st))
  * 10 ^ factor_exponent (retries (snd st)) (retries2 (snd st)) = f0 ->
  initial_factor (snd (loop_body st)) = f0
  /\ factor (solverData (fst (loop_body st)))
     * 10 ^ factor_exponent (retries (snd (loop_body st))) (retries2 (snd (loop_body st)))
     = f0.
Proof.
  intros Hb Hi Hf.
  destruct (loop_body_pass residualFunc _omc_hybrd_ storeRelations st)
    as (_ & _ & _ & _ & _ & Pf & _).
  destruct (loop_body_control residualFunc _omc_hybrd_ storeRelations st)
    as (_ & _ & Cc & _).
  destruct (loop_body_data residualFunc _omc_hybrd_ storeRelations st)
    as (_ & _ & _ & _ & _ & _ & _ & _ & _ & _ & _ & _ & Di).
  cbv zeta in *. rewrite Hi in Pf. rewrite branch_taken_unfold in Cc, Pf.
  split; [rewrite Di; exact Hi|].
  exact (factor_step _ _ _ _ _ _ _ Hb Cc Pf Hf).
Qed.

Lemma loop_body_settings (m0 : Z) (st : DATA World * Locals) :
  (0 <= retries3 (snd st))%Z ->
  mode (solverData (fst st)) = mode_after (retries3 (snd st)) m0
  /\ ((1 <= retries3 (snd st))%Z -> useXScaling (solverData (fst st)) = true) ->
  mode (solverData (fst (loop_body st))) = mode_after (retries3 (snd (loop_body st))) m0
  /\ ((1 <= retries3 (snd (loop_body st)))%Z ->
      useXScaling (solverData (fst (loop_body st))) = true).
Proof.
  intros H0 Hs.
  destruct (loop_body_pass residualFunc _omc_hybrd_ storeRelations st)
    as (_ & _ & _ & _ & Pm & _).
  destruct (loop_body_control residualFunc _omc_hybrd_ storeRelations st)
    as (_ & _ & Cc & _).
  pose proof (loop_body_useXScaling residualFunc _omc_hybrd_ storeRelations st) as Pu.
  cbv zeta in *. rewrite branch_taken_unfold in Cc, Pm, Pu.
  exact (settings_step _ _ _ _ _ _ _ _ _ H0 Cc Pm Pu Hs).
Qed.

(** The invariant of the loop that the schedules rest on. *)
Lemma solving_loop_settings (data : DATA World) (fuel : nat) :
  let st := solving_loop fuel (prologue data) in
  budget_state (snd st)
  /\ (initial_factor (snd st) = factor (solverData data)
      /\ factor (solverData (fst st))
         * 10 ^ factor_exponent (retries (snd st)) (retries2 (snd st))
         = factor (solverData data))
  /\ (mode (solverData (fst st)) = mode_after (retries3 (snd st)) (mode (solverData data))
      /\ ((1 <= retries3 (snd st))%Z -> useXScaling (solverData (fst st)) = true)).
Proof.
  cbv zeta.
  apply (solving_loop_invariant residualFunc _omc_hybrd_ storeRelations
           (fun st =>
              budget_state (snd st)
              /\ (initial_factor (snd st) = factor (solverData data)
                  /\ factor (solverData (fst st))
                     * 10 ^ factor_exponent (retries (snd st)) (retries2 (snd st))
                     = factor (solverData data))
              /\ (mode (solverData (fst st))
                  = mode_after (retries3 (snd st)) (mode (solverData data))
                  /\ ((1 <= retries3 (snd st))%Z ->
                      useXScaling (solverData (fst st)) = true)))).
  - intros st (Hb & (Hi & Hf) & Hs) _.
    split; [apply (loop_body_budget residualFunc _omc_hybrd_ storeRelations); exact Hb|].
    split; [apply (loop_body_factor _ st Hb Hi Hf)|].
    apply loop_body_settings; [|exact Hs].
    destruct Hb as [Hb _]. unfold in_budget, counters in Hb. lia.
  - split; [apply prologue_budget|].
    destruct (prologue_spec residualFunc storeRelations data)
      as (_ & _ & (_ & Hm & Hf & _) & _ & _ & _ & _ & Hi).
    cbv zeta in *. rewrite Hi, Hf, Hm.
    change (retries (snd (prologue data))) with 0%Z.
    change (retries2 (snd (prologue data))) with 0%Z.
    change (retries3 (snd (prologue data))) with 0%Z.
    split; [split; [reflexivity|]|split; [reflexivity|intros H; lia]].
    change (factor_exponent 0 0) with 0%nat. cbn [pow]. lra.
Qed.

(** X9. In every state of the solving loop, [factor] is its value on
    entry divided by [10 ^ e], where [e] counts the "decrease factor"
    retries since [factor] was last put back: up to 3 for each start,
    carried over the first two restarts, which leave [factor] as it is.
    So [e] is at most 9: the root-finder is run with step bounds down to
    [1e-9] times the configured one. *)
Theorem solveHybrd_factor_schedule (data : DATA World) (fuel : nat) :
  let st := solving_loop fuel (prologue data) in
  let e := factor_exponent (retries (snd st)) (retries2 (snd st)) in
  factor (solverData (fst st)) * 10 ^ e = factor (solverData data)
  /\ (e <= 9)%nat.
Proof.
  cbv zeta.
  destruct (solving_loop_settings data fuel) as ((Hb & _) & (_ & Hf) & _).
  cbv zeta in *. split; [exact Hf|].
  apply factor_exponent_bound. unfold in_budget, counters in Hb. lia.
Qed.

(** X10. In every state of the solving loop, [mode] is decided by its
    value on entry and by the number [retries3] of third-level changes
    made: the value on entry before the first, 2 after the first, 1
    after the second to the fourth, 2 from the fifth on; and after the
    first the x-scaling is on.  [solveHybrd] returns with the [mode] of
    the state in which the loop was left: unlike [factor], it is not put
    back. *)
Theorem solveHybrd_mode_schedule (data : DATA World) :
  (forall fuel,
     let st := solving_loop fuel (prologue data) in
     mode (solverData (fst st))
     = (if (retries3 (snd st) <=? 0)%Z then mode (solverData data)
        else if ((retries3 (snd st) =? 1) || (5 <=? retries3 (snd st)))%Z then 2%Z
             else 1%Z)
     /\ ((1 <= retries3 (snd st))%Z -> useXScaling (solverData (fst st)) = true))
  /\ (let r3 := retries3 (snd (solveHybrd_loop data)) in
      mode (solverData (fst (solveHybrd data)))
      = (if (r3 <=? 0)%Z then mode (solverData data)
         else if ((r3 =? 1) || (5 <=? r3))%Z then 2%Z else 1%Z)).
Proof.
  split.
  - intros fuel. destruct (solving_loop_settings data fuel) as (_ & _ & Hs).
    exact Hs.
  - cbv zeta. unfold Hybrd.solveHybrd.
    destruct (epilogue_frame (solveHybrd_loop data))
      as (_ & _ & _ & _ & _ & _ & _ & Em & _).
    cbv zeta in Em. rewrite Em, solveHybrd_loop_unfold.
    generalize (solving_loop_settings data (S (rank (snd (prologue data))))).
    generalize (solving_loop (S (rank (snd (prologue data)))) (prologue data)).
    intros st (_ & _ & Hs & _). exact Hs.
Qed.

End Settings.

(** ** The cost of giving up *)

Lemma branch_counters_not_retry (br : Branch) (c : Z * Z * Z) :
  is_retry br = false -> branch_counters br c = c.
Proof. destruct c as [[r r2] r3]. destruct br; simpl; intros H; congruence. Qed.

(** How a pass can end. *)
Lemma exhaustion_step (found : bool) (ic r r2 r3 : Z) :
  let br := select_branch found ic r r2 r3 in
  is_retry br = true
  \/ (is_retry br = false
      /\ (br = Solved \/ no_progress ic = false \/ rank_of (r, r2, r3) = 0%nat)).
Proof.
  cbv zeta. pose proof (select_branch_cases found ic r r2 r3) as Hc.
  pose proof (no_progress_spec ic) as Hnp.
  destruct (select_branch found ic r r2 r3); cbn [is_retry]; auto; right;
    (split; [reflexivity|]).
  - destruct Hc as (_ & _ & Hc). destruct (no_progress ic); [|auto].
    right. right. specialize (Hc eq_refl). unfold rank_of. lia.
  - destruct Hc as (_ & Hc). right. left.
    destruct (no_progress ic); [|reflexivity].
    destruct (proj1 Hnp eq_refl); lia.
Qed.

Lemma rank_of_zero (r r2 r3 : Z) :
  in_budget (r, r2, r3) -> rank_of (r, r2, r3) = 0%nat -> (r, r2, r3) = (5, 3, 7)%Z.
Proof.
  unfold in_budget, rank_of. intros (Hr & Hr2 & Hr3) H.
  assert (r = 5 /\ r2 = 3 /\ r3 = 7)%Z as (-> & -> & ->) by lia. reflexivity.
Qed.

Section GivingUp.

Context {World : Type}.
Variable residualFunc : DATA World -> list R -> list R * list R * World.
Variable _omc_hybrd_ : DATA World -> HybrdOut World.
Variable storeRelations : DATA World -> World.

Local Abbreviation solve_phase := (solve_phase residualFunc _omc_hybrd_ storeRelations).
Local Abbreviation loop_body := (loop_body residualFunc _omc_hybrd_ storeRelations).
Local Abbreviation classified := (classified residualFunc _omc_hybrd_ storeRelations).
Local Abbreviation branch_taken := (branch_taken residualFunc _omc_hybrd_ storeRelations).
Local Abbreviation solving_loop := (solving_loop residualFunc _omc_hybrd_ storeRelations).
Local Abbreviation prologue := (prologue residualFunc storeRelations).
Local Abbreviation solveHybrd_loop :=
  (solveHybrd_loop residualFunc _omc_hybrd_ storeRelations).
Local Abbreviation solveHybrd := (solveHybrd residualFunc _omc_hybrd_ storeRelations).

(** A pass that takes no retry branch leaves the counters alone. *)
Lemma loop_body_last (st : DATA World * Locals) :
  loop_guard (snd st) = true ->
  loop_guard (snd (loop_body st)) = false ->
  counters (snd (loop_body st)) = counters (snd st)
  /\ (success (snd (loop_body st)) = true
      \/ no_progress (info (solverData (fst (loop_body st)))) = false
      \/ rank (snd st) = 0%nat).
Proof.
  intros Hg Hg'. rewrite (loop_body_guard residualFunc _omc_hybrd_ storeRelations st Hg) in Hg'.
  destruct (loop_body_control residualFunc _omc_hybrd_ storeRelations st)
    as (Cs & _ & Cc & _).
  destruct (loop_body_data residualFunc _omc_hybrd_ storeRelations st)
    as (_ & _ & _ & _ & _ & _ & _ & _ & Di & _).
  cbv zeta in *. rewrite Cs, Cc, Di, rank_counters. unfold counters at 3.
  rewrite branch_taken_unfold in *.
  revert Hg'.
  pose proof (exhaustion_step (solution_found (classified st))
                (info (solverData (fst (classified st))))
                (retries (snd st)) (retries2 (snd st)) (retries3 (snd st))) as He.
  cbv zeta in He. revert He.
  generalize (select_branch (solution_found (classified st))
                (info (solverData (fst (classified st))))
                (retries (snd st)) (retries2 (snd st)) (retries3 (snd st))).
  intros br He Hg'.
  split; [apply branch_counters_not_retry; exact Hg'|].
  destruct He as [He|(_ & [He|[He|He]])]; [congruence|left|right; left|right; right].
  - subst br. reflexivity.
  - exact He.
  - exact He.
Qed.

(** Every pass costs one root-finder call, every retry branch one unit
    of rank. *)
Lemma solving_loop_account (data : DATA World) (fuel : nat) :
  let st := solving_loop fuel (prologue data) in
  (hybrd_calls (trace (fst st)) + rank (snd st)
   + (if loop_guard (snd st) then 1 else 0)
   = hybrd_calls (trace data) + 192)%nat
  /\ (loop_guard (snd st) = true
      \/ success (snd st) = true
      \/ no_progress (info (solverData (fst st))) = false
      \/ rank (snd st) = 0%nat).
Proof.
  cbv zeta.
  apply (solving_loop_invariant residualFunc _omc_hybrd_ storeRelations
           (fun st =>
              (hybrd_calls (trace (fst st)) + rank (snd st)
               + (if loop_guard (snd st) then 1 else 0)
               = hybrd_calls (trace data) + 192)%nat
              /\ (loop_guard (snd st) = true
                  \/ success (snd st) = true
                  \/ no_progress (info (solverData (fst st))) = false
                  \/ rank (snd st) = 0%nat))).
  - intros st (Hc & _) Hg. rewrite Hg in Hc.
    destruct (loop_body_data residualFunc _omc_hybrd_ storeRelations st)
      as (_ & _ & _ & _ & _ & _ & _ & _ & _ & _ & _ & Dh & _).
    cbv zeta in Dh. rewrite Dh.
    destruct (loop_guard (snd (loop_body st))) eqn:Hg'.
    + pose proof (loop_body_rank residualFunc _omc_hybrd_ storeRelations st Hg') as Hr.
      split; [lia|left; reflexivity].
    + destruct (loop_body_last st Hg Hg') as (Lc & Le).
      assert (Hr : rank (snd (loop_body st)) = rank (snd st))
        by (rewrite !rank_counters, Lc; reflexivity).
      rewrite Hr. split; [lia|right; exact Le].
  - destruct (prologue_spec residualFunc storeRelations data)
      as (_ & _ & _ & Ht & Hc & Hg & _).
    cbv zeta in *. rewrite Hg, Ht, hybrd_calls_app, rank_counters, Hc.
    unfold hybrd_calls at 2. cbn [filter length rank_of].
    split; [|left; reflexivity].
    change (24 * Z.to_nat (7 - 0) + 6 * Z.to_nat (3 - 0) + Z.to_nat (5 - 0))%nat
      with 191%nat. lia.
Qed.

(** X11. When [solveHybrd] returns, the number of root-finder calls it
    has made and the number of retry branches the counters still allow
    (5 first-level retries less [retries], 6 for each restart left, 24
    for each third-level change left) add up to 192: every pass costs
    exactly one call, every retry branch exactly one unit of the budget,
    and no unit is given back. *)
Theorem solveHybrd_calls_and_budget (data : DATA World) :
  let l := snd (solveHybrd_loop data) in
  (hybrd_calls (trace (fst (solveHybrd data)))
   + (24 * Z.to_nat (7 - retries3 l) + 6 * Z.to_nat (3 - retries2 l)
      + Z.to_nat (5 - retries l))
   = hybrd_calls (trace data) + 192)%nat.
Proof.
  cbv zeta. rewrite (solveHybrd_trace residualFunc _omc_hybrd_ storeRelations).
  pose proof (solveHybrd_loop_exits residualFunc _omc_hybrd_ storeRelations data) as Hx.
  revert Hx. rewrite solveHybrd_loop_unfold.
  generalize (solving_loop_account data (S (rank (snd (prologue data))))).
  generalize (solving_loop (S (rank (snd (prologue data)))) (prologue data)).
  intros st (Hc & _) Hx. rewrite Hx in Hc. unfold rank in Hc. lia.
Qed.

(** X12. When [solveHybrd] returns false with a last code 4 or 5, it has
    used up the whole retry budget: the root-finder has been called
    exactly 192 times, the counters stand at 5, 3 and 7, the tolerance
    at [1e-10], and the solver is left in mode 2 with x-scaling on,
    whatever its configuration was on entry. *)
Theorem solveHybrd_exhaustion (data : DATA World) :
  snd (solveHybrd data) = false ->
  (info (solverData (fst (solveHybrd data))) = 4
   \/ info (solverData (fst (solveHybrd data))) = 5)%Z ->
  hybrd_calls (trace (fst (solveHybrd data))) = (hybrd_calls (trace data) + 192)%nat
  /\ counters (snd (solveHybrd_loop data)) = (5, 3, 7)%Z
  /\ local_tol (snd (solveHybrd_loop data)) = 1e-10
  /\ mode (solverData (fst (solveHybrd data))) = 2%Z
  /\ useXScaling (solverData (fst (solveHybrd data))) = true.
Proof.
  intros Hret Hinfo.
  rewrite (solveHybrd_returns_success residualFunc _omc_hybrd_ storeRelations) in Hret.
  rewrite (solveHybrd_trace residualFunc _omc_hybrd_ storeRelations).
  revert Hinfo. unfold Hybrd.solveHybrd.
  destruct (epilogue_frame (solveHybrd_loop data))
    as (_ & _ & _ & _ & _ & _ & Ei & Em & _ & Eu).
  cbv zeta in Ei, Em, Eu. rewrite Ei, Em, Eu. clear Ei Em Eu. intros Hinfo.
  pose proof (solveHybrd_loop_exits residualFunc _omc_hybrd_ storeRelations data) as Hx.
  revert Hret Hinfo Hx. rewrite solveHybrd_loop_unfold.
  destruct (solving_loop_account data (S (rank (snd (prologue data))))) as (Hc & He).
  destruct (solving_loop_settings residualFunc _omc_hybrd_ storeRelations data
              (S (rank (snd (prologue data))))) as ((Hb & Ht) & _ & Hm & Hu).
  cbv zeta in *. revert Hc He Hb Ht Hm Hu.
  generalize (solving_loop (S (rank (snd (prologue data)))) (prologue data)).
  intros st Hc He Hb Ht Hm Hu Hret Hinfo Hx.
  rewrite Hx in Hc.
  apply no_progress_spec in Hinfo.
  destruct He as [He|[He|[He|He]]]; try congruence.
  rewrite He in Hc.
  rewrite rank_counters in He. unfold counters in *.
  pose proof (rank_of_zero _ _ _ Hb He) as Hcnt.
  assert (H3 : retries3 (snd st) = 7%Z) by congruence.
  rewrite H3 in *.
  split; [lia|]. split; [exact Hcnt|].
  split; [rewrite Ht; unfold tol_after; simpl; lra|].
  split; [rewrite Hm; reflexivity|apply Hu; lia].
Qed.

End GivingUp.

(** The stalling root-finder of Scenario C makes [solveHybrd] return
    false with a last code 4. *)
Lemma stall_exit :
  snd (solveHybrd Scenario.residual_const Scenario.hybrd_stalls Scenario.store_nothing
         (Scenario.system1 false)) = false
  /\ info (solverData
             (fst (solveHybrd Scenario.residual_const Scenario.hybrd_stalls
                     Scenario.store_nothing (Scenario.system1 false)))) = 4%Z.
Proof.
  rewrite solveHybrd_returns_success. unfold solveHybrd.
  destruct (epilogue_frame (solveHybrd_loop Scenario.residual_const Scenario.hybrd_stalls
                              Scenario.store_nothing (Scenario.system1 false)))
    as (_ & _ & _ & _ & _ & _ & Ei & _).
  cbv zeta in Ei. rewrite Ei. clear Ei.
  pose proof (solveHybrd_loop_exits Scenario.residual_const Scenario.hybrd_stalls
                Scenario.store_nothing (Scenario.system1 false)) as Hx.
  revert Hx. rewrite solveHybrd_loop_unfold.
  assert (H : stall_state
                (solving_loop Scenario.residual_const Scenario.hybrd_stalls
                   Scenario.store_nothing
                   (S (rank (snd (prologue Scenario.residual_const Scenario.store_nothing
                                    (Scenario.system1 false)))))
                   (prologue Scenario.residual_const Scenario.store_nothing
                      (Scenario.system1 false)))
              /\ (loop_guard
                    (snd (solving_loop Scenario.residual_const Scenario.hybrd_stalls
                            Scenario.store_nothing
                            (S (rank (snd (prologue Scenario.residual_const
                                             Scenario.store_nothing
                                             (Scenario.system1 false)))))
                            (prologue Scenario.residual_const Scenario.store_nothing
                               (Scenario.system1 false)))) = true
                  \/ info (solverData
                             (fst (solving_loop Scenario.residual_const
                                     Scenario.hybrd_stalls Scenario.store_nothing
                                     (S (rank (snd (prologue Scenario.residual_const
                                                      Scenario.store_nothing
                                                      (Scenario.system1 false)))))
                                     (prologue Scenario.residual_const
                                        Scenario.store_nothing
                                        (Scenario.system1 false))))) = 4%Z)).
  { apply (solving_loop_invariant Scenario.residual_const Scenario.hybrd_stalls
             Scenario.store_nothing
             (fun st => stall_state st
                        /\ (loop_guard (snd st) = true
                            \/ info (solverData (fst st)) = 4%Z))).
    - intros st (Hst & _) _.
      destruct (stall_pass st Hst) as (Hst' & _).
      destruct (stall_classified st Hst) as (Hi & _).
      destruct (loop_body_data Scenario.residual_const Scenario.hybrd_stalls
                  Scenario.store_nothing st)
        as (_ & _ & _ & _ & _ & _ & _ & _ & Di & _).
      cbv zeta in Di. split; [exact Hst'|right]. rewrite Di. exact Hi.
    - split; [apply stall_prologue|left; apply prologue_guard]. }
  revert H.
  generalize (solving_loop Scenario.residual_const Scenario.hybrd_stalls
                Scenario.store_nothing
                (S (rank (snd (prologue Scenario.residual_const Scenario.store_nothing
                                 (Scenario.system1 false)))))
                (prologue Scenario.residual_const Scenario.store_nothing
                   (Scenario.system1 false))).
  intros st ((_ & _ & _ & Hs & _) & Hi) Hx.
  split; [exact Hs|]. destruct Hi as [Hi|Hi]; [congruence|exact Hi].
Qed.

(** X12 at Scenario C's stalling root-finder: 192 calls. *)
Lemma solveHybrd_exhaustion_witness :
  snd (solveHybrd Scenario.residual_const Scenario.hybrd_stalls Scenario.store_nothing
         (Scenario.system1 false)) = false
  /\ hybrd_calls
       (trace (fst (solveHybrd Scenario.residual_const Scenario.hybrd_stalls
                      Scenario.store_nothing (Scenario.system1 false))))
     = (hybrd_calls (trace (Scenario.system1 false)) + 192)%nat.
Proof.
  split; [exact (proj1 stall_exit)|].
  exact (proj1 (solveHybrd_exhaustion Scenario.residual_const Scenario.hybrd_stalls
                  Scenario.store_nothing (Scenario.system1 false)
                  (proj1 stall_exit) (or_introl (proj2 stall_exit)))).
Defined.

(** ** The scaling of the iterate around the root-finder call *)

(** Dividing by [s] and then multiplying by [s] gives the array back when
    the scale factors passed over are not zero. *)
Lemma vec_for_unscale (k : nat) (s a : list R) :
  (forall i, (i < k)%nat -> nth i s 0 <> 0) ->
  vec_for k (fun i xi => xi * nth i s 0) (vec_for k (fun i xi => (1 / nth i s 0) * xi) a) = a.
Proof.
  intros Hs. apply array_ext.
  - rewrite !vec_for_length. reflexivity.
  - intros j Hj. rewrite !vec_for_length in Hj.
    rewrite nth_vec_for, vec_for_length, nth_vec_for.
    destruct (Nat.ltb_spec j k); simpl; [|reflexivity].
    destruct (Nat.ltb_spec j (length a)); simpl; [|reflexivity].
    specialize (Hs j H). field. exact Hs.
Qed.

Section ScalingAroundCall.

Context {World : Type}.
Variable residualFunc : DATA World -> list R -> list R * list R * World.
Variable _omc_hybrd_ : DATA World -> HybrdOut World.
Variable storeRelations : DATA World -> World.

Local Abbreviation solve_phase := (solve_phase residualFunc _omc_hybrd_ storeRelations).

Lemma hybrd_input_x (data : DATA World) :
  x (solverData (hybrd_input data))
  = (if useXScaling (solverData data)
     then vec_for (n (solverData data))
            (fun i xi => (1 / nth i (nlsxScaling (systemData data)) 0) * xi)
            (x (solverData data))
     else x (solverData data)).
Proof.
  unfold hybrd_input. cbv zeta.
  destruct (useXScaling (solverData data)); destruct (negb _); reflexivity.
Qed.

(** X13. Outside event iteration and with scale factors that are not
    zero, the division of the iterate by [nlsxScaling] before the
    root-finder call and the multiplication after it cancel: the iterate
    after the first part of a pass is the one the root-finder returned,
    multiplied by the scale factors when x-scaling is on, and a
    root-finder that hands its iterate back unchanged leaves [x] as it
    was on entry to the pass. *)
Theorem solve_phase_scaling_transparent (data : DATA World) :
  discreteCall (simulationInfo data) = false ->
  (forall i, (i < n (solverData data))%nat ->
     nth i (nlsxScaling (systemData data)) 0 <> 0) ->
  let o := _omc_hybrd_ (hybrd_input data) in
  x (solverData (solve_phase data))
  = (if useXScaling (solverData data)
     then vec_for (n (solverData data))
            (fun i xi => xi * nth i (nlsxScaling (systemData data)) 0) (out_x o)
     else out_x o)
  /\ (out_x o = x (solverData (hybrd_input data)) ->
      x (solverData (solve_phase data)) = x (solverData data)).
Proof.
  intros Hd Hs. cbv zeta.
  destruct (solve_phase_result residualFunc _omc_hybrd_ storeRelations data)
    as (_ & _ & _ & _ & _ & Hx).
  cbv zeta in Hx. destruct (Hx Hd) as [Hx' _]. clear Hx.
  rewrite Hx'. unfold rescaled. split; [reflexivity|].
  intros Ho. rewrite Ho, hybrd_input_x.
  destruct (useXScaling (solverData data)); [|reflexivity].
  apply vec_for_unscale. exact Hs.
Qed.

End ScalingAroundCall.

(** X13 at the stalling root-finder of Scenario C, which hands its
    iterate back: [x = [7]] scaled by 2. *)
Lemma solve_phase_scaling_transparent_witness :
  discreteCall (simulationInfo (Scenario.system1 false)) = false
  /\ x (solverData (solve_phase Scenario.residual_const Scenario.hybrd_stalls
                      Scenario.store_nothing (Scenario.system1 false)))
     = x (solverData (Scenario.system1 false)).
Proof.
  split; [reflexivity|].
  apply (solve_phase_scaling_transparent Scenario.residual_const Scenario.hybrd_stalls
           Scenario.store_nothing (Scenario.system1 false)).
  - reflexivity.
  - intros [|i] Hi; simpl in *; [lra|lia].
  - reflexivity.
Defined.

(** ** More on [solveLapack] *)

Lemma memset0_full (a : list R) (k : nat) : length a = k -> memset0 a k = repeat 0 k.
Proof.
  intros Hl. apply array_ext.
  - unfold memset0. rewrite vec_for_length, repeat_length. exact Hl.
  - intros j Hj. unfold memset0 in *. rewrite vec_for_length in Hj.
    rewrite nth_vec_for_in by lia. rewrite nth_repeat_lt by lia. reflexivity.
Qed.

Lemma for_loop_ext {St : Type} (c start : nat) (f g : nat -> St -> St) (s : St) :
  (forall i s', (start <= i < start + c)%nat -> f i s' = g i s') ->
  for_loop c start f s = for_loop c start g s.
Proof.
  revert start s. induction c as [|c IH]; intros start s H; simpl; [reflexivity|].
  rewrite (H start s) by lia. apply IH. intros i s' Hi. apply H. lia.
Qed.

(** A row of the product reads the first [k] entries of the vector only. *)
Lemma row_times_ext (k : nat) (a v v' : list R) (i : nat) :
  (forall j, (j < k)%nat -> nth j v 0 = nth j v' 0) ->
  Lapack.row_times k a v i = Lapack.row_times k a v' i.
Proof.
  intros H. unfold Lapack.row_times, for_n. apply for_loop_ext.
  intros j acc Hj. rewrite (H j) by lia. reflexivity.
Qed.

Section MoreSolveLapack.

Variable dgesv_ : nat -> Z -> list R -> nat -> list Z -> list R -> nat -> Lapack.DgesvOut.
Variable setA : Lapack.LINEAR_SYSTEM_DATA -> list R.
Variable setb : Lapack.LINEAR_SYSTEM_DATA -> list R.

Local Abbreviation solveLapack := (Lapack.solveLapack dgesv_ setA setb).
Local Abbreviation assembled := (Lapack.assembled setA setb).
Local Abbreviation dgesv_result := (Lapack.dgesv_result dgesv_ setA setb).

(** X14. [solveLapack] does not depend on what an earlier solve left in
    the matrix buffer or in the status: two calls on systems that differ
    only there (the buffers holding [size * size] entries) return the
    same flag and leave the same data.  The right-hand side and the
    solution slot, which are not cleared, are another matter. *)
Theorem solveLapack_ignores_stale_matrix (data data' : Lapack.DATA) :
  Lapack.size (Lapack.systemData data') = Lapack.size (Lapack.systemData data) ->
  Lapack.b (Lapack.systemData data') = Lapack.b (Lapack.systemData data) ->
  Lapack.x (Lapack.systemData data') = Lapack.x (Lapack.systemData data) ->
  Lapack.ipiv (Lapack.solverData data') = Lapack.ipiv (Lapack.solverData data) ->
  Lapack.nrhs (Lapack.solverData data') = Lapack.nrhs (Lapack.solverData data) ->
  Lapack.warnings data' = Lapack.warnings data ->
  length (Lapack.A (Lapack.systemData data))
  = (Lapack.size (Lapack.systemData data) * Lapack.size (Lapack.systemData data))%nat ->
  length (Lapack.A (Lapack.systemData data'))
  = (Lapack.size (Lapack.systemData data) * Lapack.size (Lapack.systemData data))%nat ->
  solveLapack data' = solveLapack data.
Proof.
  destruct data as [[k a rhs v] [p nr st] w], data' as [[k' a' rhs' v'] [p' nr' st'] w'].
  cbn [Lapack.size Lapack.A Lapack.b Lapack.x Lapack.ipiv Lapack.nrhs Lapack.info
         Lapack.systemData Lapack.solverData Lapack.warnings].
  intros -> -> -> -> -> -> Ha Ha'.
  unfold Lapack.solveLapack. cbv zeta.
  cbn [Lapack.size Lapack.A Lapack.b Lapack.x Lapack.ipiv Lapack.nrhs Lapack.info
         Lapack.systemData Lapack.solverData Lapack.warnings].
  rewrite (memset0_full a _ Ha), (memset0_full a' _ Ha'). reflexivity.
Qed.

(** X15. When [solveLapack] returns true and [dgesv_], where it reports
    status 0, has left in the right-hand side buffer a solution of the
    system it was handed, the solution slot [x] holds a solution of the
    system as the callbacks assembled it (the matrix being [size] x
    [size], column-major, and [x] holding at least [size] entries). *)
Theorem solveLapack_solves (data : Lapack.DATA) :
  (Lapack.size (Lapack.systemData data) <= length (Lapack.x (Lapack.systemData data)))%nat ->
  (Lapack.out_info (dgesv_result data) = 0%Z ->
   Lapack.solves (Lapack.size (Lapack.systemData data))
     (Lapack.A (assembled data)) (Lapack.b (assembled data))
     (Lapack.out_b (dgesv_result data))) ->
  snd (solveLapack data) = true ->
  Lapack.solves (Lapack.size (Lapack.systemData data))
    (Lapack.A (assembled data)) (Lapack.b (assembled data))
    (Lapack.x (Lapack.systemData (fst (solveLapack data)))).
Proof.
  intros Hlen Hcontract Hret.
  destruct (solveLapack_spec dgesv_ setA setb data) as (_ & Hs & _ & _ & _ & Hx).
  cbv zeta in *. rewrite Hs in Hret. apply Z.eqb_eq in Hret.
  specialize (Hcontract Hret). rewrite Hx.
  intros i Hi. rewrite <- (Hcontract i Hi).
  apply row_times_ext. intros j Hj.
  unfold memcpy. rewrite nth_vec_for_in by lia. reflexivity.
Qed.

End MoreSolveLapack.

(** X14 at the system of Scenario B and the same system with a used
    matrix buffer and status. *)
Lemma solveLapack_ignores_stale_matrix_witness :
  Lapack.A (Lapack.systemData Scenario.singular2_stale)
  <> Lapack.A (Lapack.systemData Scenario.singular2)
  /\ Lapack.solveLapack Lapack.dgesv_diag Scenario.setA_singular2 Scenario.setb_singular2
       Scenario.singular2_stale
     = Lapack.solveLapack Lapack.dgesv_diag Scenario.setA_singular2 Scenario.setb_singular2
         Scenario.singular2.
Proof.
  split.
  - simpl. intros H. injection H as H _. lra.
  - apply (solveLapack_ignores_stale_matrix Lapack.dgesv_diag Scenario.setA_singular2
             Scenario.setb_singular2 Scenario.singular2 Scenario.singular2_stale);
      reflexivity.
Defined.

Lemma first_zero_pivot_regular1 : Lapack.first_zero_pivot 1 [2] = 0%Z.
Proof.
  unfold Lapack.first_zero_pivot, for_n. cbn [for_loop Z.eqb Nat.add Nat.mul nth].
  destruct (Req_dec_T 2 0) as [E|E]; [lra|reflexivity].
Qed.

Lemma dgesv_result_regular1 :
  Lapack.dgesv_result Lapack.dgesv_diag Scenario.setA_regular1 Scenario.setb_regular1
    Scenario.regular1
  = {| Lapack.out_A := [2]; Lapack.out_ipiv := [1%Z]; Lapack.out_b := [6 / 2];
       Lapack.out_info := 0 |}.
Proof.
  unfold Lapack.dgesv_result, Lapack.dgesv_diag.
  change (Lapack.A (Lapack.assembled Scenario.setA_regular1 Scenario.setb_regular1
                      Scenario.regular1)) with [2].
  change (Lapack.b (Lapack.assembled Scenario.setA_regular1 Scenario.setb_regular1
                      Scenario.regular1)) with [6].
  change (Lapack.size (Lapack.assembled Scenario.setA_regular1 Scenario.setb_regular1
                         Scenario.regular1)) with 1%nat.
  cbv zeta. rewrite first_zero_pivot_regular1. reflexivity.
Qed.

(** X15 at the system [2 x = 6], with the stand-in for [dgesv_] on
    diagonal systems. *)
Lemma solveLapack_solves_witness :
  snd (Lapack.solveLapack Lapack.dgesv_diag Scenario.setA_regular1 Scenario.setb_regular1
         Scenario.regular1) = true
  /\ Lapack.solves 1 [2] [6]
       (Lapack.x (Lapack.systemData
                    (fst (Lapack.solveLapack Lapack.dgesv_diag Scenario.setA_regular1
                            Scenario.setb_regular1 Scenario.regular1)))).
Proof.
  assert (Hret : snd (Lapack.solveLapack Lapack.dgesv_diag Scenario.setA_regular1
                        Scenario.setb_regular1 Scenario.regular1) = true).
  { destruct (solveLapack_spec Lapack.dgesv_diag Scenario.setA_regular1
                Scenario.setb_regular1 Scenario.regular1) as (_ & Hs & _).
    cbv zeta in Hs. rewrite Hs, dgesv_result_regular1. reflexivity. }
  split; [exact Hret|].
  apply (solveLapack_solves Lapack.dgesv_diag Scenario.setA_regular1 Scenario.setb_regular1
           Scenario.regular1).
  - simpl. lia.
  - intros _. rewrite dgesv_result_regular1. intros i Hi.
    assert (i = 0%nat) as -> by (simpl in Hi; lia).
    unfold Lapack.row_times, for_n. simpl. field.
  - exact Hret.
Defined.

(** ** A freshly allocated solver *)

Lemma triangle_even (z : Z) : (2 * (z * (z + 1) / 2) = z * (z + 1))%Z.
Proof.
  assert (H : exists q, (z * (z + 1) = q * 2)%Z).
  { destruct (Z.Even_or_Odd z) as [[k Hk]|[k Hk]]; subst z.
    - exists (k * (2 * k + 1))%Z. lia.
    - exists ((2 * k + 1) * (k + 1))%Z. lia. }
  destruct H as [q Hq]. rewrite Hq, Z.div_mul by lia. lia.
Qed.

(** Within the range of [int] nothing wraps. *)
Lemma int_wrap_small (z : Z) :
  (- 2147483648 <= z <= INT_MAX)%Z -> int_wrap z = z.
Proof.
  unfold int_wrap, INT_MAX. intros H. rewrite Z.mod_small by lia. lia.
Qed.

Lemma double_bytes_small (k : Z) :
  (0 <= k <= INT_MAX)%Z -> double_bytes k = (8 * k)%Z.
Proof.
  unfold double_bytes, size_t_wrap, INT_MAX. intros H.
  rewrite (Z.mod_small k) by lia. rewrite Z.mod_small by lia. lia.
Qed.

(** The [int] expressions of [allocateHybrdData] for a size up to
    46340. *)
Lemma allocation_sizes (size : Z) :
  (0 <= size <= 46340)%Z ->
  int_mul size size = (size * size)%Z
  /\ int_div (int_mul size (int_add size 1)) 2 = (size * (size + 1) / 2)%Z
  /\ int_mul size 10000 = (size * 10000)%Z
  /\ (0 <= size * size <= INT_MAX)%Z
  /\ (0 <= size * (size + 1) / 2 <= INT_MAX)%Z.
Proof.
  intros H. unfold int_mul, int_add, int_div, INT_MAX.
  assert (H1 : (0 <= size * size <= 2147395600)%Z) by nia.
  assert (H2 : (0 <= size * (size + 1) <= 2147441940)%Z) by nia.
  assert (H3 : (0 <= size * (size + 1) / 2 <= 2147441940)%Z).
  { split; [apply Z.div_pos; lia|].
    apply Z.le_trans with (size * (size + 1))%Z; [|lia].
    apply Z.div_le_upper_bound; lia. }
  rewrite (int_wrap_small (size + 1)) by (unfold INT_MAX; lia).
  rewrite (int_wrap_small (size * size)) by (unfold INT_MAX; lia).
  rewrite (int_wrap_small (size * (size + 1))) by (unfold INT_MAX; lia).
  rewrite (int_wrap_small (size * 10000)) by (unfold INT_MAX; lia).
  rewrite Z.quot_div_nonneg by lia.
  rewrite (int_wrap_small (size * (size + 1) / 2)) by (unfold INT_MAX; lia).
  repeat split; lia.
Qed.

Lemma epilogue_factor {World : Type} (st : DATA World * Locals) :
  factor (solverData (fst (epilogue st))) = initial_factor (snd st).
Proof. destruct st as [d l]. reflexivity. Qed.

Section Allocation.

Context {World : Type}.
Variable residualFunc : DATA World -> list R -> list R * list R * World.
Variable _omc_hybrd_ : DATA World -> HybrdOut World.
Variable storeRelations : DATA World -> World.
Variable malloc : nat -> Z -> list R.

Local Abbreviation solving_loop := (solving_loop residualFunc _omc_hybrd_ storeRelations).
Local Abbreviation prologue := (prologue residualFunc storeRelations).
Local Abbreviation solveHybrd_loop :=
  (solveHybrd_loop residualFunc _omc_hybrd_ storeRelations).
Local Abbreviation solveHybrd := (solveHybrd residualFunc _omc_hybrd_ storeRelations).

(** With x-scaling on at entry, it is on in every state of the loop. *)
Lemma solving_loop_scaling_on (data : DATA World) (fuel : nat) :
  useXScaling (solverData data) = true ->
  useXScaling (solverData (fst (solving_loop fuel (prologue data)))) = true.
Proof.
  intros Hu.
  apply (solving_loop_invariant residualFunc _omc_hybrd_ storeRelations
           (fun st => useXScaling (solverData (fst st)) = true)).
  - intros st Hst _.
    destruct (loop_body_keeps_scaling residualFunc _omc_hybrd_ storeRelations st true
                (or_introl Hst)) as [H|H]; exact H.
  - destruct (prologue_spec residualFunc storeRelations data)
      as (_ & _ & (_ & _ & _ & _ & Hp) & _).
    cbv zeta in Hp. rewrite Hp. exact Hu.
Qed.

(** X16. For a size from 0 to 46340, where none of the [int] products in
    [allocateHybrdData] leaves the range of [int], the solver data it
    sets up (every [malloc] of [8 * k] bytes giving a buffer of [k]
    doubles) has [n = size], buffers [x], [fvec], [diag] and [resScaling]
    of [size] entries, the residual zeroed, a Jacobian buffer of [size *
    size] entries and a triangular buffer of exactly [lr = size * (size +
    1) / 2] entries, the division by 2 leaving no remainder, and
    [maxfev = 10000 * size]; and [solveHybrd] run on it has x-scaling on
    in every pass and on return, and returns with [factor] at its
    initial 100.  The bound is sharp: at size 46341 the product [size *
    size] wraps around to a negative [int]. *)
Theorem allocateHybrdData_ready (size : Z) (data : DATA World) :
  (0 <= size <= 46340)%Z ->
  (forall site k, (0 <= k <= INT_MAX)%Z -> length (malloc site (8 * k)) = Z.to_nat k) ->
  solverData data = solver_fields (allocateHybrdData malloc size) ->
  let a := allocateHybrdData malloc size in
  let s := solverData data in
  (n s = Z.to_nat size /\ length (x s) = Z.to_nat size /\ length (fvec s) = Z.to_nat size
   /\ length (diag s) = Z.to_nat size /\ length (resScaling s) = Z.to_nat size
   /\ length (fjacobian s) = (Z.to_nat size * Z.to_nat size)%nat)
  /\ (fvec s = repeat 0 (Z.to_nat size)
      /\ (2 * a_lr a = size * (size + 1))%Z
      /\ length (a_r__ a) = Z.to_nat (a_lr a)
      /\ a_maxfev a = (10000 * size)%Z)
  /\ (forall fuel,
        useXScaling (solverData (fst (solving_loop fuel (prologue data)))) = true)
  /\ useXScaling (solverData (fst (solveHybrd data))) = true
  /\ factor (solverData (fst (solveHybrd data))) = 100
  /\ (int_mul 46341 46341 < 0)%Z.
Proof.
  intros Hsz Hm Hs. cbv zeta.
  assert (Hu : useXScaling (solverData data) = true) by (rewrite Hs; reflexivity).
  assert (Hf : factor (solverData data) = 100) by (rewrite Hs; reflexivity).
  destruct (allocation_sizes size Hsz) as (Es & El & Em & Bs & Bl).
  assert (Hsize : (0 <= size <= INT_MAX)%Z) by (unfold INT_MAX; lia).
  split; [|split; [|split; [|split; [|split]]]].
  - rewrite Hs. unfold solver_fields, allocateHybrdData, calloc.
    cbn [n x fvec diag resScaling fjacobian a_n a_x a_fvec a_diag a_resScaling a_fjacobian].
    rewrite Es, !double_bytes_small by assumption.
    rewrite !Hm by assumption. rewrite repeat_length.
    unfold size_t_wrap. rewrite Z.mod_small by (unfold INT_MAX in Hsize; lia).
    repeat split; try reflexivity. apply Z2Nat.inj_mul; lia.
  - rewrite Hs. unfold solver_fields, allocateHybrdData, calloc.
    cbn [fvec a_fvec a_lr a_r__ a_maxfev].
    rewrite El, Em, double_bytes_small, Hm by assumption.
    unfold size_t_wrap. rewrite Z.mod_small by (unfold INT_MAX in Hsize; lia).
    split; [reflexivity|]. split; [apply triangle_even|]. split; [reflexivity|lia].
  - intros fuel. apply solving_loop_scaling_on. exact Hu.
  - unfold Hybrd.solveHybrd.
    destruct (epilogue_frame (solveHybrd_loop data))
      as (_ & _ & _ & _ & _ & _ & _ & _ & _ & Eu).
    cbv zeta in Eu. rewrite Eu, solveHybrd_loop_unfold.
    apply solving_loop_scaling_on. exact Hu.
  - unfold Hybrd.solveHybrd. rewrite epilogue_factor.
    destruct (solveHybrd_loop_frame residualFunc _omc_hybrd_ storeRelations data)
      as (_ & _ & Hi).
    cbv zeta in Hi. rewrite Hi. exact Hf.
  - reflexivity.
Qed.

End Allocation.

(** X16 at a one-unknown system on zeroed memory, with the stalling
    root-finder of Scenario C. *)
Lemma allocateHybrdData_ready_witness :
  solverData Scenario.fresh1
  = solver_fields (allocateHybrdData Scenario.malloc_zero 1)
  /\ length (x (solverData Scenario.fresh1)) = 1%nat
  /\ useXScaling
       (solverData (fst (solveHybrd Scenario.residual_const Scenario.hybrd_stalls
                           Scenario.store_nothing Scenario.fresh1))) = true
  /\ factor
       (solverData (fst (solveHybrd Scenario.residual_const Scenario.hybrd_stalls
                           Scenario.store_nothing Scenario.fresh1))) = 100.
Proof.
  split; [reflexivity|].
  destruct (allocateHybrdData_ready Scenario.residual_const Scenario.hybrd_stalls
              Scenario.store_nothing Scenario.malloc_zero 1 Scenario.fresh1)
    as ((_ & Hx & _) & _ & _ & Hu & Hf & _).
  - lia.
  - intros site k Hk. unfold Scenario.malloc_zero. rewrite repeat_length.
    rewrite Z.mul_comm, Z.div_mul by lia. reflexivity.
  - reflexivity.
  - split; [exact Hx|]. split; [exact Hu|exact Hf].
Defined.

(** ** What the root-finder is handed *)

Section RootFinderInput.

Context {World : Type}.
Variable residualFunc : DATA World -> list R -> list R * list R * World.
Variable _omc_hybrd_ : DATA World -> HybrdOut World.
Variable storeRelations : DATA World -> World.

Local Abbreviation solve_phase := (solve_phase residualFunc _omc_hybrd_ storeRelations).
Local Abbreviation loop_body := (loop_body residualFunc _omc_hybrd_ storeRelations).
Local Abbreviation classified := (classified residualFunc _omc_hybrd_ storeRelations).
Local Abbreviation branch_taken := (branch_taken residualFunc _omc_hybrd_ storeRelations).
Local Abbreviation prologue := (prologue residualFunc storeRelations).

(** "Scaling x vector" and "set residual function continuous" write [x]
    and [solveContinuous] only. *)
Lemma hybrd_input_solver (data : DATA World) :
  let d := hybrd_input data in
  mode (solverData d) = mode (solverData data)
  /\ diag (solverData d) = diag (solverData data)
  /\ info (solverData d) = info (solverData data)
  /\ solveContinuous (simulationInfo d)
     = (if (info (solverData data) =? 4)%Z && discreteCall (simulationInfo data)
        then solveContinuous (simulationInfo data) else true).
Proof.
  unfold hybrd_input. cbv zeta.
  destruct (useXScaling (solverData data)); cbn [set_x set_solverData solverData info
    simulationInfo discreteCall];
    destruct ((info (solverData data) =? 4)%Z && discreteCall (simulationInfo data));
    cbn [negb]; repeat split; reflexivity.
Qed.

Lemma after_hybrd_diag (k : nat) (s : list R) (data : DATA World) :
  diag (solverData (after_hybrd residualFunc storeRelations k s data))
  = diag (solverData data).
Proof.
  unfold after_hybrd. cbv zeta.
  set (d1 := set_solveContinuous false data).
  set (d2 := if useXScaling (solverData d1) then _ else d1).
  assert (H2 : diag (solverData d2) = diag (solverData data)).
  { subst d2 d1. simpl. destruct (useXScaling (solverData data)); reflexivity. }
  clearbody d2. clear d1.
  set (d3 := if (info (solverData d2) =? 0)%Z then _ else d2).
  assert (H3 : diag (solverData d3) = diag (solverData data)).
  { subst d3. destruct (info (solverData d2) =? 0)%Z; simpl; exact H2. }
  clearbody d3. clear d2 H2.
  destruct (discreteCall (simulationInfo d3)); [|exact H3].
  destruct (evaluate_with_discontinuities_frame residualFunc storeRelations true d3)
    as (_ & _ & _ & Ed & _).
  cbv zeta in Ed. rewrite Ed. exact H3.
Qed.

Lemma solve_phase_diag (data : DATA World) :
  diag (solverData (solve_phase data)) = out_diag (_omc_hybrd_ (hybrd_input data)).
Proof.
  rewrite (solve_phase_steps residualFunc _omc_hybrd_ storeRelations), after_hybrd_diag.
  reflexivity.
Qed.

Lemma classify_phase_diag (data : DATA World) (l : Locals) :
  diag (solverData (fst (classify_phase (data, l)))) = diag (solverData data).
Proof.
  unfold classify_phase; cbv zeta.
  match goal with |- context [if ?c then set_info _ _ else _] => destruct c end;
    reflexivity.
Qed.

(** [diag] after the two branches that fill it. *)
Lemma run_branch_diag (br : Branch) (data : DATA World) (l : Locals) (i : nat) :
  br = OwnScaling \/ br = NoScaling ->
  (i < n (solverData data))%nat ->
  (i < length (diag (solverData data)))%nat ->
  ~ nth i (diag (solverData (fst (run_branch br data l)))) 0 <= 0.
Proof.
  intros [-> | ->] Hi Hl; cbn [run_branch fst]; simpl; rewrite nth_vec_for_in by assumption.
  - destruct (Rle_dec (fabs (nth i (resScaling (solverData data)) 0)) 0) as [H|H]; [lra|].
    exact H.
  - lra.
Qed.

(** X17. After the two branches that switch the root-finder to the
    scaling factors of the caller, "own scaling" ([diag[i]] set to the
    absolute value of the scaled residual, and to [1e-16] where the test
    [diag[i] <= 0] holds) and "no scaling" ([diag[i] = 1]), the next
    root-finder call is made in mode 2 and for no [i < n] does the test
    [diag[i] <= 0] hold (the [diag] buffer the root-finder left holding
    at least [n] entries). *)
Theorem loop_body_own_scaling_diag (st : DATA World * Locals) :
  (n (solverData (fst st)) <= length (out_diag (_omc_hybrd_ (hybrd_input (fst st)))))%nat ->
  branch_taken st = OwnScaling \/ branch_taken st = NoScaling ->
  let d' := hybrd_input (fst (loop_body st)) in
  mode (solverData d') = 2%Z
  /\ (forall i, (i < n (solverData (fst st)))%nat -> ~ nth i (diag (solverData d')) 0 <= 0).
Proof.
  intros Hlen Hbr. cbv zeta.
  destruct (hybrd_input_solver (fst (loop_body st))) as (Hm & Hd & _).
  destruct (loop_body_pass residualFunc _omc_hybrd_ storeRelations st)
    as (_ & _ & _ & _ & Pm & _).
  cbv zeta in *. rewrite Hm, Hd, Pm. clear Hm Hd Pm.
  split; [destruct Hbr as [-> | ->]; reflexivity|].
  intros i Hi. rewrite (loop_body_unfold residualFunc _omc_hybrd_ storeRelations).
  destruct (classify_phase_spec (solve_phase (fst st)) (set_giveUp (snd st)))
    as (_ & _ & _ & Cn & _).
  pose proof (classify_phase_diag (solve_phase (fst st)) (set_giveUp (snd st))) as Cd.
  fold (classified st) in Cn, Cd.
  destruct (solve_phase_frame residualFunc _omc_hybrd_ storeRelations (fst st))
    as (_ & _ & _ & (Sn & _) & _).
  cbv zeta in *. rewrite Sn in Cn. rewrite solve_phase_diag in Cd.
  apply run_branch_diag; [exact Hbr|rewrite Cn; exact Hi|rewrite Cd; lia].
Qed.

(** X18. The root-finder is called with [solveContinuous] set, except
    when the code in hand is 4 in a discrete call: after a pass, the
    next call finds [solveContinuous] set exactly when the code the pass
    left is not 4 or [discreteCall] is not set; in the first pass the
    code in hand is the one an earlier solve left in the solver data,
    and with a 4 there a discrete call leaves [solveContinuous] as the
    caller had it. *)
Theorem hybrd_input_continuity :
  (forall data : DATA World,
     solveContinuous (simulationInfo (hybrd_input (fst (prologue data))))
     = (if (info (solverData data) =? 4)%Z && discreteCall (simulationInfo data)
        then solveContinuous (simulationInfo data) else true))
  /\ (forall st : DATA World * Locals,
        solveContinuous (simulationInfo (hybrd_input (fst (loop_body st))))
        = negb ((info (solverData (fst (loop_body st))) =? 4)%Z
                && discreteCall (simulationInfo (fst st)))).
Proof.
  split.
  - intros data.
    destruct (hybrd_input_solver (fst (prologue data))) as (_ & _ & _ & Hc).
    destruct (prologue_spec residualFunc storeRelations data) as (_ & Hsi & _).
    cbv zeta in *. rewrite Hc, Hsi. clear Hc.
    assert (Hi : info (solverData (fst (prologue data))) = info (solverData data)).
    { unfold Hybrd.prologue. cbv zeta. cbn [fst].
      match goal with |- context [evaluate_with_discontinuities _ _ false ?d] =>
        destruct (evaluate_with_discontinuities_frame residualFunc storeRelations false d)
          as (_ & _ & _ & _ & Ei & _) end.
      cbv zeta in Ei. rewrite Ei.
      destruct (discreteCall (simulationInfo data)); reflexivity. }
    rewrite Hi. reflexivity.
  - intros st.
    destruct (hybrd_input_solver (fst (loop_body st))) as (_ & _ & _ & Hc).
    pose proof (loop_body_discrete_mode residualFunc _omc_hybrd_ storeRelations st) as Hd.
    destruct (loop_body_data residualFunc _omc_hybrd_ storeRelations st)
      as (_ & Dd & _).
    cbv zeta in *. rewrite Hc, Hd, Dd.
    destruct ((info (solverData (fst (loop_body st))) =? 4)%Z
              && discreteCall (simulationInfo (fst st))); reflexivity.
Qed.

End RootFinderInput.

(** X17 at the stalling root-finder of Scenario C, in the pass that finds
    the first two retry levels used up and takes "own scaling". *)
Lemma loop_body_own_scaling_diag_witness :
  branch_taken Scenario.residual_const Scenario.hybrd_stalls Scenario.store_nothing
    (Scenario.system1 false, Scenario.locals_levels_used) = OwnScaling
  /\ (let d' := hybrd_input
                  (fst (loop_body Scenario.residual_const Scenario.hybrd_stalls
                          Scenario.store_nothing
                          (Scenario.system1 false, Scenario.locals_levels_used))) in
      mode (solverData d') = 2%Z
      /\ (forall i, (i < n (solverData (fst (Scenario.system1 false,
                                              Scenario.locals_levels_used))))%nat ->
                    ~ nth i (diag (solverData d')) 0 <= 0)).
Proof.
  assert (Hst : stall_state (Scenario.system1 false, Scenario.locals_levels_used)).
  { unfold stall_state, tol_inv. cbn [fst snd]. repeat split; try reflexivity.
    left. cbn [local_tol Scenario.locals_levels_used]. lra. }
  assert (Hbr : branch_taken Scenario.residual_const Scenario.hybrd_stalls
                  Scenario.store_nothing
                  (Scenario.system1 false, Scenario.locals_levels_used) = OwnScaling).
  { destruct (stall_classified _ Hst) as (_ & _ & _ & Hb). rewrite Hb. reflexivity. }
  split; [exact Hbr|].
  apply (loop_body_own_scaling_diag Scenario.residual_const Scenario.hybrd_stalls
           Scenario.store_nothing (Scenario.system1 false, Scenario.locals_levels_used)).
  - destruct (hybrd_input_solver (Scenario.system1 false)) as (_ & Hd & _).
    cbv zeta in Hd. cbn [fst Scenario.hybrd_stalls out_diag]. rewrite Hd.
    cbn. lia.
  - left. exact Hbr.
Defined.

(** ** The iterate with which the loop is left *)

Lemma run_branch_x_not_retry {World : Type} (br : Branch) (data : DATA World)
      (l : Locals) :
  is_retry br = false ->
  x (solverData (fst (run_branch br data l))) = x (solverData data).
Proof.
  destruct br; cbn [is_retry]; intros H; try discriminate; try reflexivity.
  cbn [run_branch fst]. destruct (negb _); reflexivity.
Qed.

Section LastIterate.

Context {World : Type}.
Variable residualFunc : DATA World -> list R -> list R * list R * World.
Variable _omc_hybrd_ : DATA World -> HybrdOut World.
Variable storeRelations : DATA World -> World.

Local Abbreviation solve_phase := (solve_phase residualFunc _omc_hybrd_ storeRelations).
Local Abbreviation loop_body := (loop_body residualFunc _omc_hybrd_ storeRelations).
Local Abbreviation classified := (classified residualFunc _omc_hybrd_ storeRelations).
Local Abbreviation branch_taken := (branch_taken residualFunc _omc_hybrd_ storeRelations).

(** X19. The pass with which the solving loop is left does not touch the
    iterate after the first part of the pass: [x] and [fvec] are as that
    part left them, and outside event iteration [x] is the iterate the
    root-finder returned in that pass (multiplied by the scale factors
    when x-scaling is on) and [fvec] the residual it returned.  The
    perturbations and restarts of the retry branches are always followed
    by another root-finder call, so none of them is in the iterate that
    [solveHybrd] writes back. *)
Theorem loop_body_last_iterate (st : DATA World * Locals) :
  loop_guard (snd st) = true ->
  loop_guard (snd (loop_body st)) = false ->
  let o := _omc_hybrd_ (hybrd_input (fst st)) in
  let s' := solverData (fst (loop_body st)) in
  x s' = x (solverData (solve_phase (fst st)))
  /\ fvec s' = fvec (solverData (solve_phase (fst st)))
  /\ (discreteCall (simulationInfo (fst st)) = false ->
      x s' = rescaled (fst st) (out_x o) /\ fvec s' = out_fvec o).
Proof.
  intros Hg Hg'. cbv zeta.
  rewrite (loop_body_guard residualFunc _omc_hybrd_ storeRelations st Hg) in Hg'.
  destruct (loop_body_data residualFunc _omc_hybrd_ storeRelations st)
    as (_ & _ & _ & Df & _).
  destruct (classify_phase_settings (solve_phase (fst st)) (set_giveUp (snd st)))
    as (_ & _ & Cx).
  fold (classified st) in Cx.
  destruct (solve_phase_result residualFunc _omc_hybrd_ storeRelations (fst st))
    as (_ & _ & _ & _ & _ & Hnd).
  cbv zeta in *.
  assert (Hx : x (solverData (fst (loop_body st))) = x (solverData (solve_phase (fst st)))).
  { rewrite (loop_body_unfold residualFunc _omc_hybrd_ storeRelations), <- Cx.
    apply run_branch_x_not_retry. exact Hg'. }
  split; [exact Hx|]. split; [exact Df|].
  intros Hd. destruct (Hnd Hd) as [Hx' Hf']. rewrite Hx, Df. split; assumption.
Qed.

End LastIterate.

(** X19 at Scenario A: the first pass ends the loop with the root 3 that
    the root-finder returned. *)
Lemma loop_body_last_iterate_witness :
  loop_guard
    (snd (loop_body Scenario.residual_shift Scenario.hybrd_converges
            Scenario.store_nothing (Scenario.system1 false, Scenario.locals1))) = false
  /\ x (solverData
          (fst (loop_body Scenario.residual_shift Scenario.hybrd_converges
                  Scenario.store_nothing (Scenario.system1 false, Scenario.locals1))))
     = x (solverData
            (solve_phase Scenario.residual_shift Scenario.hybrd_converges
               Scenario.store_nothing (fst (Scenario.system1 false, Scenario.locals1)))).
Proof.
  assert (Hg' : loop_guard
                  (snd (loop_body Scenario.residual_shift Scenario.hybrd_converges
                          Scenario.store_nothing
                          (Scenario.system1 false, Scenario.locals1))) = false).
  { unfold loop_guard. rewrite converge_pass; [apply andb_false_r|reflexivity|reflexivity|].
    cbn [snd local_tol Scenario.locals1]. lra. }
  split; [exact Hg'|].
  exact (proj1 (loop_body_last_iterate Scenario.residual_shift Scenario.hybrd_converges
                  Scenario.store_nothing (Scenario.system1 false, Scenario.locals1)
                  eq_refl Hg')).
Defined.
